(** * Viewport transform engine of image-pan-zoom

    A shallow embedding of [src/modules/utils.ts], [src/modules/events.ts],
    [src/modules/animations.ts] and [src/modules/core.ts], and the properties
    of the pan / zoom / rotate transform that the engine is specified to have.

    Numbers.  A JavaScript [number] is modelled as a real number: [Math.min],
    [Math.max], [Math.abs], [Math.cos], [Math.sin], [Math.exp] are the real
    functions, [%] is the truncating remainder and [Math.atan2] is defined
    from [atan].  Rounding is therefore idealised, and the values [NaN] and
    [Infinity] do not exist in this model: a handler of the model is the
    handler of the code on states and inputs that are finite numbers, as
    long as
    it divides by no zero and reads no field that is still [undefined].
    The places where the engine leaves the numbers are studied on binary64
    floats: the pinch scale ratio in [Module PinchFloat], and the clamp of
    [NaN], the scale velocity read from an unassigned [lastScale] and the
    double click at scale 0 in [Module Binary64].  Runs of the engine
    ([run]) carry the side conditions that keep them inside the numbers.

    DOM.  The engine reads geometry through [getBoundingClientRect],
    [offsetWidth] and [offsetHeight]; a [Dom.t] holds the readings of one
    call.  Style writes (the CSS transform string, the transition flag and
    its timeout) never feed back into the transform and are left out, except
    that [localToWorld] is the point map that the CSS string denotes.  The
    browser's animation-frame scheduler is part of the state ([rafQueue]). *)

From Stdlib Require Import Reals Lra Lia ZArith List Bool.
From Stdlib Require PrimFloat SpecFloat FloatOps FloatAxioms.
Import ListNotations.

Local Open Scope R_scope.

(** ** JavaScript numbers *)

Abbreviation Math_min := Rmin (only parsing).
Abbreviation Math_max := Rmax (only parsing).
Abbreviation Math_abs := Rabs (only parsing).
Abbreviation Math_cos := cos (only parsing).
Abbreviation Math_sin := sin (only parsing).
Abbreviation Math_exp := exp (only parsing).
Abbreviation Math_PI := PI (only parsing).

Definition Rltb (a b : R) : bool := if Rlt_dec a b then true else false.
Definition Rleb (a b : R) : bool := if Rle_dec a b then true else false.
Definition Rgtb (a b : R) : bool := Rltb b a.
Definition Reqb (a b : R) : bool := if Req_dec_T a b then true else false.

Infix "<?" := Rltb (at level 70, no associativity) : R_scope.
Infix "<=?" := Rleb (at level 70, no associativity) : R_scope.
Infix ">?" := Rgtb (at level 70, no associativity) : R_scope.
Infix "=?" := Reqb (at level 70, no associativity) : R_scope.

(** [Math.hypot] of two arguments. *)
Definition Math_hypot (a b : R) : R := sqrt (a * a + b * b).

(** [Math.atan2 y x], the angle of the point [(x, y)] in [(-PI, PI]]. *)
Definition Math_atan2 (y x : R) : R :=
  if 0 <? x then atan (y / x)
  else if x <? 0 then (if 0 <=? y then atan (y / x) + PI else atan (y / x) - PI)
  else if 0 <? y then PI / 2
  else if y <? 0 then - (PI / 2)
  else 0.

(** Truncation toward zero, and the remainder [a % b] built on it: the result
    has the sign of the dividend. *)
Definition Rtrunc (r : R) : Z :=
  if Rle_dec 0 r then Int_part r else (- Int_part (- r))%Z.

Definition js_rem (a b : R) : R := a - b * IZR (Rtrunc (a / b)).

(** ** Configuration, geometry and instance state *)

Module Options.
Record t : Type := mk {
  minScale : R;
  maxScale : R;
  initialScale : R;
  wheelZoomSpeed : R;
  boundsPadding : R;
  friction : R;
  maxSpeed : R;
  transition : bool;
  pinchSpeed : R;
  elastic : bool;
  elasticResistance : R;
  elasticBounce : R;
  minElasticDistance : R;
  enableRotation : bool
}.
End Options.

(** The caller-supplied partial options of the constructor. *)
Module PartialOptions.
Record t : Type := mk {
  minScale : option R;
  maxScale : option R;
  initialScale : option R;
  wheelZoomSpeed : option R;
  boundsPadding : option R;
  friction : option R;
  maxSpeed : option R;
  transition : option bool;
  pinchSpeed : option R;
  elastic : option bool;
  elasticResistance : option R;
  elasticBounce : option R;
  minElasticDistance : option R;
  enableRotation : option bool
}.
End PartialOptions.

Module DOMRect.
Record t : Type := mk { left : R; top : R; width : R; height : R }.
End DOMRect.

(** What the DOM answers during one call: the container's bounding rectangle,
    the content's layout size and the content's bounding rectangle. *)
Module Dom.
Record t : Type := mk {
  containerRect : DOMRect.t;
  offsetWidth : R;
  offsetHeight : R;
  contentRect : DOMRect.t
}.
End Dom.

Module Point.
Record t : Type := mk { x : R; y : R }.
End Point.

Module Bounds.
Record t : Type := mk { minX : R; maxX : R; minY : R; maxY : R }.
End Bounds.

Module ElementSizes.
Record t : Type := mk {
  containerWidth : R;
  containerHeight : R;
  boundsPadding : R;
  contentWidth : R;
  contentHeight : R;
  fitsHorizontally : bool;
  fitsVertically : bool;
  minX : R;
  maxX : R;
  minY : R;
  maxY : R
}.
End ElementSizes.

(** A callback waiting in the animation-frame scheduler: the kinetic tick of
    [core.ts], the self-scheduling kinetic tick of [animations.ts], or the
    [animate] closure of [animateElasticReturn] with the values it captured. *)
Inductive Callback : Type :=
| KineticTick
| KineticTickModule
| ElasticTick (startX startY targetX targetY startTime : R).

Module Instance.
Record t : Type := mk {
  options : Options.t;
  scale : R;
  x : R;
  y : R;
  rotation : R;
  velocityX : R;
  velocityY : R;
  velocityScale : R;
  elasticX : R;
  elasticY : R;
  isPanning : bool;
  didMove : bool;
  startClientX : R;
  startClientY : R;
  startX : R;
  startY : R;
  lastMoveTime : R;
  lastClientX : R;
  lastClientY : R;
  lastScale : R;
  DRAG_THRESHOLD : R;
  touchStartDistance : R;
  touchStartScale : R;
  touchStartAngle : R;
  initialRotation : R;
  isPinching : bool;
  touchIds : option nat * option nat;
  touchPoints : list (nat * (R * R));
  animationFrameId : option nat;
  isAnimatingElastic : bool;
  elasticAnimationId : option nat;
  lastTouchEndTime : R;
  lastTouchX : R;
  lastTouchY : R;
  DOUBLE_TAP_DELAY : R;
  DOUBLE_TAP_THRESHOLD : R;
  rafQueue : list (nat * Callback);
  rafNext : nat
}.

Definition set_options (v : Options.t) (i : t) : t :=
  mk v (i.(scale)) (i.(x)) (i.(y)) (i.(rotation)) (i.(velocityX))
     (i.(velocityY)) (i.(velocityScale)) (i.(elasticX)) (i.(elasticY))
     (i.(isPanning)) (i.(didMove)) (i.(startClientX)) (i.(startClientY))
     (i.(startX)) (i.(startY)) (i.(lastMoveTime)) (i.(lastClientX))
     (i.(lastClientY)) (i.(lastScale)) (i.(DRAG_THRESHOLD))
     (i.(touchStartDistance)) (i.(touchStartScale)) (i.(touchStartAngle))
     (i.(initialRotation)) (i.(isPinching)) (i.(touchIds)) (i.(touchPoints))
     (i.(animationFrameId)) (i.(isAnimatingElastic))
     (i.(elasticAnimationId)) (i.(lastTouchEndTime)) (i.(lastTouchX))
     (i.(lastTouchY)) (i.(DOUBLE_TAP_DELAY)) (i.(DOUBLE_TAP_THRESHOLD))
     (i.(rafQueue)) (i.(rafNext)).

Definition set_scale (v : R) (i : t) : t :=
  mk (i.(options)) v (i.(x)) (i.(y)) (i.(rotation)) (i.(velocityX))
     (i.(velocityY)) (i.(velocityScale)) (i.(elasticX)) (i.(elasticY))
     (i.(isPanning)) (i.(didMove)) (i.(startClientX)) (i.(startClientY))
     (i.(startX)) (i.(startY)) (i.(lastMoveTime)) (i.(lastClientX))
     (i.(lastClientY)) (i.(lastScale)) (i.(DRAG_THRESHOLD))
     (i.(touchStartDistance)) (i.(touchStartScale)) (i.(touchStartAngle))
     (i.(initialRotation)) (i.(isPinching)) (i.(touchIds)) (i.(touchPoints))
     (i.(animationFrameId)) (i.(isAnimatingElastic))
     (i.(elasticAnimationId)) (i.(lastTouchEndTime)) (i.(lastTouchX))
     (i.(lastTouchY)) (i.(DOUBLE_TAP_DELAY)) (i.(DOUBLE_TAP_THRESHOLD))
     (i.(rafQueue)) (i.(rafNext)).

Definition set_x (v : R) (i : t) : t :=
  mk (i.(options)) (i.(scale)) v (i.(y)) (i.(rotation)) (i.(velocityX))
     (i.(velocityY)) (i.(velocityScale)) (i.(elasticX)) (i.(elasticY))
     (i.(isPanning)) (i.(didMove)) (i.(startClientX)) (i.(startClientY))
     (i.(startX)) (i.(startY)) (i.(lastMoveTime)) (i.(lastClientX))
     (i.(lastClientY)) (i.(lastScale)) (i.(DRAG_THRESHOLD))
     (i.(touchStartDistance)) (i.(touchStartScale)) (i.(touchStartAngle))
     (i.(initialRotation)) (i.(isPinching)) (i.(touchIds)) (i.(touchPoints))
     (i.(animationFrameId)) (i.(isAnimatingElastic))
     (i.(elasticAnimationId)) (i.(lastTouchEndTime)) (i.(lastTouchX))
     (i.(lastTouchY)) (i.(DOUBLE_TAP_DELAY)) (i.(DOUBLE_TAP_THRESHOLD))
     (i.(rafQueue)) (i.(rafNext)).

Definition set_y (v : R) (i : t) : t :=
  mk (i.(options)) (i.(scale)) (i.(x)) v (i.(rotation)) (i.(velocityX))
     (i.(velocityY)) (i.(velocityScale)) (i.(elasticX)) (i.(elasticY))
     (i.(isPanning)) (i.(didMove)) (i.(startClientX)) (i.(startClientY))
     (i.(startX)) (i.(startY)) (i.(lastMoveTime)) (i.(lastClientX))
     (i.(lastClientY)) (i.(lastScale)) (i.(DRAG_THRESHOLD))
     (i.(touchStartDistance)) (i.(touchStartScale)) (i.(touchStartAngle))
     (i.(initialRotation)) (i.(isPinching)) (i.(touchIds)) (i.(touchPoints))
     (i.(animationFrameId)) (i.(isAnimatingElastic))
     (i.(elasticAnimationId)) (i.(lastTouchEndTime)) (i.(lastTouchX))
     (i.(lastTouchY)) (i.(DOUBLE_TAP_DELAY)) (i.(DOUBLE_TAP_THRESHOLD))
     (i.(rafQueue)) (i.(rafNext)).

Definition set_rotation (v : R) (i : t) : t :=
  mk (i.(options)) (i.(scale)) (i.(x)) (i.(y)) v (i.(velocityX))
     (i.(velocityY)) (i.(velocityScale)) (i.(elasticX)) (i.(elasticY))
     (i.(isPanning)) (i.(didMove)) (i.(startClientX)) (i.(startClientY))
     (i.(startX)) (i.(startY)) (i.(lastMoveTime)) (i.(lastClientX))
     (i.(lastClientY)) (i.(lastScale)) (i.(DRAG_THRESHOLD))
     (i.(touchStartDistance)) (i.(touchStartScale)) (i.(touchStartAngle))
     (i.(initialRotation)) (i.(isPinching)) (i.(touchIds)) (i.(touchPoints))
     (i.(animationFrameId)) (i.(isAnimatingElastic))
     (i.(elasticAnimationId)) (i.(lastTouchEndTime)) (i.(lastTouchX))
     (i.(lastTouchY)) (i.(DOUBLE_TAP_DELAY)) (i.(DOUBLE_TAP_THRESHOLD))
     (i.(rafQueue)) (i.(rafNext)).

Definition set_velocityX (v : R) (i : t) : t :=
  mk (i.(options)) (i.(scale)) (i.(x)) (i.(y)) (i.(rotation)) v
     (i.(velocityY)) (i.(velocityScale)) (i.(elasticX)) (i.(elasticY))
     (i.(isPanning)) (i.(didMove)) (i.(startClientX)) (i.(startClientY))
     (i.(startX)) (i.(startY)) (i.(lastMoveTime)) (i.(lastClientX))
     (i.(lastClientY)) (i.(lastScale)) (i.(DRAG_THRESHOLD))
     (i.(touchStartDistance)) (i.(touchStartScale)) (i.(touchStartAngle))
     (i.(initialRotation)) (i.(isPinching)) (i.(touchIds)) (i.(touchPoints))
     (i.(animationFrameId)) (i.(isAnimatingElastic))
     (i.(elasticAnimationId)) (i.(lastTouchEndTime)) (i.(lastTouchX))
     (i.(lastTouchY)) (i.(DOUBLE_TAP_DELAY)) (i.(DOUBLE_TAP_THRESHOLD))
     (i.(rafQueue)) (i.(rafNext)).

Definition set_velocityY (v : R) (i : t) : t :=
  mk (i.(options)) (i.(scale)) (i.(x)) (i.(y)) (i.(rotation))
     (i.(velocityX)) v (i.(velocityScale)) (i.(elasticX)) (i.(elasticY))
     (i.(isPanning)) (i.(didMove)) (i.(startClientX)) (i.(startClientY))
     (i.(startX)) (i.(startY)) (i.(lastMoveTime)) (i.(lastClientX))
     (i.(lastClientY)) (i.(lastScale)) (i.(DRAG_THRESHOLD))
     (i.(touchStartDistance)) (i.(touchStartScale)) (i.(touchStartAngle))
     (i.(initialRotation)) (i.(isPinching)) (i.(touchIds)) (i.(touchPoints))
     (i.(animationFrameId)) (i.(isAnimatingElastic))
     (i.(elasticAnimationId)) (i.(lastTouchEndTime)) (i.(lastTouchX))
     (i.(lastTouchY)) (i.(DOUBLE_TAP_DELAY)) (i.(DOUBLE_TAP_THRESHOLD))
     (i.(rafQueue)) (i.(rafNext)).

Definition set_velocityScale (v : R) (i : t) : t :=
  mk (i.(options)) (i.(scale)) (i.(x)) (i.(y)) (i.(rotation))
     (i.(velocityX)) (i.(velocityY)) v (i.(elasticX)) (i.(elasticY))
     (i.(isPanning)) (i.(didMove)) (i.(startClientX)) (i.(startClientY))
     (i.(startX)) (i.(startY)) (i.(lastMoveTime)) (i.(lastClientX))
     (i.(lastClientY)) (i.(lastScale)) (i.(DRAG_THRESHOLD))
     (i.(touchStartDistance)) (i.(touchStartScale)) (i.(touchStartAngle))
     (i.(initialRotation)) (i.(isPinching)) (i.(touchIds)) (i.(touchPoints))
     (i.(animationFrameId)) (i.(isAnimatingElastic))
     (i.(elasticAnimationId)) (i.(lastTouchEndTime)) (i.(lastTouchX))
     (i.(lastTouchY)) (i.(DOUBLE_TAP_DELAY)) (i.(DOUBLE_TAP_THRESHOLD))
     (i.(rafQueue)) (i.(rafNext)).

Definition set_elasticX (v : R) (i : t) : t :=
  mk (i.(options)) (i.(scale)) (i.(x)) (i.(y)) (i.(rotation))
     (i.(velocityX)) (i.(velocityY)) (i.(velocityScale)) v (i.(elasticY))
     (i.(isPanning)) (i.(didMove)) (i.(startClientX)) (i.(startClientY))
     (i.(startX)) (i.(startY)) (i.(lastMoveTime)) (i.(lastClientX))
     (i.(lastClientY)) (i.(lastScale)) (i.(DRAG_THRESHOLD))
     (i.(touchStartDistance)) (i.(touchStartScale)) (i.(touchStartAngle))
     (i.(initialRotation)) (i.(isPinching)) (i.(touchIds)) (i.(touchPoints))
     (i.(animationFrameId)) (i.(isAnimatingElastic))
     (i.(elasticAnimationId)) (i.(lastTouchEndTime)) (i.(lastTouchX))
     (i.(lastTouchY)) (i.(DOUBLE_TAP_DELAY)) (i.(DOUBLE_TAP_THRESHOLD))
     (i.(rafQueue)) (i.(rafNext)).

Definition set_elasticY (v : R) (i : t) : t :=
  mk (i.(options)) (i.(scale)) (i.(x)) (i.(y)) (i.(rotation))
     (i.(velocityX)) (i.(velocityY)) (i.(velocityScale)) (i.(elasticX)) v
     (i.(isPanning)) (i.(didMove)) (i.(startClientX)) (i.(startClientY))
     (i.(startX)) (i.(startY)) (i.(lastMoveTime)) (i.(lastClientX))
     (i.(lastClientY)) (i.(lastScale)) (i.(DRAG_THRESHOLD))
     (i.(touchStartDistance)) (i.(touchStartScale)) (i.(touchStartAngle))
     (i.(initialRotation)) (i.(isPinching)) (i.(touchIds)) (i.(touchPoints))
     (i.(animationFrameId)) (i.(isAnimatingElastic))
     (i.(elasticAnimationId)) (i.(lastTouchEndTime)) (i.(lastTouchX))
     (i.(lastTouchY)) (i.(DOUBLE_TAP_DELAY)) (i.(DOUBLE_TAP_THRESHOLD))
     (i.(rafQueue)) (i.(rafNext)).

Definition set_isPanning (v : bool) (i : t) : t :=
  mk (i.(options)) (i.(scale)) (i.(x)) (i.(y)) (i.(rotation))
     (i.(velocityX)) (i.(velocityY)) (i.(velocityScale)) (i.(elasticX))
     (i.(elasticY)) v (i.(didMove)) (i.(startClientX)) (i.(startClientY))
     (i.(startX)) (i.(startY)) (i.(lastMoveTime)) (i.(lastClientX))
     (i.(lastClientY)) (i.(lastScale)) (i.(DRAG_THRESHOLD))
     (i.(touchStartDistance)) (i.(touchStartScale)) (i.(touchStartAngle))
     (i.(initialRotation)) (i.(isPinching)) (i.(touchIds)) (i.(touchPoints))
     (i.(animationFrameId)) (i.(isAnimatingElastic))
     (i.(elasticAnimationId)) (i.(lastTouchEndTime)) (i.(lastTouchX))
     (i.(lastTouchY)) (i.(DOUBLE_TAP_DELAY)) (i.(DOUBLE_TAP_THRESHOLD))
     (i.(rafQueue)) (i.(rafNext)).

Definition set_didMove (v : bool) (i : t) : t :=
  mk (i.(options)) (i.(scale)) (i.(x)) (i.(y)) (i.(rotation))
     (i.(velocityX)) (i.(velocityY)) (i.(velocityScale)) (i.(elasticX))
     (i.(elasticY)) (i.(isPanning)) v (i.(startClientX)) (i.(startClientY))
     (i.(startX)) (i.(startY)) (i.(lastMoveTime)) (i.(lastClientX))
     (i.(lastClientY)) (i.(lastScale)) (i.(DRAG_THRESHOLD))
     (i.(touchStartDistance)) (i.(touchStartScale)) (i.(touchStartAngle))
     (i.(initialRotation)) (i.(isPinching)) (i.(touchIds)) (i.(touchPoints))
     (i.(animationFrameId)) (i.(isAnimatingElastic))
     (i.(elasticAnimationId)) (i.(lastTouchEndTime)) (i.(lastTouchX))
     (i.(lastTouchY)) (i.(DOUBLE_TAP_DELAY)) (i.(DOUBLE_TAP_THRESHOLD))
     (i.(rafQueue)) (i.(rafNext)).

Definition set_startClientX (v : R) (i : t) : t :=
  mk (i.(options)) (i.(scale)) (i.(x)) (i.(y)) (i.(rotation))
     (i.(velocityX)) (i.(velocityY)) (i.(velocityScale)) (i.(elasticX))
     (i.(elasticY)) (i.(isPanning)) (i.(didMove)) v (i.(startClientY))
     (i.(startX)) (i.(startY)) (i.(lastMoveTime)) (i.(lastClientX))
     (i.(lastClientY)) (i.(lastScale)) (i.(DRAG_THRESHOLD))
     (i.(touchStartDistance)) (i.(touchStartScale)) (i.(touchStartAngle))
     (i.(initialRotation)) (i.(isPinching)) (i.(touchIds)) (i.(touchPoints))
     (i.(animationFrameId)) (i.(isAnimatingElastic))
     (i.(elasticAnimationId)) (i.(lastTouchEndTime)) (i.(lastTouchX))
     (i.(lastTouchY)) (i.(DOUBLE_TAP_DELAY)) (i.(DOUBLE_TAP_THRESHOLD))
     (i.(rafQueue)) (i.(rafNext)).

Definition set_startClientY (v : R) (i : t) : t :=
  mk (i.(options)) (i.(scale)) (i.(x)) (i.(y)) (i.(rotation))
     (i.(velocityX)) (i.(velocityY)) (i.(velocityScale)) (i.(elasticX))
     (i.(elasticY)) (i.(isPanning)) (i.(didMove)) (i.(startClientX)) v
     (i.(startX)) (i.(startY)) (i.(lastMoveTime)) (i.(lastClientX))
     (i.(lastClientY)) (i.(lastScale)) (i.(DRAG_THRESHOLD))
     (i.(touchStartDistance)) (i.(touchStartScale)) (i.(touchStartAngle))
     (i.(initialRotation)) (i.(isPinching)) (i.(touchIds)) (i.(touchPoints))
     (i.(animationFrameId)) (i.(isAnimatingElastic))
     (i.(elasticAnimationId)) (i.(lastTouchEndTime)) (i.(lastTouchX))
     (i.(lastTouchY)) (i.(DOUBLE_TAP_DELAY)) (i.(DOUBLE_TAP_THRESHOLD))
     (i.(rafQueue)) (i.(rafNext)).

Definition set_startX (v : R) (i : t) : t :=
  mk (i.(options)) (i.(scale)) (i.(x)) (i.(y)) (i.(rotation))
     (i.(velocityX)) (i.(velocityY)) (i.(velocityScale)) (i.(elasticX))
     (i.(elasticY)) (i.(isPanning)) (i.(didMove)) (i.(startClientX))
     (i.(startClientY)) v (i.(startY)) (i.(lastMoveTime)) (i.(lastClientX))
     (i.(lastClientY)) (i.(lastScale)) (i.(DRAG_THRESHOLD))
     (i.(touchStartDistance)) (i.(touchStartScale)) (i.(touchStartAngle))
     (i.(initialRotation)) (i.(isPinching)) (i.(touchIds)) (i.(touchPoints))
     (i.(animationFrameId)) (i.(isAnimatingElastic))
     (i.(elasticAnimationId)) (i.(lastTouchEndTime)) (i.(lastTouchX))
     (i.(lastTouchY)) (i.(DOUBLE_TAP_DELAY)) (i.(DOUBLE_TAP_THRESHOLD))
     (i.(rafQueue)) (i.(rafNext)).

Definition set_startY (v : R) (i : t) : t :=
  mk (i.(options)) (i.(scale)) (i.(x)) (i.(y)) (i.(rotation))
     (i.(velocityX)) (i.(velocityY)) (i.(velocityScale)) (i.(elasticX))
     (i.(elasticY)) (i.(isPanning)) (i.(didMove)) (i.(startClientX))
     (i.(startClientY)) (i.(startX)) v (i.(lastMoveTime)) (i.(lastClientX))
     (i.(lastClientY)) (i.(lastScale)) (i.(DRAG_THRESHOLD))
     (i.(touchStartDistance)) (i.(touchStartScale)) (i.(touchStartAngle))
     (i.(initialRotation)) (i.(isPinching)) (i.(touchIds)) (i.(touchPoints))
     (i.(animationFrameId)) (i.(isAnimatingElastic))
     (i.(elasticAnimationId)) (i.(lastTouchEndTime)) (i.(lastTouchX))
     (i.(lastTouchY)) (i.(DOUBLE_TAP_DELAY)) (i.(DOUBLE_TAP_THRESHOLD))
     (i.(rafQueue)) (i.(rafNext)).

Definition set_lastMoveTime (v : R) (i : t) : t :=
  mk (i.(options)) (i.(scale)) (i.(x)) (i.(y)) (i.(rotation))
     (i.(velocityX)) (i.(velocityY)) (i.(velocityScale)) (i.(elasticX))
     (i.(elasticY)) (i.(isPanning)) (i.(didMove)) (i.(startClientX))
     (i.(startClientY)) (i.(startX)) (i.(startY)) v (i.(lastClientX))
     (i.(lastClientY)) (i.(lastScale)) (i.(DRAG_THRESHOLD))
     (i.(touchStartDistance)) (i.(touchStartScale)) (i.(touchStartAngle))
     (i.(initialRotation)) (i.(isPinching)) (i.(touchIds)) (i.(touchPoints))
     (i.(animationFrameId)) (i.(isAnimatingElastic))
     (i.(elasticAnimationId)) (i.(lastTouchEndTime)) (i.(lastTouchX))
     (i.(lastTouchY)) (i.(DOUBLE_TAP_DELAY)) (i.(DOUBLE_TAP_THRESHOLD))
     (i.(rafQueue)) (i.(rafNext)).

Definition set_lastClientX (v : R) (i : t) : t :=
  mk (i.(options)) (i.(scale)) (i.(x)) (i.(y)) (i.(rotation))
     (i.(velocityX)) (i.(velocityY)) (i.(velocityScale)) (i.(elasticX))
     (i.(elasticY)) (i.(isPanning)) (i.(didMove)) (i.(startClientX))
     (i.(startClientY)) (i.(startX)) (i.(startY)) (i.(lastMoveTime)) v
     (i.(lastClientY)) (i.(lastScale)) (i.(DRAG_THRESHOLD))
     (i.(touchStartDistance)) (i.(touchStartScale)) (i.(touchStartAngle))
     (i.(initialRotation)) (i.(isPinching)) (i.(touchIds)) (i.(touchPoints))
     (i.(animationFrameId)) (i.(isAnimatingElastic))
     (i.(elasticAnimationId)) (i.(lastTouchEndTime)) (i.(lastTouchX))
     (i.(lastTouchY)) (i.(DOUBLE_TAP_DELAY)) (i.(DOUBLE_TAP_THRESHOLD))
     (i.(rafQueue)) (i.(rafNext)).

Definition set_lastClientY (v : R) (i : t) : t :=
  mk (i.(options)) (i.(scale)) (i.(x)) (i.(y)) (i.(rotation))
     (i.(velocityX)) (i.(velocityY)) (i.(velocityScale)) (i.(elasticX))
     (i.(elasticY)) (i.(isPanning)) (i.(didMove)) (i.(startClientX))
     (i.(startClientY)) (i.(startX)) (i.(startY)) (i.(lastMoveTime))
     (i.(lastClientX)) v (i.(lastScale)) (i.(DRAG_THRESHOLD))
     (i.(touchStartDistance)) (i.(touchStartScale)) (i.(touchStartAngle))
     (i.(initialRotation)) (i.(isPinching)) (i.(touchIds)) (i.(touchPoints))
     (i.(animationFrameId)) (i.(isAnimatingElastic))
     (i.(elasticAnimationId)) (i.(lastTouchEndTime)) (i.(lastTouchX))
     (i.(lastTouchY)) (i.(DOUBLE_TAP_DELAY)) (i.(DOUBLE_TAP_THRESHOLD))
     (i.(rafQueue)) (i.(rafNext)).

Definition set_lastScale (v : R) (i : t) : t :=
  mk (i.(options)) (i.(scale)) (i.(x)) (i.(y)) (i.(rotation))
     (i.(velocityX)) (i.(velocityY)) (i.(velocityScale)) (i.(elasticX))
     (i.(elasticY)) (i.(isPanning)) (i.(didMove)) (i.(startClientX))
     (i.(startClientY)) (i.(startX)) (i.(startY)) (i.(lastMoveTime))
     (i.(lastClientX)) (i.(lastClientY)) v (i.(DRAG_THRESHOLD))
     (i.(touchStartDistance)) (i.(touchStartScale)) (i.(touchStartAngle))
     (i.(initialRotation)) (i.(isPinching)) (i.(touchIds)) (i.(touchPoints))
     (i.(animationFrameId)) (i.(isAnimatingElastic))
     (i.(elasticAnimationId)) (i.(lastTouchEndTime)) (i.(lastTouchX))
     (i.(lastTouchY)) (i.(DOUBLE_TAP_DELAY)) (i.(DOUBLE_TAP_THRESHOLD))
     (i.(rafQueue)) (i.(rafNext)).

Definition set_touchStartDistance (v : R) (i : t) : t :=
  mk (i.(options)) (i.(scale)) (i.(x)) (i.(y)) (i.(rotation))
     (i.(velocityX)) (i.(velocityY)) (i.(velocityScale)) (i.(elasticX))
     (i.(elasticY)) (i.(isPanning)) (i.(didMove)) (i.(startClientX))
     (i.(startClientY)) (i.(startX)) (i.(startY)) (i.(lastMoveTime))
     (i.(lastClientX)) (i.(lastClientY)) (i.(lastScale))
     (i.(DRAG_THRESHOLD)) v (i.(touchStartScale)) (i.(touchStartAngle))
     (i.(initialRotation)) (i.(isPinching)) (i.(touchIds)) (i.(touchPoints))
     (i.(animationFrameId)) (i.(isAnimatingElastic))
     (i.(elasticAnimationId)) (i.(lastTouchEndTime)) (i.(lastTouchX))
     (i.(lastTouchY)) (i.(DOUBLE_TAP_DELAY)) (i.(DOUBLE_TAP_THRESHOLD))
     (i.(rafQueue)) (i.(rafNext)).

Definition set_touchStartScale (v : R) (i : t) : t :=
  mk (i.(options)) (i.(scale)) (i.(x)) (i.(y)) (i.(rotation))
     (i.(velocityX)) (i.(velocityY)) (i.(velocityScale)) (i.(elasticX))
     (i.(elasticY)) (i.(isPanning)) (i.(didMove)) (i.(startClientX))
     (i.(startClientY)) (i.(startX)) (i.(startY)) (i.(lastMoveTime))
     (i.(lastClientX)) (i.(lastClientY)) (i.(lastScale))
     (i.(DRAG_THRESHOLD)) (i.(touchStartDistance)) v (i.(touchStartAngle))
     (i.(initialRotation)) (i.(isPinching)) (i.(touchIds)) (i.(touchPoints))
     (i.(animationFrameId)) (i.(isAnimatingElastic))
     (i.(elasticAnimationId)) (i.(lastTouchEndTime)) (i.(lastTouchX))
     (i.(lastTouchY)) (i.(DOUBLE_TAP_DELAY)) (i.(DOUBLE_TAP_THRESHOLD))
     (i.(rafQueue)) (i.(rafNext)).

Definition set_touchStartAngle (v : R) (i : t) : t :=
  mk (i.(options)) (i.(scale)) (i.(x)) (i.(y)) (i.(rotation))
     (i.(velocityX)) (i.(velocityY)) (i.(velocityScale)) (i.(elasticX))
     (i.(elasticY)) (i.(isPanning)) (i.(didMove)) (i.(startClientX))
     (i.(startClientY)) (i.(startX)) (i.(startY)) (i.(lastMoveTime))
     (i.(lastClientX)) (i.(lastClientY)) (i.(lastScale))
     (i.(DRAG_THRESHOLD)) (i.(touchStartDistance)) (i.(touchStartScale)) v
     (i.(initialRotation)) (i.(isPinching)) (i.(touchIds)) (i.(touchPoints))
     (i.(animationFrameId)) (i.(isAnimatingElastic))
     (i.(elasticAnimationId)) (i.(lastTouchEndTime)) (i.(lastTouchX))
     (i.(lastTouchY)) (i.(DOUBLE_TAP_DELAY)) (i.(DOUBLE_TAP_THRESHOLD))
     (i.(rafQueue)) (i.(rafNext)).

Definition set_initialRotation (v : R) (i : t) : t :=
  mk (i.(options)) (i.(scale)) (i.(x)) (i.(y)) (i.(rotation))
     (i.(velocityX)) (i.(velocityY)) (i.(velocityScale)) (i.(elasticX))
     (i.(elasticY)) (i.(isPanning)) (i.(didMove)) (i.(startClientX))
     (i.(startClientY)) (i.(startX)) (i.(startY)) (i.(lastMoveTime))
     (i.(lastClientX)) (i.(lastClientY)) (i.(lastScale))
     (i.(DRAG_THRESHOLD)) (i.(touchStartDistance)) (i.(touchStartScale))
     (i.(touchStartAngle)) v (i.(isPinching)) (i.(touchIds))
     (i.(touchPoints)) (i.(animationFrameId)) (i.(isAnimatingElastic))
     (i.(elasticAnimationId)) (i.(lastTouchEndTime)) (i.(lastTouchX))
     (i.(lastTouchY)) (i.(DOUBLE_TAP_DELAY)) (i.(DOUBLE_TAP_THRESHOLD))
     (i.(rafQueue)) (i.(rafNext)).

Definition set_isPinching (v : bool) (i : t) : t :=
  mk (i.(options)) (i.(scale)) (i.(x)) (i.(y)) (i.(rotation))
     (i.(velocityX)) (i.(velocityY)) (i.(velocityScale)) (i.(elasticX))
     (i.(elasticY)) (i.(isPanning)) (i.(didMove)) (i.(startClientX))
     (i.(startClientY)) (i.(startX)) (i.(startY)) (i.(lastMoveTime))
     (i.(lastClientX)) (i.(lastClientY)) (i.(lastScale))
     (i.(DRAG_THRESHOLD)) (i.(touchStartDistance)) (i.(touchStartScale))
     (i.(touchStartAngle)) (i.(initialRotation)) v (i.(touchIds))
     (i.(touchPoints)) (i.(animationFrameId)) (i.(isAnimatingElastic))
     (i.(elasticAnimationId)) (i.(lastTouchEndTime)) (i.(lastTouchX))
     (i.(lastTouchY)) (i.(DOUBLE_TAP_DELAY)) (i.(DOUBLE_TAP_THRESHOLD))
     (i.(rafQueue)) (i.(rafNext)).

Definition set_touchIds (v : option nat * option nat) (i : t) : t :=
  mk (i.(options)) (i.(scale)) (i.(x)) (i.(y)) (i.(rotation))
     (i.(velocityX)) (i.(velocityY)) (i.(velocityScale)) (i.(elasticX))
     (i.(elasticY)) (i.(isPanning)) (i.(didMove)) (i.(startClientX))
     (i.(startClientY)) (i.(startX)) (i.(startY)) (i.(lastMoveTime))
     (i.(lastClientX)) (i.(lastClientY)) (i.(lastScale))
     (i.(DRAG_THRESHOLD)) (i.(touchStartDistance)) (i.(touchStartScale))
     (i.(touchStartAngle)) (i.(initialRotation)) (i.(isPinching)) v
     (i.(touchPoints)) (i.(animationFrameId)) (i.(isAnimatingElastic))
     (i.(elasticAnimationId)) (i.(lastTouchEndTime)) (i.(lastTouchX))
     (i.(lastTouchY)) (i.(DOUBLE_TAP_DELAY)) (i.(DOUBLE_TAP_THRESHOLD))
     (i.(rafQueue)) (i.(rafNext)).

Definition set_touchPoints (v : list (nat * (R * R))) (i : t) : t :=
  mk (i.(options)) (i.(scale)) (i.(x)) (i.(y)) (i.(rotation))
     (i.(velocityX)) (i.(velocityY)) (i.(velocityScale)) (i.(elasticX))
     (i.(elasticY)) (i.(isPanning)) (i.(didMove)) (i.(startClientX))
     (i.(startClientY)) (i.(startX)) (i.(startY)) (i.(lastMoveTime))
     (i.(lastClientX)) (i.(lastClientY)) (i.(lastScale))
     (i.(DRAG_THRESHOLD)) (i.(touchStartDistance)) (i.(touchStartScale))
     (i.(touchStartAngle)) (i.(initialRotation)) (i.(isPinching))
     (i.(touchIds)) v (i.(animationFrameId)) (i.(isAnimatingElastic))
     (i.(elasticAnimationId)) (i.(lastTouchEndTime)) (i.(lastTouchX))
     (i.(lastTouchY)) (i.(DOUBLE_TAP_DELAY)) (i.(DOUBLE_TAP_THRESHOLD))
     (i.(rafQueue)) (i.(rafNext)).

Definition set_animationFrameId (v : option nat) (i : t) : t :=
  mk (i.(options)) (i.(scale)) (i.(x)) (i.(y)) (i.(rotation))
     (i.(velocityX)) (i.(velocityY)) (i.(velocityScale)) (i.(elasticX))
     (i.(elasticY)) (i.(isPanning)) (i.(didMove)) (i.(startClientX))
     (i.(startClientY)) (i.(startX)) (i.(startY)) (i.(lastMoveTime))
     (i.(lastClientX)) (i.(lastClientY)) (i.(lastScale))
     (i.(DRAG_THRESHOLD)) (i.(touchStartDistance)) (i.(touchStartScale))
     (i.(touchStartAngle)) (i.(initialRotation)) (i.(isPinching))
     (i.(touchIds)) (i.(touchPoints)) v (i.(isAnimatingElastic))
     (i.(elasticAnimationId)) (i.(lastTouchEndTime)) (i.(lastTouchX))
     (i.(lastTouchY)) (i.(DOUBLE_TAP_DELAY)) (i.(DOUBLE_TAP_THRESHOLD))
     (i.(rafQueue)) (i.(rafNext)).

Definition set_isAnimatingElastic (v : bool) (i : t) : t :=
  mk (i.(options)) (i.(scale)) (i.(x)) (i.(y)) (i.(rotation))
     (i.(velocityX)) (i.(velocityY)) (i.(velocityScale)) (i.(elasticX))
     (i.(elasticY)) (i.(isPanning)) (i.(didMove)) (i.(startClientX))
     (i.(startClientY)) (i.(startX)) (i.(startY)) (i.(lastMoveTime))
     (i.(lastClientX)) (i.(lastClientY)) (i.(lastScale))
     (i.(DRAG_THRESHOLD)) (i.(touchStartDistance)) (i.(touchStartScale))
     (i.(touchStartAngle)) (i.(initialRotation)) (i.(isPinching))
     (i.(touchIds)) (i.(touchPoints)) (i.(animationFrameId)) v
     (i.(elasticAnimationId)) (i.(lastTouchEndTime)) (i.(lastTouchX))
     (i.(lastTouchY)) (i.(DOUBLE_TAP_DELAY)) (i.(DOUBLE_TAP_THRESHOLD))
     (i.(rafQueue)) (i.(rafNext)).

Definition set_elasticAnimationId (v : option nat) (i : t) : t :=
  mk (i.(options)) (i.(scale)) (i.(x)) (i.(y)) (i.(rotation))
     (i.(velocityX)) (i.(velocityY)) (i.(velocityScale)) (i.(elasticX))
     (i.(elasticY)) (i.(isPanning)) (i.(didMove)) (i.(startClientX))
     (i.(startClientY)) (i.(startX)) (i.(startY)) (i.(lastMoveTime))
     (i.(lastClientX)) (i.(lastClientY)) (i.(lastScale))
     (i.(DRAG_THRESHOLD)) (i.(touchStartDistance)) (i.(touchStartScale))
     (i.(touchStartAngle)) (i.(initialRotation)) (i.(isPinching))
     (i.(touchIds)) (i.(touchPoints)) (i.(animationFrameId))
     (i.(isAnimatingElastic)) v (i.(lastTouchEndTime)) (i.(lastTouchX))
     (i.(lastTouchY)) (i.(DOUBLE_TAP_DELAY)) (i.(DOUBLE_TAP_THRESHOLD))
     (i.(rafQueue)) (i.(rafNext)).

Definition set_lastTouchEndTime (v : R) (i : t) : t :=
  mk (i.(options)) (i.(scale)) (i.(x)) (i.(y)) (i.(rotation))
     (i.(velocityX)) (i.(velocityY)) (i.(velocityScale)) (i.(elasticX))
     (i.(elasticY)) (i.(isPanning)) (i.(didMove)) (i.(startClientX))
     (i.(startClientY)) (i.(startX)) (i.(startY)) (i.(lastMoveTime))
     (i.(lastClientX)) (i.(lastClientY)) (i.(lastScale))
     (i.(DRAG_THRESHOLD)) (i.(touchStartDistance)) (i.(touchStartScale))
     (i.(touchStartAngle)) (i.(initialRotation)) (i.(isPinching))
     (i.(touchIds)) (i.(touchPoints)) (i.(animationFrameId))
     (i.(isAnimatingElastic)) (i.(elasticAnimationId)) v (i.(lastTouchX))
     (i.(lastTouchY)) (i.(DOUBLE_TAP_DELAY)) (i.(DOUBLE_TAP_THRESHOLD))
     (i.(rafQueue)) (i.(rafNext)).

Definition set_lastTouchX (v : R) (i : t) : t :=
  mk (i.(options)) (i.(scale)) (i.(x)) (i.(y)) (i.(rotation))
     (i.(velocityX)) (i.(velocityY)) (i.(velocityScale)) (i.(elasticX))
     (i.(elasticY)) (i.(isPanning)) (i.(didMove)) (i.(startClientX))
     (i.(startClientY)) (i.(startX)) (i.(startY)) (i.(lastMoveTime))
     (i.(lastClientX)) (i.(lastClientY)) (i.(lastScale))
     (i.(DRAG_THRESHOLD)) (i.(touchStartDistance)) (i.(touchStartScale))
     (i.(touchStartAngle)) (i.(initialRotation)) (i.(isPinching))
     (i.(touchIds)) (i.(touchPoints)) (i.(animationFrameId))
     (i.(isAnimatingElastic)) (i.(elasticAnimationId))
     (i.(lastTouchEndTime)) v (i.(lastTouchY)) (i.(DOUBLE_TAP_DELAY))
     (i.(DOUBLE_TAP_THRESHOLD)) (i.(rafQueue)) (i.(rafNext)).

Definition set_lastTouchY (v : R) (i : t) : t :=
  mk (i.(options)) (i.(scale)) (i.(x)) (i.(y)) (i.(rotation))
     (i.(velocityX)) (i.(velocityY)) (i.(velocityScale)) (i.(elasticX))
     (i.(elasticY)) (i.(isPanning)) (i.(didMove)) (i.(startClientX))
     (i.(startClientY)) (i.(startX)) (i.(startY)) (i.(lastMoveTime))
     (i.(lastClientX)) (i.(lastClientY)) (i.(lastScale))
     (i.(DRAG_THRESHOLD)) (i.(touchStartDistance)) (i.(touchStartScale))
     (i.(touchStartAngle)) (i.(initialRotation)) (i.(isPinching))
     (i.(touchIds)) (i.(touchPoints)) (i.(animationFrameId))
     (i.(isAnimatingElastic)) (i.(elasticAnimationId))
     (i.(lastTouchEndTime)) (i.(lastTouchX)) v (i.(DOUBLE_TAP_DELAY))
     (i.(DOUBLE_TAP_THRESHOLD)) (i.(rafQueue)) (i.(rafNext)).

Definition set_rafQueue (v : list (nat * Callback)) (i : t) : t :=
  mk (i.(options)) (i.(scale)) (i.(x)) (i.(y)) (i.(rotation))
     (i.(velocityX)) (i.(velocityY)) (i.(velocityScale)) (i.(elasticX))
     (i.(elasticY)) (i.(isPanning)) (i.(didMove)) (i.(startClientX))
     (i.(startClientY)) (i.(startX)) (i.(startY)) (i.(lastMoveTime))
     (i.(lastClientX)) (i.(lastClientY)) (i.(lastScale))
     (i.(DRAG_THRESHOLD)) (i.(touchStartDistance)) (i.(touchStartScale))
     (i.(touchStartAngle)) (i.(initialRotation)) (i.(isPinching))
     (i.(touchIds)) (i.(touchPoints)) (i.(animationFrameId))
     (i.(isAnimatingElastic)) (i.(elasticAnimationId))
     (i.(lastTouchEndTime)) (i.(lastTouchX)) (i.(lastTouchY))
     (i.(DOUBLE_TAP_DELAY)) (i.(DOUBLE_TAP_THRESHOLD)) v (i.(rafNext)).

Definition set_rafNext (v : nat) (i : t) : t :=
  mk (i.(options)) (i.(scale)) (i.(x)) (i.(y)) (i.(rotation))
     (i.(velocityX)) (i.(velocityY)) (i.(velocityScale)) (i.(elasticX))
     (i.(elasticY)) (i.(isPanning)) (i.(didMove)) (i.(startClientX))
     (i.(startClientY)) (i.(startX)) (i.(startY)) (i.(lastMoveTime))
     (i.(lastClientX)) (i.(lastClientY)) (i.(lastScale))
     (i.(DRAG_THRESHOLD)) (i.(touchStartDistance)) (i.(touchStartScale))
     (i.(touchStartAngle)) (i.(initialRotation)) (i.(isPinching))
     (i.(touchIds)) (i.(touchPoints)) (i.(animationFrameId))
     (i.(isAnimatingElastic)) (i.(elasticAnimationId))
     (i.(lastTouchEndTime)) (i.(lastTouchX)) (i.(lastTouchY))
     (i.(DOUBLE_TAP_DELAY)) (i.(DOUBLE_TAP_THRESHOLD)) (i.(rafQueue)) v.

End Instance.

Import Instance(options, scale, rotation, velocityX, velocityY, velocityScale,
  elasticX, elasticY).

(** ** utils.ts *)

(** Calculate the sizes of container and content and the hard bounds. *)
Definition getSizes (dom : Dom.t) (instance : Instance.t) : ElementSizes.t :=
  let contRect := Dom.containerRect dom in
  let contW := DOMRect.width contRect in
  let contH := DOMRect.height contRect in
  let pad := Math_min contW contH * Options.boundsPadding (options instance) in
  let rawW := Dom.offsetWidth dom in
  let rawH := Dom.offsetHeight dom in
  let rad := rotation instance * Math_PI / 180 in
  let cos := Math_abs (Math_cos rad) in
  let sin := Math_abs (Math_sin rad) in
  let rotatedW := rawW * scale instance * cos + rawH * scale instance * sin in
  let rotatedH := rawW * scale instance * sin + rawH * scale instance * cos in
  let fitsHorizontally := rotatedW <=? contW in
  let fitsVertically := rotatedH <=? contH in
  let '(minX, maxX) :=
    if fitsHorizontally then (0, 0)
    else
      let halfContW := contW / 2 in
      let halfRotatedW := rotatedW / 2 in
      (- (halfRotatedW - halfContW) - pad, halfRotatedW - halfContW + pad) in
  let '(minY, maxY) :=
    if fitsVertically then (0, 0)
    else
      let halfContH := contH / 2 in
      let halfRotatedH := rotatedH / 2 in
      (- (halfRotatedH - halfContH) - pad, halfRotatedH - halfContH + pad) in
  ElementSizes.mk contW contH pad rotatedW rotatedH
    fitsHorizontally fitsVertically minX maxX minY maxY.

(** Elastic offset for an overshoot beyond a hard bound. *)
Definition calculateElasticOffset (instance : Instance.t) (overshoot : R) : R :=
  if overshoot <? Options.minElasticDistance (options instance) then
    overshoot * Options.elasticResistance (options instance)
  else
    let normalized := overshoot / 100 in
    overshoot * Options.elasticResistance (options instance)
      * (1 - Math_exp (- normalized)).

(** Boundaries with optional elastic effect.  The elastic branch writes
    [elasticX] and [elasticY], so the instance is returned with the bounds. *)
Definition calculateBoundaries (dom : Dom.t) (instance : Instance.t)
    (useElastic : bool) : Bounds.t * Instance.t :=
  let sizes := getSizes dom instance in
  if negb useElastic || negb (Options.elastic (options instance)) then
    (Bounds.mk (ElementSizes.minX sizes) (ElementSizes.maxX sizes)
       (ElementSizes.minY sizes) (ElementSizes.maxY sizes), instance)
  else
    let minX := ElementSizes.minX sizes in
    let maxX := ElementSizes.maxX sizes in
    let minY := ElementSizes.minY sizes in
    let maxY := ElementSizes.maxY sizes in
    if ElementSizes.fitsHorizontally sizes && ElementSizes.fitsVertically sizes
    then (Bounds.mk minX maxX minY maxY, instance)
    else
      let currentX := Instance.x instance + elasticX instance in
      let currentY := Instance.y instance + elasticY instance in
      let instance :=
        if negb (ElementSizes.fitsHorizontally sizes) then
          if currentX <? minX then
            let overshoot := minX - currentX in
            Instance.set_elasticX (- calculateElasticOffset instance overshoot)
              instance
          else if currentX >? maxX then
            let overshoot := currentX - maxX in
            Instance.set_elasticX (calculateElasticOffset instance overshoot)
              instance
          else
            Instance.set_elasticX
              (elasticX instance * Options.elasticResistance (options instance))
              instance
        else instance in
      let instance :=
        if negb (ElementSizes.fitsVertically sizes) then
          if currentY <? minY then
            let overshoot := minY - currentY in
            Instance.set_elasticY (- calculateElasticOffset instance overshoot)
              instance
          else if currentY >? maxY then
            let overshoot := currentY - maxY in
            Instance.set_elasticY (calculateElasticOffset instance overshoot)
              instance
          else
            Instance.set_elasticY
              (elasticY instance * Options.elasticResistance (options instance))
              instance
        else instance in
      (Bounds.mk (minX - elasticX instance) (maxX - elasticX instance)
         (minY - elasticY instance) (maxY - elasticY instance), instance).

Definition clampPosition (dom : Dom.t) (instance : Instance.t)
    (nextX nextY : R) (useElastic : bool) : Point.t * Instance.t :=
  let '(bounds, instance) := calculateBoundaries dom instance useElastic in
  let clampedX := Math_min (Bounds.maxX bounds) (Math_max (Bounds.minX bounds) nextX) in
  let clampedY := Math_min (Bounds.maxY bounds) (Math_max (Bounds.minY bounds) nextY) in
  (Point.mk clampedX clampedY, instance).

(** Clamp the given scale to the range [[minScale, maxScale]].  This is the
    function on numbers; [PinchFloat.clampScale] is the same line on
    binary64, where a [NaN] argument comes back as [NaN]. *)
Definition clampScale (instance : Instance.t) (next : R) : R :=
  Math_min (Options.maxScale (options instance))
    (Math_max (Options.minScale (options instance)) next).

(** ** The animation-frame scheduler *)

(** [requestAnimationFrame cb]: queue [cb] for the next frame and return its
    handle. *)
Definition requestAnimationFrame (cb : Callback) (instance : Instance.t)
    : nat * Instance.t :=
  let id := Instance.rafNext instance in
  (id, Instance.set_rafNext (S id)
         (Instance.set_rafQueue (Instance.rafQueue instance ++ [(id, cb)]) instance)).

(** [cancelAnimationFrame id]: drop the callback with that handle, if it is
    still waiting. *)
Definition cancelAnimationFrame (id : nat) (instance : Instance.t) : Instance.t :=
  Instance.set_rafQueue
    (filter (fun e => negb (Nat.eqb (fst e) id)) (Instance.rafQueue instance))
    instance.

(** ** core.ts: publishing the transform *)

(** [applyTransform]: re-clamp the translation into the hard bounds, clear the
    elastic offsets and write the CSS transform.  The style writes are not
    part of the state, so [useTransition] only records the call shape. *)
Definition applyTransform (dom : Dom.t) (useTransition : bool)
    (instance : Instance.t) : Instance.t :=
  let '(clamped, instance) :=
    clampPosition dom instance (Instance.x instance) (Instance.y instance) false in
  let instance := Instance.set_x (Point.x clamped) instance in
  let instance := Instance.set_y (Point.y clamped) instance in
  let instance := Instance.set_elasticX 0 instance in
  let instance := Instance.set_elasticY 0 instance in
  instance.

(** The point map denoted by the transform string that [applyTransform]
    writes, [translate(-50%, -50%) translate(x, y) rotate(r deg) scale(s)] on
    an element placed at the container centre with origin [50% 50%]: a point
    given relative to the content centre is scaled, rotated by [rotation],
    translated by [(x, y)] and placed from the container centre. *)
Definition localToWorld (dom : Dom.t) (instance : Instance.t)
    (localX localY : R) : Point.t :=
  let rect := Dom.containerRect dom in
  let containerCenterX := DOMRect.left rect + DOMRect.width rect / 2 in
  let containerCenterY := DOMRect.top rect + DOMRect.height rect / 2 in
  let angle := rotation instance * Math_PI / 180 in
  let cos := Math_cos angle in
  let sin := Math_sin angle in
  Point.mk
    (containerCenterX + Instance.x instance
       + (localX * cos - localY * sin) * scale instance)
    (containerCenterY + Instance.y instance
       + (localX * sin + localY * cos) * scale instance).

(** ** animations.ts *)

Definition stopAnimation (instance : Instance.t) : Instance.t :=
  let instance :=
    match Instance.animationFrameId instance with
    | Some id =>
        Instance.set_animationFrameId None (cancelAnimationFrame id instance)
    | None => instance
    end in
  match Instance.elasticAnimationId instance with
  | Some id =>
      Instance.set_isAnimatingElastic false
        (Instance.set_elasticAnimationId None (cancelAnimationFrame id instance))
  | None => instance
  end.

(** Elastic bounce animation when released; [now] is [Date.now()]. *)
Definition animateElasticReturn (dom : Dom.t) (now : R) (instance : Instance.t)
    : Instance.t :=
  if Instance.isAnimatingElastic instance
     || negb (Options.elastic (options instance))
  then instance
  else
    let sizes := getSizes dom instance in
    let '(bounds, instance) := calculateBoundaries dom instance false in
    let needsBounceX :=
      negb (ElementSizes.fitsHorizontally sizes)
      && ((Instance.x instance <? Bounds.minX bounds)
          || (Instance.x instance >? Bounds.maxX bounds)) in
    let needsBounceY :=
      negb (ElementSizes.fitsVertically sizes)
      && ((Instance.y instance <? Bounds.minY bounds)
          || (Instance.y instance >? Bounds.maxY bounds)) in
    if negb needsBounceX && negb needsBounceY then instance
    else
      let instance := Instance.set_isAnimatingElastic true instance in
      let instance := stopAnimation instance in
      let startX := Instance.x instance in
      let startY := Instance.y instance in
      let targetX := Math_min (Bounds.maxX bounds) (Math_max (Bounds.minX bounds) startX) in
      let targetY := Math_min (Bounds.maxY bounds) (Math_max (Bounds.minY bounds) startY) in
      let startTime := now in
      let '(id, instance) :=
        requestAnimationFrame (ElasticTick startX startY targetX targetY startTime)
          instance in
      Instance.set_elasticAnimationId (Some id) instance.

(** The [animate] closure of [animateElasticReturn], run by a frame. *)
Definition animateElastic (dom : Dom.t) (now : R)
    (startX startY targetX targetY startTime : R) (instance : Instance.t)
    : Instance.t :=
  let duration := 300 in
  let elapsed := now - startTime in
  let progress := Math_min (elapsed / duration) 1 in
  let easedProgress := 1 - (1 - progress) ^ 3 in
  let instance := Instance.set_x (startX + (targetX - startX) * easedProgress) instance in
  let instance := Instance.set_y (startY + (targetY - startY) * easedProgress) instance in
  let instance := applyTransform dom false instance in
  if progress <? 1 then
    let '(id, instance) :=
      requestAnimationFrame (ElasticTick startX startY targetX targetY startTime)
        instance in
    Instance.set_elasticAnimationId (Some id) instance
  else
    Instance.set_elasticAnimationId None
      (Instance.set_isAnimatingElastic false instance).

(** The stop test shared by both kinetic ticks. *)
Definition belowStopThreshold (vx vy vscale : R) : bool :=
  (Math_abs vx <? 0.5) && (Math_abs vy <? 0.5) && (Math_abs vscale <? 0.001).

Definition kineticAtRest (instance : Instance.t) : bool :=
  belowStopThreshold (velocityX instance) (velocityY instance)
    (velocityScale instance).

(** ** core.ts: the kinetic tick *)

(** [animateKinetic] of [core.ts], the function that the pointer and touch
    handlers hand to [requestAnimationFrame].  It does not request a further
    frame. *)
Definition animateKinetic (dom : Dom.t) (now : R) (instance : Instance.t)
    : Instance.t :=
  if kineticAtRest instance then
    let instance := stopAnimation instance in
    let instance := animateElasticReturn dom now instance in
    applyTransform dom false instance
  else
    let instance := Instance.set_x (Instance.x instance + velocityX instance) instance in
    let instance := Instance.set_y (Instance.y instance + velocityY instance) instance in
    let instance := Instance.set_scale (scale instance + velocityScale instance) instance in
    let instance :=
      if scale instance <? Options.minScale (options instance)
      then Instance.set_scale (Options.minScale (options instance)) instance
      else instance in
    let instance :=
      if scale instance >? Options.maxScale (options instance)
      then Instance.set_scale (Options.maxScale (options instance)) instance
      else instance in
    let '(clamped, instance) :=
      clampPosition dom instance (Instance.x instance) (Instance.y instance) true in
    let instance := Instance.set_x (Point.x clamped) instance in
    let instance := Instance.set_y (Point.y clamped) instance in
    let instance :=
      Instance.set_velocityX
        (velocityX instance * Options.friction (options instance)) instance in
    let instance :=
      Instance.set_velocityY
        (velocityY instance * Options.friction (options instance)) instance in
    let instance :=
      Instance.set_velocityScale
        (velocityScale instance * Options.friction (options instance)) instance in
    applyTransform dom false instance.

(** [animateKinetic] of [animations.ts]: the same tick, followed by the
    request for the next frame. *)
Module Animations.
Definition animateKinetic (dom : Dom.t) (now : R) (instance : Instance.t)
    : Instance.t :=
  if kineticAtRest instance then
    let instance := stopAnimation instance in
    let instance := animateElasticReturn dom now instance in
    applyTransform dom false instance
  else
    let instance := Instance.set_x (Instance.x instance + velocityX instance) instance in
    let instance := Instance.set_y (Instance.y instance + velocityY instance) instance in
    let instance := Instance.set_scale (scale instance + velocityScale instance) instance in
    let instance :=
      if scale instance <? Options.minScale (options instance)
      then Instance.set_scale (Options.minScale (options instance)) instance
      else instance in
    let instance :=
      if scale instance >? Options.maxScale (options instance)
      then Instance.set_scale (Options.maxScale (options instance)) instance
      else instance in
    let '(clamped, instance) :=
      clampPosition dom instance (Instance.x instance) (Instance.y instance) true in
    let instance := Instance.set_x (Point.x clamped) instance in
    let instance := Instance.set_y (Point.y clamped) instance in
    let instance :=
      Instance.set_velocityX
        (velocityX instance * Options.friction (options instance)) instance in
    let instance :=
      Instance.set_velocityY
        (velocityY instance * Options.friction (options instance)) instance in
    let instance :=
      Instance.set_velocityScale
        (velocityScale instance * Options.friction (options instance)) instance in
    let instance := applyTransform dom false instance in
    let '(id, instance) := requestAnimationFrame KineticTickModule instance in
    Instance.set_animationFrameId (Some id) instance.
End Animations.

(** One animation frame: the oldest waiting callback leaves the queue and
    runs. *)
Definition runFrame (dom : Dom.t) (now : R) (instance : Instance.t) : Instance.t :=
  match Instance.rafQueue instance with
  | [] => instance
  | (_, cb) :: rest =>
      let instance := Instance.set_rafQueue rest instance in
      match cb with
      | KineticTick => animateKinetic dom now instance
      | KineticTickModule => Animations.animateKinetic dom now instance
      | ElasticTick startX startY targetX targetY startTime =>
          animateElastic dom now startX startY targetX targetY startTime instance
      end
  end.

(** ** core.ts: construction and the public transform API *)

Definition orDefault {A : Type} (o : option A) (d : A) : A :=
  match o with Some v => v | None => d end.

(** The option record built by the constructor.  [enableRotation] is not
    among the fields it copies, so a later read finds no value, which the
    pinch handler takes as false. *)
Definition resolveOptions (o : PartialOptions.t) : Options.t :=
  Options.mk
    (orDefault (PartialOptions.minScale o) 0.5)
    (orDefault (PartialOptions.maxScale o) 3)
    (orDefault (PartialOptions.initialScale o) 1)
    (orDefault (PartialOptions.wheelZoomSpeed o) 0.0015)
    (orDefault (PartialOptions.boundsPadding o) 0.1)
    (orDefault (PartialOptions.friction o) 0.92)
    (orDefault (PartialOptions.maxSpeed o) 300)
    (orDefault (PartialOptions.transition o) false)
    (orDefault (PartialOptions.pinchSpeed o) 1)
    (orDefault (PartialOptions.elastic o) true)
    (orDefault (PartialOptions.elasticResistance o) 0.15)
    (orDefault (PartialOptions.elasticBounce o) 0.3)
    (orDefault (PartialOptions.minElasticDistance o) 5)
    false.

(** The constructor followed by [init].  The class declares and initialises
    only the transform, velocity and elastic fields.  The session fields of
    the handlers are [undefined] on the new object: unwritten flags read as
    false and unwritten frame handles cancel nothing, which is what the
    assignments below say.  The numeric session fields are left as [unset]
    has them, for every [unset]:
    - [DRAG_THRESHOLD], [DOUBLE_TAP_DELAY] and [DOUBLE_TAP_THRESHOLD] are
      assigned nowhere and only occur on the right of a [<] whose left side
      is a distance; the comparison with [undefined] is false, as it is in
      the model at the value 0;
    - the press anchor, the last sample, the pinch start values and the tap
      record are assigned by the handler that sets the flag guarding their
      reads, or are read first in a comparison with one of the thresholds;
    - [lastScale] is the exception: [handleTouchEnd] can start a pan
      without assigning it, and [handlePointerMove] then computes with
      [undefined].  [run] tracks whether it has been assigned. *)
Definition constructor (dom : Dom.t) (o : PartialOptions.t) (unset : Instance.t)
    : Instance.t :=
  let instance := Instance.set_options (resolveOptions o) unset in
  let instance := Instance.set_velocityX 0 instance in
  let instance := Instance.set_velocityY 0 instance in
  let instance := Instance.set_velocityScale 0 instance in
  let instance := Instance.set_elasticX 0 instance in
  let instance := Instance.set_elasticY 0 instance in
  let instance := Instance.set_isPanning false instance in
  let instance := Instance.set_didMove false instance in
  let instance := Instance.set_isPinching false instance in
  let instance := Instance.set_isAnimatingElastic false instance in
  let instance := Instance.set_touchIds (None, None) instance in
  let instance := Instance.set_touchPoints [] instance in
  let instance := Instance.set_animationFrameId None instance in
  let instance := Instance.set_elasticAnimationId None instance in
  let instance := Instance.set_rafQueue [] instance in
  let instance :=
    Instance.set_scale (Options.initialScale (options instance)) instance in
  let instance := Instance.set_x 0 instance in
  let instance := Instance.set_y 0 instance in
  let instance := Instance.set_rotation 0 instance in
  applyTransform dom false instance.

Module Transform.
Record t : Type := mk { scale : R; x : R; y : R; rotation : R }.
End Transform.

Module PartialTransform.
Record t : Type := mk {
  scale : option R; x : option R; y : option R; rotation : option R
}.
End PartialTransform.

Module Rect.
Record t : Type := mk { left : R; top : R; right : R; bottom : R }.
End Rect.

Definition zoomToPoint (dom : Dom.t) (clientX clientY deltaScale : R)
    (instance : Instance.t) : Instance.t :=
  let rect := Dom.containerRect dom in
  let prevScale := scale instance in
  let nextScale := clampScale instance (prevScale * deltaScale) in
  if nextScale =? prevScale then instance
  else
    let cx := clientX - DOMRect.left rect in
    let cy := clientY - DOMRect.top rect in
    let centerX := DOMRect.width rect / 2 in
    let centerY := DOMRect.height rect / 2 in
    let localX := cx - centerX - Instance.x instance in
    let localY := cy - centerY - Instance.y instance in
    let k := nextScale / prevScale in
    let newLocalX := localX * k in
    let newLocalY := localY * k in
    let instance := Instance.set_scale nextScale instance in
    let instance := Instance.set_x (Instance.x instance + (localX - newLocalX)) instance in
    let instance := Instance.set_y (Instance.y instance + (localY - newLocalY)) instance in
    let '(clamped, instance) :=
      clampPosition dom instance (Instance.x instance) (Instance.y instance) true in
    let instance := Instance.set_x (Point.x clamped) instance in
    let instance := Instance.set_y (Point.y clamped) instance in
    applyTransform dom false instance.

(** Reset transform to initial state. *)
Definition reset (dom : Dom.t) (instance : Instance.t) : Instance.t :=
  let instance := stopAnimation instance in
  let instance :=
    Instance.set_scale (Options.initialScale (options instance)) instance in
  let instance := Instance.set_x 0 instance in
  let instance := Instance.set_y 0 instance in
  let instance := Instance.set_rotation 0 instance in
  let instance := Instance.set_velocityX 0 instance in
  let instance := Instance.set_velocityY 0 instance in
  let instance := Instance.set_velocityScale 0 instance in
  let instance := Instance.set_elasticX 0 instance in
  let instance := Instance.set_elasticY 0 instance in
  applyTransform dom true instance.

(** Rotate content by specified degrees. *)
Definition rotate (dom : Dom.t) (deg : R) (instance : Instance.t) : Instance.t :=
  let instance := stopAnimation instance in
  let instance := Instance.set_rotation (js_rem (rotation instance + deg) 360) instance in
  let '(clamped, instance) :=
    clampPosition dom instance (Instance.x instance) (Instance.y instance) false in
  let instance := Instance.set_x (Point.x clamped) instance in
  let instance := Instance.set_y (Point.y clamped) instance in
  applyTransform dom true instance.

Definition getTransform (instance : Instance.t) : Transform.t :=
  Transform.mk (scale instance) (Instance.x instance) (Instance.y instance)
    (rotation instance).

Definition setTransform (dom : Dom.t) (transform : PartialTransform.t)
    (useTransition : option bool) (instance : Instance.t) : Instance.t :=
  let instance := stopAnimation instance in
  let instance :=
    match PartialTransform.scale transform with
    | Some s => Instance.set_scale (clampScale instance s) instance
    | None => instance
    end in
  let instance :=
    match PartialTransform.x transform with
    | Some v => Instance.set_x v instance
    | None => instance
    end in
  let instance :=
    match PartialTransform.y transform with
    | Some v => Instance.set_y v instance
    | None => instance
    end in
  let instance :=
    match PartialTransform.rotation transform with
    | Some v => Instance.set_rotation v instance
    | None => instance
    end in
  let '(clamped, instance) :=
    clampPosition dom instance (Instance.x instance) (Instance.y instance) false in
  let instance := Instance.set_x (Point.x clamped) instance in
  let instance := Instance.set_y (Point.y clamped) instance in
  let shouldUseTransition := orDefault useTransition true in
  applyTransform dom
    (shouldUseTransition && Options.transition (options instance)) instance.

(** The current viewport bounds in container coordinates. *)
Definition getViewportBounds (dom : Dom.t) (instance : Instance.t) : Rect.t :=
  let rect := Dom.containerRect dom in
  let centerX := DOMRect.width rect / 2 in
  let centerY := DOMRect.height rect / 2 in
  let sizes := getSizes dom instance in
  Rect.mk
    (centerX + Instance.x instance - ElementSizes.contentWidth sizes / 2)
    (centerY + Instance.y instance - ElementSizes.contentHeight sizes / 2)
    (centerX + Instance.x instance + ElementSizes.contentWidth sizes / 2)
    (centerY + Instance.y instance + ElementSizes.contentHeight sizes / 2).

(** Convert container coordinates to image coordinates. *)
Definition containerToImage (dom : Dom.t) (instance : Instance.t)
    (containerX containerY : R) : Point.t :=
  let rect := Dom.containerRect dom in
  let contentRect := Dom.contentRect dom in
  let centerX := DOMRect.width rect / 2 in
  let centerY := DOMRect.height rect / 2 in
  let relativeX := containerX - centerX - Instance.x instance in
  let relativeY := containerY - centerY - Instance.y instance in
  let imageX :=
    (relativeX / scale instance)
    + (DOMRect.width contentRect / 2 / scale instance) in
  let imageY :=
    (relativeY / scale instance)
    + (DOMRect.height contentRect / 2 / scale instance) in
  Point.mk imageX imageY.

(** Convert image coordinates to container coordinates. *)
Definition imageToContainer (dom : Dom.t) (instance : Instance.t)
    (imageX imageY : R) : Point.t :=
  let rect := Dom.containerRect dom in
  let contentRect := Dom.contentRect dom in
  let centerX := DOMRect.width rect / 2 in
  let centerY := DOMRect.height rect / 2 in
  let relativeX :=
    (imageX - (DOMRect.width contentRect / 2 / scale instance)) * scale instance in
  let relativeY :=
    (imageY - (DOMRect.height contentRect / 2 / scale instance)) * scale instance in
  let containerX := centerX + Instance.x instance + relativeX in
  let containerY := centerY + Instance.y instance + relativeY in
  Point.mk containerX containerY.

(** Move the center of the view to the specified coordinates. *)
Definition moveTo (dom : Dom.t) (targetX targetY : R)
    (useTransition : option bool) (instance : Instance.t) : Instance.t :=
  let instance := stopAnimation instance in
  let rect := Dom.containerRect dom in
  let centerX := DOMRect.width rect / 2 in
  let centerY := DOMRect.height rect / 2 in
  let instance := Instance.set_x (targetX - centerX) instance in
  let instance := Instance.set_y (targetY - centerY) instance in
  let '(clamped, instance) :=
    clampPosition dom instance (Instance.x instance) (Instance.y instance) false in
  let instance := Instance.set_x (Point.x clamped) instance in
  let instance := Instance.set_y (Point.y clamped) instance in
  let shouldUseTransition := orDefault useTransition true in
  applyTransform dom
    (shouldUseTransition && Options.transition (options instance)) instance.

(** Center on specific image coordinates. *)
Definition centerOnImagePoint (dom : Dom.t) (imageX imageY : R)
    (useTransition : option bool) (instance : Instance.t) : Instance.t :=
  let containerCoords := imageToContainer dom instance imageX imageY in
  moveTo dom (Point.x containerCoords) (Point.y containerCoords) useTransition
    instance.

(** Move by specified delta values. *)
Definition moveBy (dom : Dom.t) (deltaX deltaY : R)
    (useTransition : option bool) (instance : Instance.t) : Instance.t :=
  let instance := stopAnimation instance in
  let instance := Instance.set_x (Instance.x instance + deltaX) instance in
  let instance := Instance.set_y (Instance.y instance + deltaY) instance in
  let '(clamped, instance) :=
    clampPosition dom instance (Instance.x instance) (Instance.y instance) false in
  let instance := Instance.set_x (Point.x clamped) instance in
  let instance := Instance.set_y (Point.y clamped) instance in
  let shouldUseTransition := orDefault useTransition true in
  applyTransform dom
    (shouldUseTransition && Options.transition (options instance)) instance.

(** Zoom to specific scale at specified point. *)
Definition zoomTo (dom : Dom.t) (newScale : R) (pointX pointY : option R)
    (useTransition : option bool) (instance : Instance.t) : Instance.t :=
  let instance := stopAnimation instance in
  let rect := Dom.containerRect dom in
  let targetX := orDefault pointX (DOMRect.width rect / 2) in
  let targetY := orDefault pointY (DOMRect.height rect / 2) in
  let prevScale := scale instance in
  let nextScale := clampScale instance newScale in
  if nextScale =? prevScale then instance
  else
    let centerX := DOMRect.width rect / 2 in
    let centerY := DOMRect.height rect / 2 in
    let localX := targetX - centerX - Instance.x instance in
    let localY := targetY - centerY - Instance.y instance in
    let k := nextScale / prevScale in
    let newLocalX := localX * k in
    let newLocalY := localY * k in
    let instance := Instance.set_scale nextScale instance in
    let instance := Instance.set_x (Instance.x instance + (localX - newLocalX)) instance in
    let instance := Instance.set_y (Instance.y instance + (localY - newLocalY)) instance in
    let '(clamped, instance) :=
      clampPosition dom instance (Instance.x instance) (Instance.y instance) false in
    let instance := Instance.set_x (Point.x clamped) instance in
    let instance := Instance.set_y (Point.y clamped) instance in
    let shouldUseTransition := orDefault useTransition true in
    applyTransform dom
      (shouldUseTransition && Options.transition (options instance)) instance.

(** ** events.ts *)

Module WheelEvent.
Record t : Type := mk { deltaY : R; clientX : R; clientY : R }.
End WheelEvent.

Module PointerEvent.
Record t : Type := mk { button : Z; clientX : R; clientY : R; pointerId : nat }.
End PointerEvent.

Module MouseEvent.
Record t : Type := mk { clientX : R; clientY : R }.
End MouseEvent.

Module Touch.
Record t : Type := mk { identifier : nat; clientX : R; clientY : R }.
End Touch.

Module TouchEvent.
Record t : Type := mk { touches : list Touch.t; changedTouches : list Touch.t }.
End TouchEvent.

Definition getAngle (x1 y1 x2 y2 : R) : R := Math_atan2 (y2 - y1) (x2 - x1).

Definition getDistance (x1 y1 x2 y2 : R) : R := Math_hypot (x2 - x1) (y2 - y1).

Definition getCenter (x1 y1 x2 y2 : R) : Point.t :=
  Point.mk ((x1 + x2) / 2) ((y1 + y2) / 2).

Definition worldToLocal (dom : Dom.t) (instance : Instance.t)
    (worldX worldY : R) : Point.t :=
  let rect := Dom.containerRect dom in
  let containerCenterX := DOMRect.left rect + DOMRect.width rect / 2 in
  let containerCenterY := DOMRect.top rect + DOMRect.height rect / 2 in
  let pointX := worldX - containerCenterX - Instance.x instance in
  let pointY := worldY - containerCenterY - Instance.y instance in
  let angle := - rotation instance * Math_PI / 180 in
  let cos := Math_cos angle in
  let sin := Math_sin angle in
  let rotatedX := pointX * cos - pointY * sin in
  let rotatedY := pointX * sin + pointY * cos in
  Point.mk (rotatedX / scale instance) (rotatedY / scale instance).

Definition applyAroundPivot (dom : Dom.t) (pivotWorldX pivotWorldY : R)
    (newScale newRotation : R) (instance : Instance.t) : Instance.t :=
  let rect := Dom.containerRect dom in
  let containerCenterX := DOMRect.left rect + DOMRect.width rect / 2 in
  let containerCenterY := DOMRect.top rect + DOMRect.height rect / 2 in
  let currentAngle := rotation instance * Math_PI / 180 in
  let currentCos := Math_cos currentAngle in
  let currentSin := Math_sin currentAngle in
  let pivotToContainerX := pivotWorldX - containerCenterX - Instance.x instance in
  let pivotToContainerY := pivotWorldY - containerCenterY - Instance.y instance in
  let localX :=
    (pivotToContainerX * currentCos + pivotToContainerY * currentSin)
    / scale instance in
  let localY :=
    (- pivotToContainerX * currentSin + pivotToContainerY * currentCos)
    / scale instance in
  let newAngle := newRotation * Math_PI / 180 in
  let newCos := Math_cos newAngle in
  let newSin := Math_sin newAngle in
  let newPivotToContainerX := (localX * newCos - localY * newSin) * newScale in
  let newPivotToContainerY := (localX * newSin + localY * newCos) * newScale in
  let instance :=
    Instance.set_x (pivotWorldX - containerCenterX - newPivotToContainerX) instance in
  let instance :=
    Instance.set_y (pivotWorldY - containerCenterY - newPivotToContainerY) instance in
  let instance := Instance.set_scale newScale instance in
  let instance := Instance.set_rotation newRotation instance in
  instance.

Definition handleWheel (dom : Dom.t) (e : WheelEvent.t) (instance : Instance.t)
    : Instance.t :=
  let instance := stopAnimation instance in
  let delta := - WheelEvent.deltaY e * Options.wheelZoomSpeed (options instance) in
  let factor := 1 + delta in
  if factor <=? 0 then instance
  else
    let targetScale := clampScale instance (scale instance * factor) in
    let instance :=
      applyAroundPivot dom (WheelEvent.clientX e) (WheelEvent.clientY e)
        targetScale (rotation instance) instance in
    applyTransform dom false instance.

Definition handlePointerDown (now : R) (e : PointerEvent.t)
    (instance : Instance.t) : Instance.t :=
  if negb (Z.eqb (PointerEvent.button e) 0) then instance
  else
    let instance := stopAnimation instance in
    let instance := Instance.set_isAnimatingElastic false instance in
    let instance := Instance.set_isPanning true instance in
    let instance := Instance.set_didMove false instance in
    let instance := Instance.set_startClientX (PointerEvent.clientX e) instance in
    let instance := Instance.set_startClientY (PointerEvent.clientY e) instance in
    let instance := Instance.set_startX (Instance.x instance) instance in
    let instance := Instance.set_startY (Instance.y instance) instance in
    let instance := Instance.set_lastClientX (PointerEvent.clientX e) instance in
    let instance := Instance.set_lastClientY (PointerEvent.clientY e) instance in
    let instance := Instance.set_lastScale (scale instance) instance in
    let instance := Instance.set_lastMoveTime now instance in
    let instance := Instance.set_velocityX 0 instance in
    let instance := Instance.set_velocityY 0 instance in
    let instance := Instance.set_velocityScale 0 instance in
    instance.

Definition handlePointerMove (dom : Dom.t) (now : R) (e : PointerEvent.t)
    (instance : Instance.t) : Instance.t :=
  if negb (Instance.isPanning instance) then instance
  else
    let dx := PointerEvent.clientX e - Instance.startClientX instance in
    let dy := PointerEvent.clientY e - Instance.startClientY instance in
    if negb (Instance.didMove instance)
       && (Math_hypot dx dy <? Instance.DRAG_THRESHOLD instance)
    then instance
    else
      let instance := Instance.set_didMove true instance in
      let nextX := Instance.startX instance + dx in
      let nextY := Instance.startY instance + dy in
      let '(clamped, instance) := clampPosition dom instance nextX nextY true in
      let instance := Instance.set_x (Point.x clamped) instance in
      let instance := Instance.set_y (Point.y clamped) instance in
      let dt := now - Instance.lastMoveTime instance in
      let instance :=
        if dt >? 0 then
          let vx := (PointerEvent.clientX e - Instance.lastClientX instance) / dt * 16 in
          let vy := (PointerEvent.clientY e - Instance.lastClientY instance) / dt * 16 in
          let scaleDiff := scale instance - Instance.lastScale instance in
          let scaleVelocity := scaleDiff / dt * 16 in
          let maxSpeed := Options.maxSpeed (options instance) in
          let instance :=
            Instance.set_velocityX (Math_max (- maxSpeed) (Math_min maxSpeed vx)) instance in
          let instance :=
            Instance.set_velocityY (Math_max (- maxSpeed) (Math_min maxSpeed vy)) instance in
          Instance.set_velocityScale
            (Math_max (- 0.01) (Math_min 0.01 scaleVelocity)) instance
        else instance in
      let instance := Instance.set_lastClientX (PointerEvent.clientX e) instance in
      let instance := Instance.set_lastClientY (PointerEvent.clientY e) instance in
      let instance := Instance.set_lastScale (scale instance) instance in
      let instance := Instance.set_lastMoveTime now instance in
      applyTransform dom false instance.

Definition handlePointerUp (dom : Dom.t) (now : R) (e : PointerEvent.t)
    (instance : Instance.t) : Instance.t :=
  if negb (Instance.isPanning instance) then instance
  else
    let instance := Instance.set_isPanning false instance in
    if Instance.didMove instance then
      if (Math_abs (velocityX instance) >? 1)
         || (Math_abs (velocityY instance) >? 1)
         || (Math_abs (velocityScale instance) >? 0.001)
      then
        let '(id, instance) := requestAnimationFrame KineticTick instance in
        Instance.set_animationFrameId (Some id) instance
      else animateElasticReturn dom now instance
    else instance.

(** [scaleRatio] is the quotient of numbers, which is the code's whenever
    the scale is not zero.  At scale 0 the code computes [0 / 0];
    [Binary64.doubleClick_x] reads these lines on binary64. *)
Definition handleDoubleClick (dom : Dom.t) (e : MouseEvent.t)
    (instance : Instance.t) : Instance.t :=
  let instance := stopAnimation instance in
  let rect := Dom.containerRect dom in
  let centerX := DOMRect.width rect / 2 in
  let centerY := DOMRect.height rect / 2 in
  let clickX := MouseEvent.clientX e - DOMRect.left rect in
  let clickY := MouseEvent.clientY e - DOMRect.top rect in
  let targetScale :=
    Math_min (scale instance * 1.5) (Options.maxScale (options instance)) in
  let scaleRatio := targetScale / scale instance in
  let localX := clickX - centerX - Instance.x instance in
  let localY := clickY - centerY - Instance.y instance in
  let instance := Instance.set_scale targetScale instance in
  let newLocalX := localX * scaleRatio in
  let newLocalY := localY * scaleRatio in
  let instance := Instance.set_x (Instance.x instance + (localX - newLocalX)) instance in
  let instance := Instance.set_y (Instance.y instance + (localY - newLocalY)) instance in
  let '(clamped, instance) :=
    clampPosition dom instance (Instance.x instance) (Instance.y instance) false in
  let instance := Instance.set_x (Point.x clamped) instance in
  let instance := Instance.set_y (Point.y clamped) instance in
  applyTransform dom true instance.

(** [Map.prototype.set] on the [touchPoints] map, kept in insertion order. *)
Fixpoint Map_set (k : nat) (v : R * R) (m : list (nat * (R * R)))
    : list (nat * (R * R)) :=
  match m with
  | [] => [(k, v)]
  | (k', v') :: rest =>
      if Nat.eqb k' k then (k, v) :: rest else (k', v') :: Map_set k v rest
  end.

Definition setTouchPoint (touch : Touch.t) (instance : Instance.t) : Instance.t :=
  Instance.set_touchPoints
    (Map_set (Touch.identifier touch) (Touch.clientX touch, Touch.clientY touch)
       (Instance.touchPoints instance))
    instance.

(** [identifier === id] for a tracked id that may be [null]. *)
Definition sameId (identifier : nat) (id : option nat) : bool :=
  match id with Some n => Nat.eqb identifier n | None => false end.

(** The search loop of [handleTouchMove]: the last touch carrying a tracked
    id wins. *)
Definition findTouch (id : option nat) (touches : list Touch.t) : option Touch.t :=
  fold_left
    (fun found touch => if sameId (Touch.identifier touch) id then Some touch else found)
    touches None.

Definition handleTouchStart (now : R) (e : TouchEvent.t) (instance : Instance.t)
    : Instance.t :=
  match TouchEvent.touches e with
  | [touch] =>
      let instance := Instance.set_isPanning true instance in
      let instance := Instance.set_didMove false instance in
      let instance := Instance.set_startClientX (Touch.clientX touch) instance in
      let instance := Instance.set_startClientY (Touch.clientY touch) instance in
      let instance := Instance.set_startX (Instance.x instance) instance in
      let instance := Instance.set_startY (Instance.y instance) instance in
      let instance := Instance.set_lastClientX (Touch.clientX touch) instance in
      let instance := Instance.set_lastClientY (Touch.clientY touch) instance in
      let instance := Instance.set_lastScale (scale instance) instance in
      let instance := Instance.set_lastMoveTime now instance in
      instance
  | [touch1; touch2] =>
      let instance := Instance.set_isPinching true instance in
      let instance := Instance.set_isPanning false instance in
      let instance :=
        Instance.set_touchIds
          (Some (Touch.identifier touch1), Some (Touch.identifier touch2)) instance in
      let instance := Instance.set_touchPoints [] instance in
      let instance := setTouchPoint touch1 instance in
      let instance := setTouchPoint touch2 instance in
      let instance :=
        Instance.set_touchStartDistance
          (getDistance (Touch.clientX touch1) (Touch.clientY touch1)
             (Touch.clientX touch2) (Touch.clientY touch2)) instance in
      let instance :=
        Instance.set_touchStartAngle
          (getAngle (Touch.clientX touch1) (Touch.clientY touch1)
             (Touch.clientX touch2) (Touch.clientY touch2)) instance in
      let instance := Instance.set_touchStartScale (scale instance) instance in
      let instance := Instance.set_initialRotation (rotation instance) instance in
      instance
  | _ => instance
  end.

Definition handleTouchMove (dom : Dom.t) (now : R) (e : TouchEvent.t)
    (instance : Instance.t) : Instance.t :=
  match Instance.isPinching instance, TouchEvent.touches e with
  | true, [first; second] =>
      let found1 := findTouch (fst (Instance.touchIds instance)) [first; second] in
      let found2 := findTouch (snd (Instance.touchIds instance)) [first; second] in
      let '(touch1, touch2, instance) :=
        match found1, found2 with
        | Some t1, Some t2 => (t1, t2, instance)
        | _, _ =>
            (first, second,
             Instance.set_touchIds
               (Some (Touch.identifier first), Some (Touch.identifier second))
               instance)
        end in
      let instance := setTouchPoint touch1 instance in
      let instance := setTouchPoint touch2 instance in
      let currentDistance :=
        getDistance (Touch.clientX touch1) (Touch.clientY touch1)
          (Touch.clientX touch2) (Touch.clientY touch2) in
      let currentAngle :=
        getAngle (Touch.clientX touch1) (Touch.clientY touch1)
          (Touch.clientX touch2) (Touch.clientY touch2) in
      let newScale :=
        Instance.touchStartScale instance
        * (currentDistance / Instance.touchStartDistance instance)
        * Options.pinchSpeed (options instance) in
      let clampedScale := clampScale instance newScale in
      let newRotation :=
        if Options.enableRotation (options instance) then
          let angleDelta := currentAngle - Instance.touchStartAngle instance in
          let r := Instance.initialRotation instance + angleDelta * (180 / Math_PI) in
          js_rem (r + 180) 360 - 180
        else rotation instance in
      let center :=
        getCenter (Touch.clientX touch1) (Touch.clientY touch1)
          (Touch.clientX touch2) (Touch.clientY touch2) in
      let instance :=
        applyAroundPivot dom (Point.x center) (Point.y center)
          clampedScale newRotation instance in
      applyTransform dom false instance
  | _, touches =>
      match Instance.isPanning instance, touches with
      | true, [touch] =>
          let dx := Touch.clientX touch - Instance.startClientX instance in
          let dy := Touch.clientY touch - Instance.startClientY instance in
          if negb (Instance.didMove instance)
             && (Math_hypot dx dy <? Instance.DRAG_THRESHOLD instance)
          then instance
          else
            let instance := Instance.set_didMove true instance in
            let nextX := Instance.startX instance + dx in
            let nextY := Instance.startY instance + dy in
            let '(clamped, instance) := clampPosition dom instance nextX nextY true in
            let instance := Instance.set_x (Point.x clamped) instance in
            let instance := Instance.set_y (Point.y clamped) instance in
            let dt := now - Instance.lastMoveTime instance in
            let instance :=
              if dt >? 0 then
                let vx := (Touch.clientX touch - Instance.lastClientX instance) / dt * 16 in
                let vy := (Touch.clientY touch - Instance.lastClientY instance) / dt * 16 in
                let maxSpeed := Options.maxSpeed (options instance) in
                let instance :=
                  Instance.set_velocityX
                    (Math_max (- maxSpeed) (Math_min maxSpeed vx)) instance in
                Instance.set_velocityY
                  (Math_max (- maxSpeed) (Math_min maxSpeed vy)) instance
              else instance in
            let instance := Instance.set_lastClientX (Touch.clientX touch) instance in
            let instance := Instance.set_lastClientY (Touch.clientY touch) instance in
            let instance := Instance.set_lastMoveTime now instance in
            applyTransform dom false instance
      | _, _ => instance
      end
  end.

(** As in [handleDoubleClick], [scaleRatio] is the quotient of numbers,
    the code's whenever the scale is not zero. *)
Definition handleDoubleTap (dom : Dom.t) (clientX clientY : R)
    (instance : Instance.t) : Instance.t :=
  let instance := stopAnimation instance in
  let rect := Dom.containerRect dom in
  let centerX := DOMRect.width rect / 2 in
  let centerY := DOMRect.height rect / 2 in
  let clickX := clientX - DOMRect.left rect in
  let clickY := clientY - DOMRect.top rect in
  let targetScale :=
    Math_min (scale instance * 1.5) (Options.maxScale (options instance)) in
  let scaleRatio := targetScale / scale instance in
  let localX := clickX - centerX - Instance.x instance in
  let localY := clickY - centerY - Instance.y instance in
  let instance := Instance.set_scale targetScale instance in
  let newLocalX := localX * scaleRatio in
  let newLocalY := localY * scaleRatio in
  let instance := Instance.set_x (Instance.x instance + (localX - newLocalX)) instance in
  let instance := Instance.set_y (Instance.y instance + (localY - newLocalY)) instance in
  let '(clamped, instance) :=
    clampPosition dom instance (Instance.x instance) (Instance.y instance) false in
  let instance := Instance.set_x (Point.x clamped) instance in
  let instance := Instance.set_y (Point.y clamped) instance in
  applyTransform dom true instance.

Definition handleDoubleTapCheck (dom : Dom.t) (now : R) (e : TouchEvent.t)
    (instance : Instance.t) : Instance.t :=
  match TouchEvent.changedTouches e with
  | [] => instance
  | touch :: _ =>
      let touchX := Touch.clientX touch in
      let touchY := Touch.clientY touch in
      if (now - Instance.lastTouchEndTime instance <? Instance.DOUBLE_TAP_DELAY instance)
         && (Math_abs (touchX - Instance.lastTouchX instance)
             <? Instance.DOUBLE_TAP_THRESHOLD instance)
         && (Math_abs (touchY - Instance.lastTouchY instance)
             <? Instance.DOUBLE_TAP_THRESHOLD instance)
      then
        let instance := handleDoubleTap dom touchX touchY instance in
        let instance := Instance.set_lastTouchEndTime 0 instance in
        let instance := Instance.set_lastTouchX 0 instance in
        let instance := Instance.set_lastTouchY 0 instance in
        instance
      else
        let instance := Instance.set_lastTouchEndTime now instance in
        let instance := Instance.set_lastTouchX touchX instance in
        let instance := Instance.set_lastTouchY touchY instance in
        instance
  end.

(** [moving] and [release] name the test and the two-way branch that the
    source writes out twice, once after a pinch and once after a pan. *)
Definition handleTouchEnd (dom : Dom.t) (now : R) (e : TouchEvent.t)
    (instance : Instance.t) : Instance.t :=
  let moving (instance : Instance.t) :=
    Instance.didMove instance
    && ((Math_abs (velocityX instance) >? 1) || (Math_abs (velocityY instance) >? 1)) in
  let release (instance : Instance.t) :=
    if moving instance then
      let '(id, instance) := requestAnimationFrame KineticTick instance in
      Instance.set_animationFrameId (Some id) instance
    else animateElasticReturn dom now instance in
  let instance :=
    match TouchEvent.touches e with
    | [] =>
        if Instance.isPinching instance then
          let instance := Instance.set_isPinching false instance in
          let instance := Instance.set_touchIds (None, None) instance in
          let instance := Instance.set_touchPoints [] instance in
          release instance
        else if Instance.isPanning instance then
          let instance := Instance.set_isPanning false instance in
          release instance
        else instance
    | [touch] =>
        if Instance.isPinching instance then
          let instance := Instance.set_isPinching false instance in
          let instance := Instance.set_isPanning true instance in
          let instance := Instance.set_startClientX (Touch.clientX touch) instance in
          let instance := Instance.set_startClientY (Touch.clientY touch) instance in
          let instance := Instance.set_startX (Instance.x instance) instance in
          let instance := Instance.set_startY (Instance.y instance) instance in
          let instance := Instance.set_didMove false instance in
          let instance := Instance.set_lastClientX (Touch.clientX touch) instance in
          let instance := Instance.set_lastClientY (Touch.clientY touch) instance in
          let instance := Instance.set_lastMoveTime now instance in
          instance
        else instance
    | _ => instance
    end in
  handleDoubleTapCheck dom now e instance.

(** ** The pinch scale on binary64 floats

    The pinch branch of [handleTouchMove] divides by [touchStartDistance].
    On reals that division has no counterpart when the divisor is zero, so
    this fragment re-reads the same lines of [events.ts] and [utils.ts] on
    IEEE 754 binary64 numbers, where [0 / 0] is [NaN] and [d / 0] is
    [Infinity]. *)
Module PinchFloat.
Import PrimFloat.
Local Open Scope float_scope.

(** [Math.max] and [Math.min]: [NaN] if either argument is [NaN], and [+0]
    above [-0]. *)
Definition Math_max (a b : float) : float :=
  if is_nan a || is_nan b then nan
  else if ltb a b then b
  else if ltb b a then a
  else if is_zero a then a + b
  else a.

Definition Math_min (a b : float) : float :=
  if is_nan a || is_nan b then nan
  else if ltb a b then a
  else if ltb b a then b
  else if is_zero a then - (- a + - b)
  else a.

(** [Math.hypot] on arguments whose squares are exact and far from overflow,
    the only ones used below. *)
Definition Math_hypot (a b : float) : float := sqrt (a * a + b * b).

Definition getDistance (x1 y1 x2 y2 : float) : float :=
  Math_hypot (x2 - x1) (y2 - y1).

Definition clampScale (minScale maxScale next : float) : float :=
  Math_min maxScale (Math_max minScale next).

(** [clampedScale] of the pinch branch, from the session values recorded by
    [handleTouchStart] and the two current touches. *)
Definition pinchClampedScale (minScale maxScale pinchSpeed : float)
    (touchStartScale touchStartDistance : float)
    (x1 y1 x2 y2 : float) : float :=
  let currentDistance := getDistance x1 y1 x2 y2 in
  let scale := touchStartScale * (currentDistance / touchStartDistance) * pinchSpeed in
  clampScale minScale maxScale scale.

(** The [x] that [applyAroundPivot] writes, with the cosines and sines that
    [Math.cos] and [Math.sin] returned passed in. *)
Definition applyAroundPivot_x (containerCenterX containerCenterY : float)
    (x y scale : float) (currentCos currentSin newCos newSin : float)
    (pivotWorldX pivotWorldY newScale : float) : float :=
  let pivotToContainerX := pivotWorldX - containerCenterX - x in
  let pivotToContainerY := pivotWorldY - containerCenterY - y in
  let localX := (pivotToContainerX * currentCos + pivotToContainerY * currentSin) / scale in
  let localY := (- pivotToContainerX * currentSin + pivotToContainerY * currentCos) / scale in
  let newPivotToContainerX := (localX * newCos - localY * newSin) * newScale in
  pivotWorldX - containerCenterX - newPivotToContainerX.

End PinchFloat.

(** ** Where else the engine leaves the numbers, on binary64 floats *)
Module Binary64.
Import PrimFloat.
Local Open Scope float_scope.
Local Set Warnings "-inexact-float".

(** One axis of [clampPosition] (utils.ts, lines 162-163). *)
Definition clampAxis (min max next : float) : float :=
  PinchFloat.Math_min max (PinchFloat.Math_max min next).

(** The scale velocity of [handlePointerMove] (events.ts, lines 238-243).
    [lastScale] is the number the field converts to: [NaN] while the field
    is [undefined]. *)
Definition scaleVelocity (scale lastScale dt : float) : float :=
  let scaleDiff := scale - lastScale in
  let scaleVelocity := scaleDiff / dt * 16 in
  PinchFloat.Math_max (-0.01) (PinchFloat.Math_min 0.01 scaleVelocity).

(** The stop test of [animateKinetic] (core.ts, line 189). *)
Definition kineticAtRest (velocityX velocityY velocityScale : float) : bool :=
  (abs velocityX <? 0.5) && (abs velocityY <? 0.5) && (abs velocityScale <? 0.001).

(** The scale lines of [animateKinetic] (core.ts, lines 198-202). *)
Definition kineticScale (minScale maxScale scale velocityScale : float) : float :=
  let scale := scale + velocityScale in
  let scale := if scale <? minScale then minScale else scale in
  let scale := if maxScale <? scale then maxScale else scale in
  scale.

(** The [x] that [handleDoubleClick] hands to [clampPosition] (events.ts,
    lines 274-288). *)
Definition doubleClick_x (rectLeft rectWidth clientX : float)
    (x scale maxScale : float) : float :=
  let centerX := rectWidth / 2 in
  let clickX := clientX - rectLeft in
  let targetScale := PinchFloat.Math_min (scale * 1.5) maxScale in
  let scaleRatio := targetScale / scale in
  let localX := clickX - centerX - x in
  let newLocalX := localX * scaleRatio in
  x + (localX - newLocalX).

End Binary64.

(** ** Runs of the engine *)

(** A pinch move divides by the start distance; the real-number model covers
    the move when that distance is not zero. *)
Definition pinchDefined (e : TouchEvent.t) (instance : Instance.t) : Prop :=
  Instance.isPinching instance = true ->
  length (TouchEvent.touches e) = 2%nat ->
  Instance.touchStartDistance instance <> 0.

(** [handlePointerMove] subtracts [lastScale]; the real-number model covers
    the move when no pan is in progress, or when the field has been assigned
    ([assigned] is the flag a run keeps for it). *)
Definition lastScaleDefined (assigned : bool) (instance : Instance.t) : Prop :=
  Instance.isPanning instance = true -> assigned = true.

(** One input event, animation frame or API call.  The flag before and
    after the instance says whether [lastScale] has been assigned: a primary
    pointer press and a one-finger touch start assign it.  Event data, frame
    times, DOM readings and API arguments are finite numbers.  The handlers
    that divide by the scale do so by a positive scale in every run from
    options with [0 < minScale], whose states all have [minScale <= scale]. *)
Inductive step : bool -> Instance.t -> bool -> Instance.t -> Prop :=
| step_wheel dom e a i : step a i a (handleWheel dom e i)
| step_pointerDown now e a i :
    step a i (a || Z.eqb (PointerEvent.button e) 0) (handlePointerDown now e i)
| step_pointerMove dom now e a i :
    lastScaleDefined a i -> step a i a (handlePointerMove dom now e i)
| step_pointerUp dom now e a i : step a i a (handlePointerUp dom now e i)
| step_doubleClick dom e a i : step a i a (handleDoubleClick dom e i)
| step_touchStart now e a i :
    step a i (a || Nat.eqb (length (TouchEvent.touches e)) 1)
      (handleTouchStart now e i)
| step_touchMove dom now e a i :
    pinchDefined e i -> step a i a (handleTouchMove dom now e i)
| step_touchEnd dom now e a i : step a i a (handleTouchEnd dom now e i)
| step_frame dom now a i : step a i a (runFrame dom now i)
| step_zoomToPoint dom cx cy d a i : step a i a (zoomToPoint dom cx cy d i)
| step_reset dom a i : step a i a (reset dom i)
| step_rotate dom deg a i : step a i a (rotate dom deg i)
| step_setTransform dom t u a i : step a i a (setTransform dom t u i)
| step_moveTo dom tx ty u a i : step a i a (moveTo dom tx ty u i)
| step_moveBy dom dx dy u a i : step a i a (moveBy dom dx dy u i)
| step_zoomTo dom s px py u a i : step a i a (zoomTo dom s px py u i)
| step_centerOnImagePoint dom ix iy u a i :
    step a i a (centerOnImagePoint dom ix iy u i).

(** The states an instance built with options [o] can be in, each with the
    flag of [lastScale]; the constructor leaves the field unassigned. *)
Inductive run (o : PartialOptions.t) : bool -> Instance.t -> Prop :=
| run_new dom unset : run o false (constructor dom o unset)
| run_step a i a' i' : run o a i -> step a i a' i' -> run o a' i'.

(** The kinetic tick of [core.ts] invoked once per frame, at the given frame
    times. *)
Definition kineticRun (dom : Dom.t) (times : list R) (instance : Instance.t)
    : Instance.t :=
  fold_left (fun i now => animateKinetic dom now i) times instance.

(** The hard bounds of the current state. *)
Definition hardBounds (dom : Dom.t) (instance : Instance.t) : Bounds.t :=
  fst (calculateBoundaries dom instance false).

Definition withinBounds (b : Bounds.t) (px py : R) : Prop :=
  Bounds.minX b <= px <= Bounds.maxX b /\ Bounds.minY b <= py <= Bounds.maxY b.

(** The padding [pad] of [getSizes]. *)
Definition padding (dom : Dom.t) (instance : Instance.t) : R :=
  ElementSizes.boundsPadding (getSizes dom instance).


(** Both ranges of a bounds record are non-empty. *)
Definition ordered (b : Bounds.t) : Prop :=
  Bounds.minX b <= Bounds.maxX b /\ Bounds.minY b <= Bounds.maxY b.

(** Two instances that [getSizes] cannot tell apart. *)
Definition sameShape (i j : Instance.t) : Prop :=
  options j = options i /\ scale j = scale i /\ rotation j = rotation i.

(** Two instances with the same transform, velocities, elastic offsets and
    options: what the animation bookkeeping leaves untouched. *)
Definition sameMotion (i j : Instance.t) : Prop :=
  options j = options i /\ scale j = scale i /\ rotation j = rotation i
  /\ Instance.x j = Instance.x i /\ Instance.y j = Instance.y i
  /\ velocityX j = velocityX i /\ velocityY j = velocityY i
  /\ velocityScale j = velocityScale i
  /\ elasticX j = elasticX i /\ elasticY j = elasticY i.

(** Two instances with the same gesture bookkeeping: the pan and pinch
    flags, the press anchor and the last move sample. *)
Definition sameGesture (i j : Instance.t) : Prop :=
  Instance.isPinching j = Instance.isPinching i
  /\ Instance.isPanning j = Instance.isPanning i
  /\ Instance.didMove j = Instance.didMove i
  /\ Instance.startClientX j = Instance.startClientX i
  /\ Instance.startClientY j = Instance.startClientY i
  /\ Instance.startX j = Instance.startX i
  /\ Instance.startY j = Instance.startY i
  /\ Instance.lastClientX j = Instance.lastClientX i
  /\ Instance.lastClientY j = Instance.lastClientY i
  /\ Instance.lastMoveTime j = Instance.lastMoveTime i.

(** Two instances that differ at most in their elastic offsets, as far as
    transform, velocities and options go. *)
Definition sameButElastic (i j : Instance.t) : Prop :=
  options j = options i /\ scale j = scale i /\ rotation j = rotation i
  /\ Instance.x j = Instance.x i /\ Instance.y j = Instance.y i
  /\ velocityX j = velocityX i /\ velocityY j = velocityY i
  /\ velocityScale j = velocityScale i.

(** How one step may change the scale: not at all, to a clamped value, to
    the double-tap target, or to the initial scale; the options stay. *)
Definition scaleStep (i i' : Instance.t) : Prop :=
  options i' = options i
  /\ (scale i' = scale i
      \/ (exists v, scale i' = clampScale i v)
      \/ scale i' = Rmin (scale i * 1.5) (Options.maxScale (options i))
      \/ scale i' = Options.initialScale (options i)).

(** The scale-range invariant of an instance. *)
Definition scaleInRange (i : Instance.t) : Prop :=
  Options.minScale (options i) <= scale i <= Options.maxScale (options i).

(** The two touches the pinch branch of [handleTouchMove] works with: the
    touches of the event that carry the two tracked identifiers, or the
    first and second touch of the event when either identifier is missing. *)
Definition pinchFingers (instance : Instance.t) (first second : Touch.t)
    : Touch.t * Touch.t :=
  match findTouch (fst (Instance.touchIds instance)) [first; second],
        findTouch (snd (Instance.touchIds instance)) [first; second] with
  | Some t1, Some t2 => (t1, t2)
  | _, _ => (first, second)
  end.

(** The value of the pinch branch of [handleTouchMove] once its two tracked
    touches are determined; used to state lemmas about that branch. *)
Definition pinchResult (dom : Dom.t) (touch1 touch2 : Touch.t) (i : Instance.t)
    : Instance.t :=
  let i1 := setTouchPoint touch2 (setTouchPoint touch1 i) in
  let currentDistance :=
    getDistance (Touch.clientX touch1) (Touch.clientY touch1)
      (Touch.clientX touch2) (Touch.clientY touch2) in
  let currentAngle :=
    getAngle (Touch.clientX touch1) (Touch.clientY touch1)
      (Touch.clientX touch2) (Touch.clientY touch2) in
  let newScale :=
    Instance.touchStartScale i
    * (currentDistance / Instance.touchStartDistance i)
    * Options.pinchSpeed (options i) in
  let newRotation :=
    if Options.enableRotation (options i) then
      js_rem (Instance.initialRotation i
              + (currentAngle - Instance.touchStartAngle i) * (180 / PI) + 180) 360
      - 180
    else rotation i in
  let center :=
    getCenter (Touch.clientX touch1) (Touch.clientY touch1)
      (Touch.clientX touch2) (Touch.clientY touch2) in
  applyTransform dom false
    (applyAroundPivot dom (Point.x center) (Point.y center)
       (clampScale i newScale) newRotation i1).
(** ** Sample data *)

Definition noOptions : PartialOptions.t :=
  PartialOptions.mk None None None None None None None None None None None None
    None None.

Definition defaultOptions : Options.t := resolveOptions noOptions.

(** An idle instance with the default options, scale 1 and no translation. *)
Definition idle : Instance.t :=
  Instance.mk defaultOptions 1 0 0 0 0 0 0 0 0 false false 0 0 0 0 0 0 0 1 3
    1 1 0 0 false (None, None) [] None false None 0 0 0 300 10 [] 0.

(** A 500 x 500 container at the page origin holding 1000 x 1000 content. *)
Definition dom500 : Dom.t :=
  Dom.mk (DOMRect.mk 0 0 500 500) 1000 1000 (DOMRect.mk (-250) (-250) 1000 1000).

(** A pinch-rotated state: scale 2, translation (30, -40), rotation 90. *)
Definition turned : Instance.t :=
  Instance.set_rotation 90
    (Instance.set_y (-40) (Instance.set_x 30 (Instance.set_scale 2 idle))).


(** A 500 x 500 container holding content 100 wide and 1000 high: it fits
    horizontally and overflows vertically at scale 1. *)
Definition domTall : Dom.t :=
  Dom.mk (DOMRect.mk 0 0 500 500) 100 1000 (DOMRect.mk 200 (-250) 100 1000).


(** Options with a negative bounds padding, everything else default. *)
Definition negativePadding : PartialOptions.t :=
  PartialOptions.mk None None None None (Some (-1)) None None None None None None
    None None None.

(** The idle instance configured with [negativePadding]. *)
Definition cramped : Instance.t :=
  Instance.set_options (resolveOptions negativePadding) idle.

(** The idle instance dragged to x = 400, past the right hard bound of
    [dom500]. *)
Definition dragged : Instance.t := Instance.set_x 400 idle.

(** A state in the middle of a kinetic run: zoomed, rotated, moving, with an
    elastic offset and a kinetic frame waiting. *)
Definition busy : Instance.t :=
  Instance.set_rafNext 5
    (Instance.set_rafQueue [(4%nat, KineticTick)]
       (Instance.set_animationFrameId (Some 4%nat)
          (Instance.set_elasticX 3
             (Instance.set_velocityScale 0.002
                (Instance.set_velocityX 12 turned))))).

(** The default options with the rotation gesture switched on. *)
Definition rotatingOptions : Options.t :=
  Options.mk 0.5 3 1 0.0015 0.1 0.92 300 false 1 true 0.15 0.3 5 true.

(** A pinch in progress: fingers 1 and 2 went down 10 px apart on a
    horizontal line while the rotation was [startRotation]. *)
Definition pinching (startRotation : R) : Instance.t :=
  Instance.set_initialRotation startRotation
    (Instance.set_rotation startRotation
       (Instance.set_touchStartAngle 0
          (Instance.set_touchStartScale 1
             (Instance.set_touchStartDistance 10
                (Instance.set_touchIds (Some 1%nat, Some 2%nat)
                   (Instance.set_isPinching true
                      (Instance.set_options rotatingOptions idle))))))).

(** A move event with finger 1 at (x1, y1) and finger 2 at (x2, y2). *)
Definition twoFingers (x1 y1 x2 y2 : R) : TouchEvent.t :=
  TouchEvent.mk [Touch.mk 1 x1 y1; Touch.mk 2 x2 y2] [Touch.mk 2 x2 y2].

(** The idle instance released with a horizontal velocity of 10 px per tick. *)
Definition flung : Instance.t := Instance.set_velocityX 10 idle.

(** Options whose initial scale lies above the default maximum scale. *)
Definition oversized : PartialOptions.t :=
  PartialOptions.mk None None (Some 5) None None None None None None None None
    None None None.

(** A wheel event at the container centre that scrolls up by 100. *)
Definition wheelUp : WheelEvent.t := WheelEvent.mk (-100) 250 250.

(** An instance whose minimum scale is negative, mirrored to scale -1.5. *)
Definition mirrored : Instance.t :=
  Instance.set_scale (-1.5)
    (Instance.set_options
       (Options.mk (-2) 3 1 0.0015 0.1 0.92 300 false 1 true 0.15 0.3 5 false)
       idle).

(** Two fingers 10 px apart on a horizontal line at y = 250. *)
Definition fingerA : Touch.t := Touch.mk 1 245 250.
Definition fingerB : Touch.t := Touch.mk 2 255 250.

(** A drag in progress on the idle instance: pressed at (0, 0) at time 0 and
    already past the drag threshold. *)
Definition dragging : Instance.t :=
  Instance.set_didMove true (Instance.set_isPanning true idle).

(** The pointer at (40, 30) with the primary button. *)
Definition pointerAt4030 : PointerEvent.t := PointerEvent.mk 0 40 30 1.
(** * Properties *)

(** ** Comparisons *)

Lemma Rltb_true (a b : R) : (a <? b) = true <-> a < b.
Proof. unfold Rltb. destruct (Rlt_dec a b); split; intros; try easy; lra. Qed.

Lemma Rltb_false (a b : R) : (a <? b) = false <-> b <= a.
Proof. unfold Rltb. destruct (Rlt_dec a b); split; intros; try easy; lra. Qed.

Lemma Rleb_true (a b : R) : (a <=? b) = true <-> a <= b.
Proof. unfold Rleb. destruct (Rle_dec a b); split; intros; try easy; lra. Qed.

Lemma Rleb_false (a b : R) : (a <=? b) = false <-> b < a.
Proof. unfold Rleb. destruct (Rle_dec a b); split; intros; try easy; lra. Qed.

Lemma Rgtb_true (a b : R) : (a >? b) = true <-> b < a.
Proof. unfold Rgtb. apply Rltb_true. Qed.

Lemma Rgtb_false (a b : R) : (a >? b) = false <-> a <= b.
Proof. unfold Rgtb. apply Rltb_false. Qed.

Lemma Reqb_true (a b : R) : (a =? b) = true <-> a = b.
Proof. unfold Reqb. destruct (Req_dec_T a b); split; intros; try easy. Qed.

(** Clamping into a non-empty range lands in the range and fixes its points. *)
Lemma clamp_range (lo hi v : R) :
  lo <= hi -> lo <= Rmin hi (Rmax lo v) <= hi.
Proof.
  intros H. unfold Rmin, Rmax.
  destruct (Rle_dec lo v); destruct (Rle_dec hi _); lra.
Qed.

Lemma clamp_fixed (lo hi v : R) :
  lo <= v <= hi -> Rmin hi (Rmax lo v) = v.
Proof.
  intros H. unfold Rmin, Rmax.
  destruct (Rle_dec lo v); destruct (Rle_dec hi _); lra.
Qed.

(** ** clampScale *)

(** The clamp of the model, on numbers: under [minScale <= maxScale],
    [clampScale s] lies in [[minScale, maxScale]] and it returns [s] itself
    when [s] already lies there. *)
Lemma clampScale_range_and_fixed (instance : Instance.t) (s : R) :
  Options.minScale (options instance) <= Options.maxScale (options instance) ->
  (Options.minScale (options instance) <= clampScale instance s
     <= Options.maxScale (options instance))
  /\ (Options.minScale (options instance) <= s
        <= Options.maxScale (options instance) ->
      clampScale instance s = s).
Proof.
  intros Hrange. unfold clampScale. split.
  - apply clamp_range. exact Hrange.
  - intros Hin. apply clamp_fixed. exact Hin.
Qed.

Lemma clampScale_range_and_fixed_witness :
  Options.minScale (options idle) <= Options.maxScale (options idle)
  /\ (0.5 <= clampScale idle 7 <= 3)
  /\ (0.5 <= 2 <= 3 -> clampScale idle 2 = 2).
Proof.
  assert (H : Options.minScale (options idle) <= Options.maxScale (options idle))
    by (simpl; lra).
  split; [exact H|]. split.
  - apply (clampScale_range_and_fixed idle 7 H).
  - apply (clampScale_range_and_fixed idle 2 H).
Defined.

(** ** Coordinate conversions *)

(** C2. At a fixed transform with [scale > 0] and fixed geometry,
    [containerToImage] and [imageToContainer] undo each other in both orders,
    for every point and whatever the rotation is. *)
Theorem containerToImage_imageToContainer_inverse
    (dom : Dom.t) (instance : Instance.t) (px py qx qy : R) :
  0 < scale instance ->
  (let p' := containerToImage dom instance px py in
   imageToContainer dom instance (Point.x p') (Point.y p') = Point.mk px py)
  /\ (let q' := imageToContainer dom instance qx qy in
      containerToImage dom instance (Point.x q') (Point.y q') = Point.mk qx qy).
Proof.
  intros Hs. unfold containerToImage, imageToContainer. cbn.
  split; f_equal; field; lra.
Qed.

Lemma containerToImage_imageToContainer_inverse_witness :
  0 < scale turned
  /\ (let p' := containerToImage dom500 turned 12 34 in
      imageToContainer dom500 turned (Point.x p') (Point.y p') = Point.mk 12 34)
  /\ (let q' := imageToContainer dom500 turned 56 78 in
      containerToImage dom500 turned (Point.x q') (Point.y q') = Point.mk 56 78).
Proof.
  assert (H : 0 < scale turned) by (simpl; lra).
  split; [exact H|].
  apply (containerToImage_imageToContainer_inverse dom500 turned 12 34 56 78 H).
Defined.

(** ** Pivot math *)

Lemma neg_angle (r : R) : - r * PI / 180 = - (r * PI / 180).
Proof. lra. Qed.

(** [worldToLocal] and [localToWorld] are inverse point maps when the scale
    is not zero. *)
Lemma localToWorld_worldToLocal (dom : Dom.t) (instance : Instance.t) (wx wy : R) :
  scale instance <> 0 ->
  let l := worldToLocal dom instance wx wy in
  localToWorld dom instance (Point.x l) (Point.y l) = Point.mk wx wy.
Proof.
  intros Hs. unfold worldToLocal, localToWorld. cbn.
  rewrite neg_angle, cos_neg, sin_neg.
  pose proof (sin2_cos2 (rotation instance * PI / 180)) as Hu.
  unfold Rsqr in Hu.
  set (c := cos (rotation instance * PI / 180)) in *.
  set (s := sin (rotation instance * PI / 180)) in *.
  assert (Hs2 : s ^ 2 = 1 - c ^ 2) by (simpl; lra).
  f_equal; field_simplify_eq; trivial; rewrite ?Hs2; ring.
Qed.

Lemma worldToLocal_localToWorld (dom : Dom.t) (instance : Instance.t) (lx ly : R) :
  scale instance <> 0 ->
  let w := localToWorld dom instance lx ly in
  worldToLocal dom instance (Point.x w) (Point.y w) = Point.mk lx ly.
Proof.
  intros Hs. unfold worldToLocal, localToWorld. cbn.
  rewrite neg_angle, cos_neg, sin_neg.
  pose proof (sin2_cos2 (rotation instance * PI / 180)) as Hu.
  unfold Rsqr in Hu.
  set (c := cos (rotation instance * PI / 180)) in *.
  set (s := sin (rotation instance * PI / 180)) in *.
  assert (Hs2 : s ^ 2 = 1 - c ^ 2) by (simpl; lra).
  f_equal; field_simplify_eq; trivial; rewrite ?Hs2; ring.
Qed.

(** C1. Pivot preservation: with [scale > 0] before the call and
    [newScale > 0], the content-local point that lay under the pivot [P] is
    mapped by the transform that [applyAroundPivot P newScale newRotation]
    leaves (new scale, new rotation, new translation) back onto [P]; said
    the other way round, [P] still lies over the same content-local point. *)
Theorem applyAroundPivot_preserves_pivot
    (dom : Dom.t) (instance : Instance.t) (Px Py newScale newRotation : R) :
  0 < scale instance ->
  0 < newScale ->
  let l := worldToLocal dom instance Px Py in
  let instance' := applyAroundPivot dom Px Py newScale newRotation instance in
  scale instance' = newScale
  /\ rotation instance' = newRotation
  /\ localToWorld dom instance' (Point.x l) (Point.y l) = Point.mk Px Py
  /\ worldToLocal dom instance' Px Py = l.
Proof.
  intros Hs Hn l instance'.
  assert (Hfwd : localToWorld dom instance' (Point.x l) (Point.y l) = Point.mk Px Py).
  { unfold instance', l, applyAroundPivot, worldToLocal, localToWorld. cbn.
    rewrite neg_angle, cos_neg, sin_neg.
    f_equal; field; lra. }
  repeat split; trivial.
  assert (Hne : scale instance' <> 0).
  { unfold instance', applyAroundPivot. cbn. lra. }
  pose proof (worldToLocal_localToWorld dom instance' (Point.x l) (Point.y l) Hne)
    as Hback.
  cbv zeta in Hback. rewrite Hfwd in Hback. cbn [Point.x Point.y] in Hback.
  rewrite Hback. destruct l; reflexivity.
Qed.

Lemma applyAroundPivot_preserves_pivot_witness :
  0 < scale turned
  /\ 0 < 3
  /\ (let l := worldToLocal dom500 turned 100 200 in
      let instance' := applyAroundPivot dom500 100 200 3 45 turned in
      scale instance' = 3
      /\ rotation instance' = 45
      /\ localToWorld dom500 instance' (Point.x l) (Point.y l) = Point.mk 100 200
      /\ worldToLocal dom500 instance' 100 200 = l).
Proof.
  assert (H : 0 < scale turned) by (simpl; lra).
  assert (H3 : 0 < 3) by lra.
  split; [exact H|]. split; [exact H3|].
  apply (applyAroundPivot_preserves_pivot dom500 turned 100 200 3 45 H H3).
Defined.

(** ** Boundary and clamp model *)

(** The fields of [getSizes], one equation each. *)
Lemma getSizes_fitsHorizontally (dom : Dom.t) (instance : Instance.t) :
  ElementSizes.fitsHorizontally (getSizes dom instance)
  = (ElementSizes.contentWidth (getSizes dom instance)
       <=? DOMRect.width (Dom.containerRect dom)).
Proof.
  unfold getSizes.
  destruct (_ <=? DOMRect.width _) eqn:E1; destruct (_ <=? DOMRect.height _) eqn:E2;
    cbn; rewrite ?E1, ?E2; reflexivity.
Qed.

Lemma getSizes_fitsVertically (dom : Dom.t) (instance : Instance.t) :
  ElementSizes.fitsVertically (getSizes dom instance)
  = (ElementSizes.contentHeight (getSizes dom instance)
       <=? DOMRect.height (Dom.containerRect dom)).
Proof.
  unfold getSizes.
  destruct (_ <=? DOMRect.width _) eqn:E1; destruct (_ <=? DOMRect.height _) eqn:E2;
    cbn; rewrite ?E1, ?E2; reflexivity.
Qed.

Lemma getSizes_boundsX (dom : Dom.t) (instance : Instance.t) :
  let sizes := getSizes dom instance in
  let d := ElementSizes.contentWidth sizes / 2
           - DOMRect.width (Dom.containerRect dom) / 2 in
  (ElementSizes.minX sizes, ElementSizes.maxX sizes)
  = if ElementSizes.fitsHorizontally sizes then (0, 0)
    else (- d - ElementSizes.boundsPadding sizes, d + ElementSizes.boundsPadding sizes).
Proof.
  unfold getSizes.
  destruct (_ <=? DOMRect.width _) eqn:E1; destruct (_ <=? DOMRect.height _) eqn:E2;
    cbn; rewrite ?E1, ?E2; reflexivity.
Qed.

Lemma getSizes_boundsY (dom : Dom.t) (instance : Instance.t) :
  let sizes := getSizes dom instance in
  let d := ElementSizes.contentHeight sizes / 2
           - DOMRect.height (Dom.containerRect dom) / 2 in
  (ElementSizes.minY sizes, ElementSizes.maxY sizes)
  = if ElementSizes.fitsVertically sizes then (0, 0)
    else (- d - ElementSizes.boundsPadding sizes, d + ElementSizes.boundsPadding sizes).
Proof.
  unfold getSizes.
  destruct (_ <=? DOMRect.width _) eqn:E1; destruct (_ <=? DOMRect.height _) eqn:E2;
    cbn; rewrite ?E1, ?E2; reflexivity.
Qed.

(** [getSizes] reads the scale, the rotation and the options only. *)
Lemma getSizes_ext (dom : Dom.t) (i j : Instance.t) :
  scale i = scale j -> rotation i = rotation j -> options i = options j ->
  getSizes dom i = getSizes dom j.
Proof. intros Hs Hr Ho. unfold getSizes. rewrite Hs, Hr, Ho. reflexivity. Qed.


(** Without the elastic variant the bounds are the hard bounds of [getSizes]
    and the instance is left alone. *)
Lemma calculateBoundaries_hard (dom : Dom.t) (instance : Instance.t) :
  calculateBoundaries dom instance false
  = (Bounds.mk (ElementSizes.minX (getSizes dom instance))
       (ElementSizes.maxX (getSizes dom instance))
       (ElementSizes.minY (getSizes dom instance))
       (ElementSizes.maxY (getSizes dom instance)), instance).
Proof. reflexivity. Qed.



(** With no rotation the footprint is the scaled layout size. *)
Lemma getSizes_unrotated (dom : Dom.t) (instance : Instance.t) :
  rotation instance = 0 ->
  ElementSizes.contentWidth (getSizes dom instance)
    = Dom.offsetWidth dom * scale instance
  /\ ElementSizes.contentHeight (getSizes dom instance)
    = Dom.offsetHeight dom * scale instance.
Proof.
  intros Hr.
  assert (Hc : ElementSizes.contentWidth (getSizes dom instance)
    = Dom.offsetWidth dom * scale instance * Rabs (cos (rotation instance * PI / 180))
      + Dom.offsetHeight dom * scale instance * Rabs (sin (rotation instance * PI / 180))).
  { unfold getSizes.
    destruct (_ <=? DOMRect.width _); destruct (_ <=? DOMRect.height _); reflexivity. }
  assert (Hh : ElementSizes.contentHeight (getSizes dom instance)
    = Dom.offsetWidth dom * scale instance * Rabs (sin (rotation instance * PI / 180))
      + Dom.offsetHeight dom * scale instance * Rabs (cos (rotation instance * PI / 180))).
  { unfold getSizes.
    destruct (_ <=? DOMRect.width _); destruct (_ <=? DOMRect.height _); reflexivity. }
  rewrite Hc, Hh, Hr.
  replace (0 * PI / 180) with 0 by lra.
  rewrite cos_0, sin_0, Rabs_R1, Rabs_R0. split; ring.
Qed.





(** ** Publishing: applyTransform *)

Lemma sameShape_refl (i : Instance.t) : sameShape i i.
Proof. repeat split. Qed.

Lemma sameShape_trans (i j k : Instance.t) :
  sameShape i j -> sameShape j k -> sameShape i k.
Proof. unfold sameShape. intros (?&?&?) (?&?&?). repeat split; congruence. Qed.

Lemma sameShape_hardBounds (dom : Dom.t) (i j : Instance.t) :
  sameShape i j -> hardBounds dom j = hardBounds dom i.
Proof.
  intros (Ho & Hs & Hr). unfold hardBounds.
  rewrite !calculateBoundaries_hard. cbn [fst].
  rewrite (getSizes_ext dom j i Hs Hr Ho). reflexivity.
Qed.

(** [applyTransform] written out: the hard clamp of the translation, then
    both elastic offsets cleared. *)
Lemma applyTransform_eq (dom : Dom.t) (useTransition : bool) (instance : Instance.t) :
  applyTransform dom useTransition instance
  = let b := hardBounds dom instance in
    Instance.set_elasticY 0
      (Instance.set_elasticX 0
         (Instance.set_y (Rmin (Bounds.maxY b) (Rmax (Bounds.minY b) (Instance.y instance)))
            (Instance.set_x
               (Rmin (Bounds.maxX b) (Rmax (Bounds.minX b) (Instance.x instance)))
               instance))).
Proof. reflexivity. Qed.

Lemma applyTransform_sameShape (dom : Dom.t) (u : bool) (instance : Instance.t) :
  sameShape instance (applyTransform dom u instance).
Proof. rewrite applyTransform_eq. repeat split. Qed.

(** The fields of the published state. *)
Lemma applyTransform_fields (dom : Dom.t) (u : bool) (i : Instance.t) :
  let b := hardBounds dom i in
  Instance.x (applyTransform dom u i)
    = Rmin (Bounds.maxX b) (Rmax (Bounds.minX b) (Instance.x i))
  /\ Instance.y (applyTransform dom u i)
    = Rmin (Bounds.maxY b) (Rmax (Bounds.minY b) (Instance.y i))
  /\ scale (applyTransform dom u i) = scale i
  /\ rotation (applyTransform dom u i) = rotation i
  /\ options (applyTransform dom u i) = options i.
Proof. repeat split. Qed.

(** A non-negative padding gives ordered hard bounds that contain 0. *)
Lemma hardBounds_padding (dom : Dom.t) (instance : Instance.t) :
  0 <= padding dom instance ->
  let b := hardBounds dom instance in
  (Bounds.minX b <= 0 <= Bounds.maxX b) /\ (Bounds.minY b <= 0 <= Bounds.maxY b).
Proof.
  intros Hpad. unfold hardBounds. rewrite calculateBoundaries_hard. cbn.
  pose proof (getSizes_boundsX dom instance) as HX.
  pose proof (getSizes_boundsY dom instance) as HY.
  cbv zeta in HX, HY. unfold padding in Hpad.
  rewrite getSizes_fitsHorizontally in HX. rewrite getSizes_fitsVertically in HY.
  split.
  - destruct (_ <=? _) eqn:E in HX; injection HX as -> ->; [lra|].
    apply Rleb_false in E. lra.
  - destruct (_ <=? _) eqn:E in HY; injection HY as -> ->; [lra|].
    apply Rleb_false in E. lra.
Qed.

Lemma padding_ordered (dom : Dom.t) (instance : Instance.t) :
  0 <= padding dom instance -> ordered (hardBounds dom instance).
Proof.
  intros H. destruct (hardBounds_padding dom instance H) as [HX HY].
  unfold ordered. lra.
Qed.

(** C7, as the code has it, for a state whose translation, scale, rotation
    and sizes are finite numbers.  Every call to [applyTransform] replaces
    the translation by its clamp into the hard bounds and then clears both
    elastic offsets; the hard bounds themselves are unchanged by the call.
    So in the published state both elastic offsets are zero, and the
    translation lies within the hard bounds whenever those bounds are
    ordered ([minX <= maxX] and [minY <= maxY]).  A translation that is
    [NaN] passes the clamp ([clampAxis_nan]). *)
Theorem applyTransform_publishes_clamped
    (dom : Dom.t) (useTransition : bool) (instance : Instance.t) :
  let published := applyTransform dom useTransition instance in
  let hard := hardBounds dom instance in
  Instance.x published
    = Rmin (Bounds.maxX hard) (Rmax (Bounds.minX hard) (Instance.x instance))
  /\ Instance.y published
    = Rmin (Bounds.maxY hard) (Rmax (Bounds.minY hard) (Instance.y instance))
  /\ hardBounds dom published = hard
  /\ elasticX published = 0
  /\ elasticY published = 0
  /\ (ordered hard ->
      withinBounds (hardBounds dom published)
        (Instance.x published) (Instance.y published)).
Proof.
  intros published hard.
  assert (Hsame : hardBounds dom published = hard).
  { apply sameShape_hardBounds. apply applyTransform_sameShape. }
  repeat split; try reflexivity; try exact Hsame.
  - rewrite Hsame. destruct H as [HX _]. apply clamp_range. exact HX.
  - rewrite Hsame. destruct H as [HX _]. apply clamp_range. exact HX.
  - rewrite Hsame. destruct H as [_ HY]. apply clamp_range. exact HY.
  - rewrite Hsame. destruct H as [_ HY]. apply clamp_range. exact HY.
Qed.

Lemma padding_eq (dom : Dom.t) (instance : Instance.t) :
  padding dom instance
  = Rmin (DOMRect.width (Dom.containerRect dom)) (DOMRect.height (Dom.containerRect dom))
    * Options.boundsPadding (options instance).
Proof.
  unfold padding, getSizes.
  destruct (_ <=? DOMRect.width _); destruct (_ <=? DOMRect.height _); reflexivity.
Qed.

(** Evaluate [Rmin] and [Rmax] on given numbers. *)
Ltac minmax := unfold Rmin, Rmax; repeat destruct (Rle_dec _ _); try lra.

(** The hard bounds of unrotated content that overflows on both axes. *)
Lemma hardBounds_unrotated_overflow (dom : Dom.t) (instance : Instance.t) :
  rotation instance = 0 ->
  DOMRect.width (Dom.containerRect dom) < Dom.offsetWidth dom * scale instance ->
  DOMRect.height (Dom.containerRect dom) < Dom.offsetHeight dom * scale instance ->
  let dx := Dom.offsetWidth dom * scale instance / 2
            - DOMRect.width (Dom.containerRect dom) / 2 in
  let dy := Dom.offsetHeight dom * scale instance / 2
            - DOMRect.height (Dom.containerRect dom) / 2 in
  hardBounds dom instance
  = Bounds.mk (- dx - padding dom instance) (dx + padding dom instance)
      (- dy - padding dom instance) (dy + padding dom instance).
Proof.
  intros Hr Hw Hh dx dy.
  destruct (getSizes_unrotated dom instance Hr) as [Ew Eh].
  pose proof (getSizes_boundsX dom instance) as HX.
  pose proof (getSizes_boundsY dom instance) as HY.
  cbv zeta in HX, HY.
  rewrite getSizes_fitsHorizontally, Ew in HX.
  rewrite getSizes_fitsVertically, Eh in HY.
  rewrite (proj2 (Rleb_false _ _) Hw) in HX.
  rewrite (proj2 (Rleb_false _ _) Hh) in HY.
  injection HX as HX1 HX2. injection HY as HY1 HY2.
  unfold hardBounds. rewrite calculateBoundaries_hard. cbn [fst].
  rewrite HX1, HX2, HY1, HY2. reflexivity.
Qed.

Lemma dom500_hardBounds (instance : Instance.t) :
  rotation instance = 0 -> scale instance = 1 ->
  hardBounds dom500 instance
  = Bounds.mk (- 250 - padding dom500 instance) (250 + padding dom500 instance)
      (- 250 - padding dom500 instance) (250 + padding dom500 instance).
Proof.
  intros Hr Hs.
  rewrite hardBounds_unrotated_overflow by (try rewrite Hs; cbn; try lra; exact Hr).
  rewrite Hs. cbn [dom500 Dom.offsetWidth Dom.offsetHeight Dom.containerRect
                   DOMRect.width DOMRect.height].
  f_equal; lra.
Qed.

Lemma applyTransform_publishes_clamped_witness :
  ordered (hardBounds dom500 dragged)
  /\ withinBounds (hardBounds dom500 (applyTransform dom500 false dragged))
       (Instance.x (applyTransform dom500 false dragged))
       (Instance.y (applyTransform dom500 false dragged)).
Proof.
  assert (H : ordered (hardBounds dom500 dragged)).
  { apply padding_ordered. rewrite padding_eq. cbn. minmax. }
  split; [exact H|].
  apply (applyTransform_publishes_clamped dom500 false dragged). exact H.
Defined.

(** C7 as stated fails for a negative [boundsPadding]: in a 500 x 500
    container with 1000 x 1000 content and [boundsPadding = -1] the hard
    range is [minX = 250 > maxX = -250], and the published translation
    [x = -250] is not inside it. *)
Lemma applyTransform_within_bounds_counterexample :
  let published := applyTransform dom500 false cramped in
  Bounds.minX (hardBounds dom500 published) = 250
  /\ Bounds.maxX (hardBounds dom500 published) = -250
  /\ Instance.x published = -250
  /\ ~ withinBounds (hardBounds dom500 published)
         (Instance.x published) (Instance.y published).
Proof.
  intros published.
  assert (Hpad : padding dom500 cramped = -500).
  { rewrite padding_eq. cbn. minmax. }
  assert (Hb : hardBounds dom500 cramped = Bounds.mk 250 (-250) 250 (-250)).
  { rewrite dom500_hardBounds by reflexivity. rewrite Hpad. f_equal; lra. }
  destruct (applyTransform_fields dom500 false cramped) as (Hx & Hy & _).
  assert (Hsame : hardBounds dom500 published = hardBounds dom500 cramped).
  { apply sameShape_hardBounds. apply applyTransform_sameShape. }
  cbv zeta in Hx, Hy. fold published in Hx, Hy.
  rewrite Hb in Hx, Hsame.
  cbn [Bounds.minX Bounds.maxX] in Hx. change (Instance.x cramped) with 0 in Hx.
  assert (Hx' : Instance.x published = -250) by (rewrite Hx; minmax).
  rewrite Hsame. cbn [Bounds.minX Bounds.maxX].
  repeat split; trivial.
  unfold withinBounds. rewrite Hx'. cbn. lra.
Qed.

(** ** Animation bookkeeping leaves the transform alone *)

Lemma sameMotion_refl (i : Instance.t) : sameMotion i i.
Proof. repeat split. Qed.

Lemma sameMotion_trans (i j k : Instance.t) :
  sameMotion i j -> sameMotion j k -> sameMotion i k.
Proof.
  unfold sameMotion.
  intros (?&?&?&?&?&?&?&?&?&?) (?&?&?&?&?&?&?&?&?&?). repeat split; congruence.
Qed.

Lemma sameMotion_sameShape (i j : Instance.t) : sameMotion i j -> sameShape i j.
Proof. unfold sameMotion, sameShape. intros (?&?&?&_). repeat split; assumption. Qed.

Lemma cancelAnimationFrame_sameMotion (id : nat) (i : Instance.t) :
  sameMotion i (cancelAnimationFrame id i).
Proof. repeat split. Qed.

Lemma requestAnimationFrame_sameMotion (cb : Callback) (i : Instance.t) :
  sameMotion i (snd (requestAnimationFrame cb i)).
Proof. repeat split. Qed.

Lemma stopAnimation_sameMotion (i : Instance.t) : sameMotion i (stopAnimation i).
Proof.
  unfold stopAnimation.
  destruct (Instance.animationFrameId i);
    match goal with |- context [match ?o with _ => _ end] => destruct o end;
    repeat split.
Qed.

Lemma stopAnimation_handles (i : Instance.t) :
  Instance.animationFrameId (stopAnimation i) = None
  /\ Instance.elasticAnimationId (stopAnimation i) = None.
Proof.
  unfold stopAnimation.
  destruct (Instance.animationFrameId i) eqn:E1;
    match goal with |- context [match ?o with _ => _ end] => destruct o eqn:E2 end;
    cbn in *; auto.
Qed.

Lemma animateElasticReturn_sameMotion (dom : Dom.t) (now : R) (i : Instance.t) :
  sameMotion i (animateElasticReturn dom now i).
Proof.
  unfold animateElasticReturn.
  destruct (_ || _); [apply sameMotion_refl|].
  rewrite calculateBoundaries_hard.
  destruct (_ && _); [apply sameMotion_refl|].
  pose proof (stopAnimation_sameMotion (Instance.set_isAnimatingElastic true i)) as H.
  set (stopped := stopAnimation _) in *.
  unfold requestAnimationFrame, sameMotion in *. cbn in *. exact H.
Qed.

(** ** reset *)

(** C10, as the code has it.  From every prior state, [reset] leaves the
    scale at [initialScale] and the rotation at 0.  The translation is the
    hard clamp of (0, 0), which is (0, 0) whenever the bounds padding
    [min(containerWidth, containerHeight) * boundsPadding] is not
    negative. *)
Theorem reset_restores_initial (dom : Dom.t) (instance : Instance.t) :
  let instance' := reset dom instance in
  scale instance' = Options.initialScale (options instance)
  /\ rotation instance' = 0
  /\ (0 <= padding dom instance ->
      Instance.x instance' = 0 /\ Instance.y instance' = 0).
Proof.
  intros instance'. unfold instance', reset.
  destruct (stopAnimation_sameMotion instance) as (Ho & _).
  remember (stopAnimation instance) as stopped eqn:Hstop. clear Hstop.
  match goal with |- context [applyTransform dom true ?s] =>
    remember s as cleared eqn:Hc end.
  assert (Hfacts : options cleared = options stopped
                   /\ scale cleared = Options.initialScale (options stopped)
                   /\ rotation cleared = 0
                   /\ Instance.x cleared = 0 /\ Instance.y cleared = 0).
  { rewrite Hc. repeat split. }
  clear Hc. destruct Hfacts as (Hco & Hcs & Hcr & Hcx & Hcy).
  destruct (applyTransform_fields dom true cleared) as (Ex & Ey & Es & Er & _).
  rewrite Ex, Ey, Es, Er, Hcs, Hcr, Hcx, Hcy, Ho.
  split; [reflexivity|]. split; [reflexivity|].
  intros Hpad.
  assert (Hp : 0 <= padding dom cleared).
  { rewrite padding_eq in *. rewrite Hco, Ho. exact Hpad. }
  destruct (hardBounds_padding dom cleared Hp) as [HX HY].
  split; apply clamp_fixed; assumption.
Qed.

Lemma reset_restores_initial_witness :
  0 <= padding dom500 busy
  /\ scale (reset dom500 busy) = 1
  /\ Instance.x (reset dom500 busy) = 0
  /\ Instance.y (reset dom500 busy) = 0
  /\ rotation (reset dom500 busy) = 0.
Proof.
  assert (H : 0 <= padding dom500 busy) by (rewrite padding_eq; cbn; minmax).
  split; [exact H|].
  destruct (reset_restores_initial dom500 busy) as (Hs & Hr & Hxy).
  destruct (Hxy H) as (Hx & Hy).
  split; [exact Hs|]. split; [exact Hx|]. split; [exact Hy | exact Hr].
Defined.

(** C10 as stated fails for a negative [boundsPadding]: an instance built
    in a 500 x 500 container with 1000 x 1000 content and
    [boundsPadding = -1] has [x = y = -250] after [reset()]. *)
Lemma reset_translation_counterexample :
  let instance := constructor dom500 negativePadding idle in
  Instance.x (reset dom500 instance) = -250
  /\ Instance.y (reset dom500 instance) = -250
  /\ Instance.x (reset dom500 instance) <> 0.
Proof.
  intros instance.
  assert (Hx : Instance.x (reset dom500 instance) = -250
               /\ Instance.y (reset dom500 instance) = -250).
  { unfold reset. rewrite applyTransform_eq. cbv zeta.
    match goal with |- context [hardBounds dom500 ?s] => set (cleared := s) end.
    assert (Hpad : padding dom500 cleared = -500).
    { rewrite padding_eq. cbn. minmax. }
    rewrite (dom500_hardBounds cleared eq_refl eq_refl), Hpad.
    cbn [Instance.x Instance.y Instance.set_elasticX Instance.set_elasticY
         Instance.set_x Instance.set_y Bounds.minX Bounds.maxX Bounds.minY Bounds.maxY].
    change (Instance.x cleared) with 0. change (Instance.y cleared) with 0.
    split; minmax. }
  destruct Hx as [Hx Hy]. rewrite Hx, Hy. repeat split; lra.
Qed.

(** ** The truncating remainder *)

Lemma Rtrunc_nonneg (r : R) : 0 <= r -> IZR (Rtrunc r) <= r < IZR (Rtrunc r) + 1.
Proof.
  intros H. unfold Rtrunc. destruct (Rle_dec 0 r); [|lra].
  destruct (base_Int_part r). lra.
Qed.

Lemma Rtrunc_neg (r : R) : r < 0 -> IZR (Rtrunc r) - 1 < r <= IZR (Rtrunc r).
Proof.
  intros H. unfold Rtrunc. destruct (Rle_dec 0 r); [lra|].
  rewrite opp_IZR. destruct (base_Int_part (- r)). lra.
Qed.

(** A non-negative dividend leaves a remainder in [[0, b)]. *)
Lemma js_rem_nonneg (a b : R) : 0 < b -> 0 <= a -> 0 <= js_rem a b < b.
Proof.
  intros Hb Ha. unfold js_rem.
  assert (Hq : 0 <= a / b).
  { unfold Rdiv. apply Rmult_le_pos; [lra | left; apply Rinv_0_lt_compat; lra]. }
  destruct (Rtrunc_nonneg _ Hq) as [Hlo Hhi].
  assert (Hab : a / b * b = a) by (field; lra).
  set (k := IZR (Rtrunc (a / b))) in *. nra.
Qed.

(** A negative dividend leaves a remainder in [(-b, 0]]. *)
Lemma js_rem_neg (a b : R) : 0 < b -> a < 0 -> - b < js_rem a b <= 0.
Proof.
  intros Hb Ha. unfold js_rem.
  assert (Hq : a / b < 0).
  { unfold Rdiv. apply Rmult_neg_pos; [lra | apply Rinv_0_lt_compat; lra]. }
  destruct (Rtrunc_neg _ Hq) as [Hlo Hhi].
  assert (Hab : a / b * b = a) by (field; lra).
  set (k := IZR (Rtrunc (a / b))) in *. nra.
Qed.

(** The remainder of an exact multiple, used to evaluate [%] on numbers. *)
Lemma Rtrunc_IZR (z : Z) : Rtrunc (IZR z) = z.
Proof.
  unfold Rtrunc. destruct (Rle_dec 0 (IZR z)).
  - symmetry. apply Int_part_spec. lra.
  - rewrite <- opp_IZR. rewrite <- (Int_part_spec (IZR (- z)) (- z)); [lia | lra].
Qed.

(** ** Pinch *)

(** The pinch branch of [handleTouchMove]: the scale, rotation and options it
    leaves, in terms of the two touches it tracked. *)
Lemma handleTouchMove_pinch
    (dom : Dom.t) (now : R) (e : TouchEvent.t) (instance : Instance.t)
    (first second : Touch.t) :
  Instance.isPinching instance = true ->
  TouchEvent.touches e = [first; second] ->
  exists touch1 touch2 : Touch.t,
    let currentDistance :=
      getDistance (Touch.clientX touch1) (Touch.clientY touch1)
        (Touch.clientX touch2) (Touch.clientY touch2) in
    let currentAngle :=
      getAngle (Touch.clientX touch1) (Touch.clientY touch1)
        (Touch.clientX touch2) (Touch.clientY touch2) in
    let r :=
      Instance.initialRotation instance
      + (currentAngle - Instance.touchStartAngle instance) * (180 / PI) in
    scale (handleTouchMove dom now e instance)
    = clampScale instance
        (Instance.touchStartScale instance
         * (currentDistance / Instance.touchStartDistance instance)
         * Options.pinchSpeed (options instance))
    /\ rotation (handleTouchMove dom now e instance)
       = (if Options.enableRotation (options instance)
          then js_rem (r + 180) 360 - 180 else rotation instance)
    /\ options (handleTouchMove dom now e instance) = options instance.
Proof.
  intros Hp Ht. unfold handleTouchMove. rewrite Hp, Ht.
  destruct (findTouch (fst (Instance.touchIds instance)) [first; second]) as [t1|];
    destruct (findTouch (snd (Instance.touchIds instance)) [first; second]) as [t2|];
    [exists t1, t2 | exists first, second ..];
    rewrite applyTransform_eq; repeat split.
Qed.

Lemma findTouch_pair (a b : Touch.t) :
  Touch.identifier a <> Touch.identifier b ->
  findTouch (Some (Touch.identifier a)) [a; b] = Some a
  /\ findTouch (Some (Touch.identifier b)) [a; b] = Some b
  /\ findTouch (Some (Touch.identifier a)) [b; a] = Some a
  /\ findTouch (Some (Touch.identifier b)) [b; a] = Some b.
Proof.
  intros Hne. unfold findTouch, sameId. cbn.
  rewrite !Nat.eqb_refl.
  rewrite (proj2 (Nat.eqb_neq _ _) Hne).
  rewrite (proj2 (Nat.eqb_neq _ _) (not_eq_sym Hne)).
  repeat split.
Qed.

(** C5, as the code has it.  A pinch touch-move with [enableRotation] on
    works with the two touches of the event that carry the tracked
    identifiers (the first and second touch when the identifiers are theirs,
    or when one is missing).  The rotation it leaves is
    [((r + 180) % 360) - 180], where [r] is the start rotation plus the
    angle between those two touches minus the start angle, in degrees, and
    it lies in the half-open interval [[-180, 180)] whenever [r >= -180]. *)
Theorem pinch_rotation_normalized
    (dom : Dom.t) (now : R) (e : TouchEvent.t) (instance : Instance.t)
    (first second : Touch.t) :
  Instance.isPinching instance = true ->
  TouchEvent.touches e = [first; second] ->
  Options.enableRotation (options instance) = true ->
  let touch1 := fst (pinchFingers instance first second) in
  let touch2 := snd (pinchFingers instance first second) in
  let currentAngle :=
    getAngle (Touch.clientX touch1) (Touch.clientY touch1)
      (Touch.clientX touch2) (Touch.clientY touch2) in
  let r :=
    Instance.initialRotation instance
    + (currentAngle - Instance.touchStartAngle instance) * (180 / PI) in
  rotation (handleTouchMove dom now e instance) = js_rem (r + 180) 360 - 180
  /\ (-180 <= r ->
      -180 <= rotation (handleTouchMove dom now e instance) < 180)
  /\ (Instance.touchIds instance
        = (Some (Touch.identifier first), Some (Touch.identifier second)) ->
      Touch.identifier first <> Touch.identifier second ->
      touch1 = first /\ touch2 = second).
Proof.
  intros Hp Ht Hrot touch1 touch2 currentAngle r.
  assert (Hr : rotation (handleTouchMove dom now e instance)
               = js_rem (r + 180) 360 - 180).
  { unfold r, currentAngle, touch1, touch2, pinchFingers, handleTouchMove.
    rewrite Hp, Ht.
    destruct (findTouch (fst (Instance.touchIds instance)) [first; second])
      as [t1|];
      destruct (findTouch (snd (Instance.touchIds instance)) [first; second])
        as [t2|];
      rewrite applyTransform_eq; cbn; rewrite Hrot; reflexivity. }
  split; [exact Hr|]. split.
  - intros Hge. rewrite Hr.
    assert (H0 : 0 <= r + 180) by lra.
    pose proof (js_rem_nonneg (r + 180) 360 ltac:(lra) H0).
    lra.
  - intros Hids Hne.
    destruct (findTouch_pair first second Hne) as (F1 & F2 & _).
    unfold touch1, touch2, pinchFingers. rewrite Hids. cbn [fst snd].
    rewrite F1, F2. split; reflexivity.
Qed.

Lemma getAngle_rightwards (x1 y1 d : R) : 0 < d -> getAngle x1 y1 (x1 + d) y1 = 0.
Proof.
  intros Hd. unfold getAngle, Math_atan2.
  rewrite (proj2 (Rltb_true 0 (x1 + d - x1))) by lra.
  replace ((y1 - y1) / (x1 + d - x1)) with 0 by (field; lra).
  apply atan_0.
Qed.

Lemma pinch_rotation_normalized_witness :
  Instance.isPinching (pinching 30) = true
  /\ TouchEvent.touches (twoFingers 0 0 10 0) = [Touch.mk 1 0 0; Touch.mk 2 10 0]
  /\ Options.enableRotation (options (pinching 30)) = true
  /\ rotation (handleTouchMove dom500 0 (twoFingers 0 0 10 0) (pinching 30))
     = js_rem
         (Instance.initialRotation (pinching 30)
          + (getAngle 0 0 10 0 - Instance.touchStartAngle (pinching 30))
            * (180 / PI) + 180) 360 - 180.
Proof.
  split; [reflexivity|]. split; [reflexivity|]. split; [reflexivity|].
  exact (proj1 (pinch_rotation_normalized dom500 0 (twoFingers 0 0 10 0)
                  (pinching 30) (Touch.mk 1 0 0) (Touch.mk 2 10 0)
                  eq_refl eq_refl eq_refl)).
Defined.

(** The rotation left by a move that keeps the fingers on their starting
    line, for the sample pinch. *)
Lemma pinching_same_angle (startRotation : R) :
  rotation (handleTouchMove dom500 0 (twoFingers 0 0 10 0) (pinching startRotation))
  = js_rem (startRotation + 180) 360 - 180.
Proof.
  assert (H : rotation (handleTouchMove dom500 0 (twoFingers 0 0 10 0)
                          (pinching startRotation))
              = js_rem (startRotation + (getAngle 0 0 10 0 - 0) * (180 / PI) + 180) 360
                - 180) by reflexivity.
  rewrite H.
  replace (getAngle 0 0 10 0) with 0.
  - f_equal. f_equal. field. apply PI_neq0.
  - symmetry. replace 10 with (0 + 10) by lra. apply getAngle_rightwards. lra.
Qed.

(** C5 as stated fails at the closed end: a pinch that starts at rotation
    180 and keeps its angle leaves rotation -180, outside [(-180, 180]]. *)
Lemma pinch_rotation_counterexample :
  Instance.isPinching (pinching 180) = true
  /\ Options.enableRotation (options (pinching 180)) = true
  /\ rotation (handleTouchMove dom500 0 (twoFingers 0 0 10 0) (pinching 180)) = -180
  /\ ~ (-180 < rotation (handleTouchMove dom500 0 (twoFingers 0 0 10 0) (pinching 180))
          <= 180).
Proof.
  assert (H : rotation (handleTouchMove dom500 0 (twoFingers 0 0 10 0) (pinching 180))
              = -180).
  { rewrite pinching_same_angle. unfold js_rem.
    replace ((180 + 180) / 360) with (IZR 1) by (simpl; field).
    rewrite Rtrunc_IZR. lra. }
  repeat split; trivial. rewrite H. lra.
Qed.

(** The negative side: a pinch that starts at rotation -200 (reached with
    [rotate(-200)]) and keeps its angle leaves rotation -200, because the
    remainder of a negative dividend is negative. *)
Lemma pinch_rotation_negative_start :
  rotation (handleTouchMove dom500 0 (twoFingers 0 0 10 0) (pinching (-200))) = -200.
Proof.
  rewrite pinching_same_angle. unfold js_rem.
  assert (Ht : Rtrunc ((-200 + 180) / 360) = 0%Z).
  { unfold Rtrunc. destruct (Rle_dec 0 ((-200 + 180) / 360)); [lra|].
    rewrite <- (Int_part_spec (- ((-200 + 180) / 360)) 0); [lia | simpl; lra]. }
  rewrite Ht. lra.
Qed.

(** ** Degenerate pinch geometry, on binary64 floats *)

Section DegeneratePinch.
Import PrimFloat.
Local Open Scope float_scope.

(** The start distance recorded by [handleTouchStart] when both fingers go
    down at (100, 100). *)
Lemma coincident_start_distance : PinchFloat.getDistance 100 100 100 100 = 0.
Proof. vm_compute. reflexivity. Qed.

(** C6, on the code.  Both fingers go down at (100, 100), so the start
    distance is 0; the transform is scale 1, x = y = 0, rotation 0, the
    options are the defaults and the container is 500 x 500 at the page
    origin.  A pinch move that still reports both fingers at (100, 100)
    computes [0 / 0]: the clamped scale is [NaN], and so is the [x] that
    [applyAroundPivot] writes with it. *)
Theorem degenerate_pinch_writes_nan :
  let touchStartDistance := PinchFloat.getDistance 100 100 100 100 in
  let clampedScale :=
    PinchFloat.pinchClampedScale 0.5 3 1 1 touchStartDistance 100 100 100 100 in
  is_nan clampedScale = true
  /\ is_nan (PinchFloat.applyAroundPivot_x 250 250 0 0 1 1 0 1 0 100 100 clampedScale)
     = true.
Proof. vm_compute. split; reflexivity. Qed.

(** The same start followed by a move with the fingers 5 px apart computes
    [5 / 0 = Infinity]: the scale jumps from 1 to [maxScale = 3]. *)
Lemma degenerate_pinch_jumps_to_maxScale :
  let touchStartDistance := PinchFloat.getDistance 100 100 100 100 in
  PinchFloat.pinchClampedScale 0.5 3 1 1 touchStartDistance 100 100 103 104 = 3.
Proof. vm_compute. reflexivity. Qed.

(** With a start distance that is not zero the same move scales by the
    distance ratio. *)
Lemma regular_pinch_scale :
  let touchStartDistance := PinchFloat.getDistance 100 100 106 108 in
  PinchFloat.pinchClampedScale 0.5 3 1 1 touchStartDistance 100 100 112 116 = 2.
Proof. vm_compute. reflexivity. Qed.

End DegeneratePinch.

(** ** Clamping on binary64 floats

    [Math.min] and [Math.max] only compare, so on binary64 the clamp of
    [clampScale] and [clampPosition] is exact; what the real-number reading
    leaves out is [NaN], the infinities and the two zeros. *)

Section Binary64Clamp.
Import PrimFloat SpecFloat FloatOps FloatAxioms.
Local Open Scope float_scope.
Local Set Warnings "-inexact-float".

Lemma SFcompare_antisym (a b : spec_float) :
  SFcompare b a = option_map CompOpp (SFcompare a b).
Proof.
  destruct a as [sa|sa| |sa ma ea], b as [sb|sb| |sb mb eb];
    try destruct sa; try destruct sb; try reflexivity;
    unfold SFcompare, option_map; f_equal;
    fold (Pos.compare ma mb); fold (Pos.compare mb ma);
    rewrite (Z.compare_antisym ea eb), (Pos.compare_antisym ma mb);
    destruct (ea ?= eb)%Z; destruct (ma ?= mb)%positive; reflexivity.
Qed.

Lemma SFcompare_refl (a : spec_float) :
  a <> S754_nan -> SFcompare a a = Some Eq.
Proof.
  destruct a as [sa|sa| |sa ma ea]; try destruct sa; intros H; cbn;
    try reflexivity; try contradiction;
    rewrite Z.compare_refl, Pos.compare_cont_refl; reflexivity.
Qed.

Lemma SFcompare_Eq (a b : spec_float) :
  SFcompare a b = Some Eq ->
  a = b \/ exists sa sb, a = S754_zero sa /\ b = S754_zero sb.
Proof.
  destruct a as [sa|sa| |sa ma ea], b as [sb|sb| |sb mb eb];
    try destruct sa; try destruct sb; cbn; intros H; try discriminate;
    try (left; reflexivity); try (right; eexists; eexists; split; reflexivity).
  all: destruct (ea ?= eb)%Z eqn:Ee; try discriminate;
    apply Z.compare_eq in Ee; subst eb;
    destruct (Pos.compare_cont Eq ma mb) eqn:Em; try discriminate;
    apply Pos.compare_eq in Em; subst mb; left; reflexivity.
Qed.

Lemma SFcompare_Eq_left (a b z : spec_float) :
  SFcompare a b = Some Eq -> SFcompare a z = SFcompare b z.
Proof.
  intros H. destruct (SFcompare_Eq a b H) as [->|(sa & sb & -> & ->)];
    [reflexivity|]. destruct z; reflexivity.
Qed.

Lemma SFcompare_Eq_right (a b z : spec_float) :
  SFcompare a b = Some Eq -> SFcompare z a = SFcompare z b.
Proof.
  intros H. destruct (SFcompare_Eq a b H) as [->|(sa & sb & -> & ->)];
    [reflexivity|]. destruct z; reflexivity.
Qed.

Lemma is_nan_spec (x : float) :
  is_nan x = false <-> Prim2SF x <> S754_nan.
Proof.
  unfold is_nan. rewrite eqb_spec. unfold SFeqb. split.
  - intros H E. rewrite E in H. discriminate.
  - intros H. rewrite (SFcompare_refl _ H). reflexivity.
Qed.

Lemma is_nan_true (x : float) : is_nan x = true <-> Prim2SF x = S754_nan.
Proof.
  split.
  - intros H. destruct (Prim2SF x) eqn:E; try reflexivity;
      assert (Hf : is_nan x = false) by (apply is_nan_spec; rewrite E; discriminate);
      congruence.
  - intros H. destruct (is_nan x) eqn:E; [reflexivity|].
    apply is_nan_spec in E. contradiction.
Qed.

Lemma SFcompare_total (x y : float) :
  is_nan x = false -> is_nan y = false ->
  exists c, SFcompare (Prim2SF x) (Prim2SF y) = Some c.
Proof.
  intros Hx Hy. apply is_nan_spec in Hx, Hy.
  destruct (Prim2SF x), (Prim2SF y); try contradiction; cbn; eexists; reflexivity.
Qed.

Lemma is_zero_spec (x : float) :
  is_zero x = true <-> exists s, Prim2SF x = S754_zero s.
Proof.
  unfold is_zero. rewrite eqb_spec. unfold SFeqb.
  change (Prim2SF zero) with (S754_zero false).
  destruct (Prim2SF x) as [s|s| |s m e]; cbn; split; intros H;
    try discriminate; try (eexists; reflexivity);
    try (destruct H as (s' & H); discriminate);
    destruct s; discriminate.
Qed.


Lemma binary64_trichotomy (x y : float) :
  is_nan x = false -> is_nan y = false ->
  ((x <? y) = true /\ (y <? x) = false /\ (x <=? y) = true /\ (y <=? x) = false
   /\ (x =? y) = false /\ (y =? x) = false)
  \/ ((x <? y) = false /\ (y <? x) = false /\ (x <=? y) = true /\ (y <=? x) = true
      /\ (x =? y) = true /\ (y =? x) = true)
  \/ ((x <? y) = false /\ (y <? x) = true /\ (x <=? y) = false /\ (y <=? x) = true
      /\ (x =? y) = false /\ (y =? x) = false).
Proof.
  intros Hx Hy. destruct (SFcompare_total x y Hx Hy) as (c & Hc).
  rewrite !ltb_spec, !leb_spec, !eqb_spec. unfold SFltb, SFleb, SFeqb.
  rewrite (SFcompare_antisym (Prim2SF x) (Prim2SF y)), Hc.
  destruct c; cbn; [right; left | left | right; right]; repeat split.
Qed.

Lemma eqb_compare (x y : float) :
  (x =? y) = true -> SFcompare (Prim2SF x) (Prim2SF y) = Some Eq.
Proof.
  rewrite eqb_spec. unfold SFeqb.
  destruct (SFcompare (Prim2SF x) (Prim2SF y)) as [[ | | ]|]; intros H;
    try discriminate; reflexivity.
Qed.

Lemma eqb_not_nan (x y : float) :
  (x =? y) = true -> is_nan x = false /\ is_nan y = false.
Proof.
  intros H. apply eqb_compare in H. rewrite !is_nan_spec.
  split; intros E; rewrite E in H; [|destruct (Prim2SF x)]; discriminate.
Qed.

(** Floats that compare equal compare alike with every other float. *)
Lemma eqb_leb_left (x y z : float) :
  (x =? y) = true -> (x <=? z) = (y <=? z).
Proof.
  intros H. apply eqb_compare in H. rewrite !leb_spec. unfold SFleb.
  rewrite (SFcompare_Eq_left _ _ (Prim2SF z) H). reflexivity.
Qed.

Lemma eqb_leb_right (x y z : float) :
  (x =? y) = true -> (z <=? x) = (z <=? y).
Proof.
  intros H. apply eqb_compare in H. rewrite !leb_spec. unfold SFleb.
  rewrite (SFcompare_Eq_right _ _ (Prim2SF z) H). reflexivity.
Qed.

Lemma eqb_eqb_right (x y z : float) :
  (x =? y) = true -> (z =? x) = (z =? y).
Proof.
  intros H. apply eqb_compare in H. rewrite !eqb_spec. unfold SFeqb.
  rewrite (SFcompare_Eq_right _ _ (Prim2SF z) H). reflexivity.
Qed.

(** Equal under [=?] and not a zero: the same float. *)
Lemma eqb_nonzero_eq (x y : float) :
  (x =? y) = true -> is_zero y = false -> x = y /\ is_zero x = false.
Proof.
  intros H Hz. pose proof (eqb_compare x y H) as Hc.
  destruct (SFcompare_Eq _ _ Hc) as [E|(sa & sb & Ea & Eb)].
  - apply Prim2SF_inj in E. subst x. split; [reflexivity | exact Hz].
  - assert (Hy : is_zero y = true) by (apply is_zero_spec; eexists; exact Eb).
    congruence.
Qed.

(** [Math.max] of two numbers: the larger one; of two that compare equal,
    one that compares equal to both, and the first itself unless it is a
    zero. *)
Lemma Math_max_spec (a b : float) :
  is_nan a = false -> is_nan b = false ->
  ((a <? b) = true /\ PinchFloat.Math_max a b = b)
  \/ ((b <? a) = true /\ PinchFloat.Math_max a b = a)
  \/ ((a =? b) = true /\ (PinchFloat.Math_max a b =? a) = true
      /\ (is_zero a = false -> PinchFloat.Math_max a b = a)).
Proof.
  intros Ha Hb. unfold PinchFloat.Math_max. rewrite Ha, Hb. cbn [orb].
  destruct (binary64_trichotomy a b Ha Hb)
    as [(L1 & L2 & _)|[(L1 & L2 & _ & _ & E & _)|(L1 & L2 & _)]];
    rewrite L1; [left; split; reflexivity | | rewrite L2; right; left; split; reflexivity].
  rewrite L2. right; right. split; [exact E|].
  destruct (is_zero a) eqn:Hz.
  - split; [|discriminate].
    apply is_zero_spec in Hz. destruct Hz as (sa & Ea).
    pose proof (eqb_compare a b E) as Hc.
    destruct (SFcompare_Eq _ _ Hc) as [Eab|(sa' & sb & _ & Eb)].
    + rewrite eqb_spec, add_spec, <- Eab, Ea. destruct sa; reflexivity.
    + rewrite eqb_spec, add_spec, Ea, Eb. destruct sa, sb; reflexivity.
  - split; [|reflexivity].
    rewrite eqb_spec. unfold SFeqb. rewrite SFcompare_refl; [reflexivity|].
    apply is_nan_spec. exact Ha.
Qed.

Lemma Math_min_spec (a b : float) :
  is_nan a = false -> is_nan b = false ->
  ((a <? b) = true /\ PinchFloat.Math_min a b = a)
  \/ ((b <? a) = true /\ PinchFloat.Math_min a b = b)
  \/ ((a =? b) = true /\ (PinchFloat.Math_min a b =? a) = true
      /\ (is_zero a = false -> PinchFloat.Math_min a b = a)).
Proof.
  intros Ha Hb. unfold PinchFloat.Math_min. rewrite Ha, Hb. cbn [orb].
  destruct (binary64_trichotomy a b Ha Hb)
    as [(L1 & L2 & _)|[(L1 & L2 & _ & _ & E & _)|(L1 & L2 & _)]];
    rewrite L1; [left; split; reflexivity | | rewrite L2; right; left; split; reflexivity].
  rewrite L2. right; right. split; [exact E|].
  destruct (is_zero a) eqn:Hz.
  - split; [|discriminate].
    apply is_zero_spec in Hz. destruct Hz as (sa & Ea).
    pose proof (eqb_compare a b E) as Hc.
    destruct (SFcompare_Eq _ _ Hc) as [Eab|(sa' & sb & _ & Eb)].
    + rewrite eqb_spec, opp_spec, add_spec, !opp_spec, <- Eab, Ea.
      destruct sa; reflexivity.
    + rewrite eqb_spec, opp_spec, add_spec, !opp_spec, Ea, Eb.
      destruct sa, sb; reflexivity.
  - split; [|reflexivity].
    rewrite eqb_spec. unfold SFeqb. rewrite SFcompare_refl; [reflexivity|].
    apply is_nan_spec. exact Ha.
Qed.

Lemma Math_max_nan (a b : float) :
  is_nan b = true -> is_nan (PinchFloat.Math_max a b) = true.
Proof.
  intros H. unfold PinchFloat.Math_max. rewrite H, orb_true_r. reflexivity.
Qed.

Lemma Math_min_nan (a b : float) :
  is_nan b = true -> is_nan (PinchFloat.Math_min a b) = true.
Proof.
  intros H. unfold PinchFloat.Math_min. rewrite H, orb_true_r. reflexivity.
Qed.

Lemma leb_refl (x : float) : is_nan x = false -> (x <=? x) = true.
Proof.
  intros H. rewrite leb_spec. unfold SFleb.
  rewrite SFcompare_refl; [reflexivity | apply is_nan_spec; exact H].
Qed.

Lemma ltb_leb (x y : float) : (x <? y) = true -> (x <=? y) = true.
Proof.
  rewrite ltb_spec, leb_spec. unfold SFltb, SFleb.
  destruct (SFcompare _ _) as [[ | | ]|]; intros H; try discriminate; reflexivity.
Qed.

Lemma leb_not_nan (x y : float) :
  (x <=? y) = true -> is_nan x = false /\ is_nan y = false.
Proof.
  rewrite leb_spec. unfold SFleb. rewrite !is_nan_spec. intros H.
  split; intros E; rewrite E in H; [|destruct (Prim2SF x)]; discriminate.
Qed.

Lemma ltb_not_leb (x y : float) : (x <? y) = true -> (y <=? x) = false.
Proof.
  rewrite ltb_spec, leb_spec. unfold SFltb, SFleb.
  rewrite (SFcompare_antisym (Prim2SF x) (Prim2SF y)).
  destruct (SFcompare _ _) as [[ | | ]|]; intros H; try discriminate; reflexivity.
Qed.

(** The inner [Math.max (lo, v)] of a clamp: a number that is at least
    [lo], and [v] itself when [lo <= v]. *)
Lemma Math_max_lower (lo v : float) :
  is_nan lo = false -> is_nan v = false ->
  is_nan (PinchFloat.Math_max lo v) = false
  /\ (lo <=? PinchFloat.Math_max lo v) = true
  /\ ((lo <=? v) = true ->
      (PinchFloat.Math_max lo v =? v) = true
      /\ (is_zero v = false -> PinchFloat.Math_max lo v = v)).
Proof.
  intros Hlo Hv.
  destruct (Math_max_spec lo v Hlo Hv)
    as [(L & ->)|[(L & ->)|(E & Er & Ez)]].
  - split; [exact Hv|]. split; [apply ltb_leb; exact L|].
    intros _. split; [|reflexivity].
    rewrite eqb_spec. unfold SFeqb.
    rewrite SFcompare_refl; [reflexivity | apply is_nan_spec; exact Hv].
  - split; [exact Hlo|]. split; [apply leb_refl; exact Hlo|].
    intros Hle. rewrite (ltb_not_leb _ _ L) in Hle. discriminate.
  - split; [exact (proj1 (eqb_not_nan _ _ Er))|].
    split.
    + rewrite (eqb_leb_right _ _ lo Er). apply leb_refl. exact Hlo.
    + intros _. split.
      * rewrite (eqb_eqb_right _ _ (PinchFloat.Math_max lo v) E) in Er.
        exact Er.
      * intros Hz. destruct (eqb_nonzero_eq lo v E Hz) as (-> & Hz').
        apply Ez. exact Hz'.
Qed.

(** C9, as the code has it, on binary64.  Under [minScale <= maxScale]
    (which makes both numbers), for every [s] that is not [NaN], the
    infinities and both zeros included, [clampScale s] lies in
    [[minScale, maxScale]]; when [s] lies there already the result equals
    [s] under [===], and is [s] itself unless [s] is a zero.  For [s = NaN]
    the result is [NaN]. *)
Theorem clampScale_binary64_range_and_fixed (minScale maxScale s : float) :
  (minScale <=? maxScale) = true ->
  let r := PinchFloat.clampScale minScale maxScale s in
  (is_nan s = false ->
   (minScale <=? r) = true /\ (r <=? maxScale) = true
   /\ ((minScale <=? s) = true -> (s <=? maxScale) = true ->
       (r =? s) = true /\ (is_zero s = false -> r = s)))
  /\ (is_nan s = true -> is_nan r = true).
Proof.
  intros Hord r. unfold r, PinchFloat.clampScale.
  destruct (leb_not_nan minScale maxScale Hord) as (Hlo & Hhi).
  split; [|intros Hs; apply Math_min_nan, Math_max_nan; exact Hs].
  intros Hs.
  destruct (Math_max_lower minScale s Hlo Hs) as (Hmn & Hml & Hmf).
  remember (PinchFloat.Math_max minScale s) as m eqn:Em. clear Em.
  destruct (Math_min_spec maxScale m Hhi Hmn)
    as [(L & ->)|[(L & ->)|(E & Er & Ez)]].
  - split; [exact Hord|]. split; [apply leb_refl; exact Hhi|].
    intros H1 H2. destruct (Hmf H1) as (Emv & _).
    assert (Hc := ltb_not_leb _ _ L).
    rewrite (eqb_leb_left _ _ maxScale Emv) in Hc. congruence.
  - split; [exact Hml|]. split; [apply ltb_leb; exact L|].
    intros H1 _. exact (Hmf H1).
  - split; [rewrite (eqb_leb_right _ _ minScale Er); exact Hord|].
    split; [rewrite (eqb_leb_left _ _ maxScale Er); apply leb_refl; exact Hhi|].
    intros H1 _. destruct (Hmf H1) as (Emv & Emz).
    assert (Ehv : (maxScale =? s) = true).
    { rewrite <- (eqb_eqb_right _ _ maxScale Emv). exact E. }
    split.
    + rewrite <- (eqb_eqb_right _ _ _ Ehv). exact Er.
    + intros Hz. destruct (eqb_nonzero_eq maxScale s Ehv Hz) as (Eq & Hz').
      rewrite (Ez Hz'). exact Eq.
Qed.

Lemma clampScale_binary64_range_and_fixed_witness :
  (0.5 <=? 3) = true
  /\ (0.5 <=? PinchFloat.clampScale 0.5 3 7) = true
  /\ (PinchFloat.clampScale 0.5 3 7 <=? 3) = true
  /\ PinchFloat.clampScale 0.5 3 2 = 2.
Proof.
  assert (H : (0.5 <=? 3) = true) by reflexivity.
  split; [exact H|].
  destruct (clampScale_binary64_range_and_fixed 0.5 3 7 H) as (H7 & _).
  destruct (H7 eq_refl) as (Hge & Hle & _).
  destruct (clampScale_binary64_range_and_fixed 0.5 3 2 H) as (H2 & _).
  destruct (H2 eq_refl) as (_ & _ & Hfix).
  destruct (Hfix eq_refl eq_refl) as (_ & Heq).
  split; [exact Hge|]. split; [exact Hle|]. exact (Heq eq_refl).
Defined.

(** C9 as stated fails for [s = NaN]: with the default range [[0.5, 3]],
    [clampScale NaN] is [NaN], which is neither at least 0.5 nor at most
    3. *)
Lemma clampScale_nan_counterexample :
  (0.5 <=? 3) = true
  /\ is_nan (PinchFloat.clampScale 0.5 3 nan) = true
  /\ (0.5 <=? PinchFloat.clampScale 0.5 3 nan) = false
  /\ (PinchFloat.clampScale 0.5 3 nan <=? 3) = false.
Proof. vm_compute. repeat split. Qed.

(** *** The clamp of the translation *)

(** One axis of [clampPosition] on binary64: between ordered bounds a
    translation that is a number is clamped into them. *)
Lemma clampAxis_within (min max next : float) :
  (min <=? max) = true -> is_nan next = false ->
  (min <=? Binary64.clampAxis min max next) = true
  /\ (Binary64.clampAxis min max next <=? max) = true.
Proof.
  intros Hord Hn. unfold Binary64.clampAxis.
  destruct (leb_not_nan min max Hord) as (Hlo & Hhi).
  destruct (Math_max_lower min next Hlo Hn) as (Hmn & Hml & _).
  remember (PinchFloat.Math_max min next) as m eqn:Em. clear Em.
  destruct (Math_min_spec max m Hhi Hmn)
    as [(L & ->)|[(L & ->)|(E & Er & Ez)]].
  - split; [exact Hord | apply leb_refl; exact Hhi].
  - split; [exact Hml | apply ltb_leb; exact L].
  - split; [rewrite (eqb_leb_right _ _ min Er); exact Hord|].
    rewrite (eqb_leb_left _ _ max Er). apply leb_refl. exact Hhi.
Qed.

(** A translation that is [NaN] passes the clamp, whatever the bounds. *)
Lemma clampAxis_nan (min max next : float) :
  is_nan next = true ->
  is_nan (Binary64.clampAxis min max next) = true
  /\ (min <=? Binary64.clampAxis min max next) = false
  /\ (Binary64.clampAxis min max next <=? max) = false.
Proof.
  intros Hn.
  assert (Hr : is_nan (Binary64.clampAxis min max next) = true)
    by (apply Math_min_nan, Math_max_nan; exact Hn).
  split; [exact Hr|].
  apply is_nan_true in Hr. rewrite !leb_spec. unfold SFleb. rewrite Hr.
  split; [destruct (Prim2SF min)|]; reflexivity.
Qed.

(** A double click at scale 0, which [minScale = 0] lets the engine reach
    (the content then fits, so the hard bounds are [[0, 0]]): the
    container is 500 wide at the page origin, the click is at x = 100.
    [scaleRatio] is [0 / 0], the translation handed to the clamp is
    [NaN], and [NaN] is what gets published. *)
Lemma double_click_at_scale_zero_publishes_nan :
  let x := Binary64.doubleClick_x 0 500 100 0 0 3 in
  (0 <=? 0) = true
  /\ is_nan x = true
  /\ is_nan (Binary64.clampAxis 0 0 x) = true.
Proof. vm_compute. repeat split. Qed.

(** *** The scale velocity read from an unassigned [lastScale] *)

(** A pointer move at scale 1, 16 ms after the last sample, while
    [lastScale] is still [undefined]: the scale velocity is [NaN], which
    passes the cap at 0.01.  The kinetic tick that follows is not at rest,
    adds [NaN] to the scale, and neither range guard fires: the scale is
    [NaN], with the default range [[0.5, 3]]. *)
Lemma unassigned_lastScale_gives_nan_scale :
  let velocityScale := Binary64.scaleVelocity 1 nan 16 in
  is_nan velocityScale = true
  /\ Binary64.kineticAtRest 0 0 velocityScale = false
  /\ is_nan (Binary64.kineticScale 0.5 3 1 velocityScale) = true.
Proof. vm_compute. repeat split. Qed.

(** With [lastScale] assigned the same lines stay within the cap. *)
Lemma assigned_lastScale_scale_velocity :
  Binary64.scaleVelocity 1.5 1 16 = 0.01
  /\ Binary64.kineticScale 0.5 3 1.5 0.01 = 1.51.
Proof. vm_compute. split; reflexivity. Qed.

End Binary64Clamp.

(** ** Kinetic integrator *)

(** [calculateBoundaries] and [clampPosition] write nothing but the elastic
    offsets. *)
Lemma calculateBoundaries_sameButElastic
    (dom : Dom.t) (instance : Instance.t) (useElastic : bool) :
  sameButElastic instance (snd (calculateBoundaries dom instance useElastic)).
Proof.
  unfold calculateBoundaries.
  repeat match goal with
         | |- context [if ?c then _ else _] => destruct c
         end; repeat split.
Qed.

Lemma clampPosition_sameButElastic
    (dom : Dom.t) (instance : Instance.t) (nextX nextY : R) (useElastic : bool) :
  sameButElastic instance (snd (clampPosition dom instance nextX nextY useElastic)).
Proof.
  unfold clampPosition.
  pose proof (calculateBoundaries_sameButElastic dom instance useElastic) as H.
  destruct (calculateBoundaries dom instance useElastic) as [b i]. exact H.
Qed.

(** The stop test reads as the three threshold inequalities. *)
Lemma kineticAtRest_true (instance : Instance.t) :
  kineticAtRest instance = true
  <-> Rabs (velocityX instance) < 0.5 /\ Rabs (velocityY instance) < 0.5
      /\ Rabs (velocityScale instance) < 0.001.
Proof.
  unfold kineticAtRest, belowStopThreshold.
  rewrite !andb_true_iff, !Rltb_true. tauto.
Qed.

(** A tick that does not stop multiplies the three velocities by the
    friction and keeps the options. *)
Lemma animateKinetic_decay (dom : Dom.t) (now : R) (instance : Instance.t) :
  kineticAtRest instance = false ->
  let f := Options.friction (options instance) in
  let instance' := animateKinetic dom now instance in
  velocityX instance' = velocityX instance * f
  /\ velocityY instance' = velocityY instance * f
  /\ velocityScale instance' = velocityScale instance * f
  /\ options instance' = options instance.
Proof.
  intros Hrest. unfold animateKinetic. rewrite Hrest.
  cbv zeta.
  repeat match goal with
         | |- context [if ?c then _ else _] => destruct c
         end;
    match goal with
    | |- context [clampPosition ?d ?i ?a ?b ?u] =>
        pose proof (clampPosition_sameButElastic d i a b u) as H;
        destruct (clampPosition d i a b u) as [clamped moved];
        destruct H as (Ho & _ & _ & _ & _ & Hvx & Hvy & Hvs)
    end;
    rewrite applyTransform_eq; cbn in *; rewrite Hvx, Hvy, Hvs, Ho; repeat split.
Qed.

(** As long as the stop test fails, [n] ticks multiply the velocities by the
    [n]-th power of the friction. *)
Lemma kineticRun_decay (dom : Dom.t) (times : list R) :
  forall instance : Instance.t,
  let f := Options.friction (options instance) in
  (forall k, (k < length times)%nat ->
     belowStopThreshold (velocityX instance * f ^ k) (velocityY instance * f ^ k)
       (velocityScale instance * f ^ k) = false) ->
  let instance' := kineticRun dom times instance in
  velocityX instance' = velocityX instance * f ^ length times
  /\ velocityY instance' = velocityY instance * f ^ length times
  /\ velocityScale instance' = velocityScale instance * f ^ length times
  /\ options instance' = options instance.
Proof.
  induction times as [|now rest IH]; intros instance f Hrun instance'.
  - unfold instance'. cbn. repeat split; lra.
  - assert (H0 : kineticAtRest instance = false).
    { specialize (Hrun 0%nat ltac:(cbn; lia)). cbn in Hrun.
      unfold kineticAtRest. rewrite !Rmult_1_r in Hrun. exact Hrun. }
    destruct (animateKinetic_decay dom now instance H0) as (Hx & Hy & Hs & Ho).
    fold f in Hx, Hy, Hs.
    specialize (IH (animateKinetic dom now instance)).
    cbv zeta in IH. rewrite Ho, Hx, Hy, Hs in IH. fold f in IH.
    unfold instance'. cbn [kineticRun fold_left length].
    change (fold_left _ rest ?i) with (kineticRun dom rest i).
    destruct IH as (Ix & Iy & Is & Io).
    + intros k Hk. specialize (Hrun (S k) ltac:(cbn; lia)).
      cbn [pow] in Hrun. rewrite !Rmult_assoc. exact Hrun.
    + rewrite Ix, Iy, Is, Io. cbn [pow]. repeat split; ring.
Qed.

(** The first index at which a boolean sequence holds. *)
Lemma first_index (P : nat -> bool) (N : nat) :
  P N = true ->
  exists n, (n <= N)%nat /\ P n = true /\ forall k, (k < n)%nat -> P k = false.
Proof.
  induction N as [N IH] using lt_wf_ind. intros HN.
  destruct (existsb P (seq 0 N)) eqn:E.
  - apply existsb_exists in E. destruct E as (m & Hin & Hm).
    apply in_seq in Hin. destruct (IH m ltac:(lia) Hm) as (n & Hle & Hn & Hlt).
    exists n. repeat split; trivial. lia.
  - exists N. repeat split; trivial.
    intros k Hk. destruct (P k) eqn:Ek; trivial.
    assert (existsb P (seq 0 N) = true).
    { apply existsb_exists. exists k. split; trivial. apply in_seq. lia. }
    congruence.
Qed.

(** Geometric decay ends below any positive threshold. *)
Lemma decay_below (v f eps : R) :
  0 < f < 1 -> 0 < eps -> exists N, forall n, (n >= N)%nat -> Rabs (v * f ^ n) < eps.
Proof.
  intros Hf Heps.
  assert (Hy : 0 < eps / (Rabs v + 1)).
  { apply Rdiv_lt_0_compat; [lra|]. pose proof (Rabs_pos v). lra. }
  destruct (pow_lt_1_zero f ltac:(rewrite Rabs_right; lra) _ Hy) as [N HN].
  exists N. intros n Hn. specialize (HN n Hn).
  rewrite Rabs_mult.
  pose proof (Rabs_pos v) as Hv. pose proof (Rabs_pos (f ^ n)) as Hp.
  assert (Hm : Rabs v * Rabs (f ^ n) <= (Rabs v + 1) * Rabs (f ^ n)) by nra.
  assert (Hq : (Rabs v + 1) * (eps / (Rabs v + 1)) = eps) by (field; lra).
  assert ((Rabs v + 1) * Rabs (f ^ n) < (Rabs v + 1) * (eps / (Rabs v + 1))).
  { apply Rmult_lt_compat_l; lra. }
  lra.
Qed.

Lemma applyTransform_sameButElastic (dom : Dom.t) (u : bool) (i j : Instance.t) :
  sameButElastic i j ->
  options (applyTransform dom u j) = options i
  /\ scale (applyTransform dom u j) = scale i
  /\ rotation (applyTransform dom u j) = rotation i
  /\ velocityX (applyTransform dom u j) = velocityX i
  /\ velocityY (applyTransform dom u j) = velocityY i
  /\ velocityScale (applyTransform dom u j) = velocityScale i.
Proof.
  intros (Ho & Hs & Hr & _ & _ & Hvx & Hvy & Hvs).
  rewrite applyTransform_eq. cbn. repeat split; assumption.
Qed.

Lemma sameMotion_sameButElastic (i j : Instance.t) :
  sameMotion i j -> sameButElastic i j.
Proof.
  unfold sameMotion, sameButElastic.
  intros (?&?&?&?&?&?&?&?&_). repeat split; assumption.
Qed.

(** A tick that stops leaves velocities, scale, rotation and options as they
    were. *)
Lemma animateKinetic_stop (dom : Dom.t) (now : R) (instance : Instance.t) :
  kineticAtRest instance = true ->
  animateKinetic dom now instance
    = applyTransform dom false (animateElasticReturn dom now (stopAnimation instance))
  /\ velocityX (animateKinetic dom now instance) = velocityX instance
  /\ velocityY (animateKinetic dom now instance) = velocityY instance
  /\ velocityScale (animateKinetic dom now instance) = velocityScale instance
  /\ scale (animateKinetic dom now instance) = scale instance.
Proof.
  intros Hrest. unfold animateKinetic. rewrite Hrest.
  assert (H : sameButElastic instance
                (animateElasticReturn dom now (stopAnimation instance))).
  { apply sameMotion_sameButElastic.
    eapply sameMotion_trans;
      [apply stopAnimation_sameMotion | apply animateElasticReturn_sameMotion]. }
  destruct (applyTransform_sameButElastic dom false _ _ H) as (_&?&_&?&?&?).
  repeat split; assumption.
Qed.

Lemma Rabs_decay (v f : R) (k : nat) : 0 < f -> Rabs (v * f ^ k) = Rabs v * f ^ k.
Proof.
  intros Hf. rewrite Rabs_mult. f_equal. apply Rabs_right.
  apply Rle_ge. apply pow_le. lra.
Qed.

(** C8, as the code has it.  For a friction strictly between 0 and 1:
    a kinetic tick takes the stop branch exactly when [|vx| < 0.5],
    [|vy| < 0.5] and [|vScale| < 0.001], and then leaves the velocities as
    they are; any other tick multiplies the three velocities by the
    friction, so each magnitude is multiplied by the friction and strictly
    decreases unless it is zero; and when the tick is invoked frame after
    frame there is a finite number [n] of ticks after which the stop test
    holds, the magnitudes before that being the initial ones times
    [friction ^ k]. *)
Theorem kinetic_decay_and_stop (dom : Dom.t) (instance : Instance.t) :
  let f := Options.friction (options instance) in
  0 < f < 1 ->
  (kineticAtRest instance = true
   <-> Rabs (velocityX instance) < 0.5 /\ Rabs (velocityY instance) < 0.5
       /\ Rabs (velocityScale instance) < 0.001)
  /\ (forall now, kineticAtRest instance = true ->
      let instance' := animateKinetic dom now instance in
      velocityX instance' = velocityX instance
      /\ velocityY instance' = velocityY instance
      /\ velocityScale instance' = velocityScale instance)
  /\ (forall now, kineticAtRest instance = false ->
      let instance' := animateKinetic dom now instance in
      Rabs (velocityX instance') = f * Rabs (velocityX instance)
      /\ Rabs (velocityY instance') = f * Rabs (velocityY instance)
      /\ Rabs (velocityScale instance') = f * Rabs (velocityScale instance)
      /\ (velocityX instance <> 0 ->
          Rabs (velocityX instance') < Rabs (velocityX instance))
      /\ (velocityY instance <> 0 ->
          Rabs (velocityY instance') < Rabs (velocityY instance))
      /\ (velocityScale instance <> 0 ->
          Rabs (velocityScale instance') < Rabs (velocityScale instance)))
  /\ exists n : nat, forall times : list R, length times = n ->
       kineticAtRest (kineticRun dom times instance) = true
       /\ forall k, (k < n)%nat ->
            let instance' := kineticRun dom (firstn k times) instance in
            kineticAtRest instance' = false
            /\ Rabs (velocityX instance') = Rabs (velocityX instance) * f ^ k
            /\ Rabs (velocityY instance') = Rabs (velocityY instance) * f ^ k
            /\ Rabs (velocityScale instance')
               = Rabs (velocityScale instance) * f ^ k.
Proof.
  intros f Hf. split; [apply kineticAtRest_true|]. split; [|split].
  - intros now Hrest instance'.
    destruct (animateKinetic_stop dom now instance Hrest) as (_&?&?&?&_).
    repeat split; assumption.
  - intros now Hrest instance'.
    destruct (animateKinetic_decay dom now instance Hrest) as (Hx & Hy & Hs & _).
    fold f in Hx, Hy, Hs. unfold instance'. rewrite Hx, Hy, Hs.
    rewrite !Rabs_mult, (Rabs_right f) by lra.
    repeat split; try ring;
      intros Hne; apply Rabs_pos_lt in Hne; nra.
  - destruct (decay_below (velocityX instance) f 0.5 Hf ltac:(lra)) as [N1 H1].
    destruct (decay_below (velocityY instance) f 0.5 Hf ltac:(lra)) as [N2 H2].
    destruct (decay_below (velocityScale instance) f 0.001 Hf ltac:(lra)) as [N3 H3].
    set (P := fun k => belowStopThreshold (velocityX instance * f ^ k)
                         (velocityY instance * f ^ k)
                         (velocityScale instance * f ^ k)).
    assert (HP : P (N1 + N2 + N3)%nat = true).
    { unfold P, belowStopThreshold. rewrite !andb_true_iff, !Rltb_true.
      repeat split; [apply H1 | apply H2 | apply H3]; lia. }
    destruct (first_index P _ HP) as (n & _ & Hn & Hbefore).
    exists n. intros times Hlen.
    assert (Hrun : forall k, (k <= n)%nat ->
              let i' := kineticRun dom (firstn k times) instance in
              velocityX i' = velocityX instance * f ^ k
              /\ velocityY i' = velocityY instance * f ^ k
              /\ velocityScale i' = velocityScale instance * f ^ k).
    { intros k Hk i'.
      assert (Hl : length (firstn k times) = k) by (rewrite length_firstn; lia).
      destruct (kineticRun_decay dom (firstn k times) instance) as (Hx & Hy & Hs & _).
      - rewrite Hl. intros j Hj. apply (Hbefore j). lia.
      - rewrite Hl in Hx, Hy, Hs. repeat split; assumption. }
    split.
    + destruct (Hrun n (Nat.le_refl n)) as (Hx & Hy & Hs).
      rewrite firstn_all2 in Hx, Hy, Hs by lia.
      unfold kineticAtRest. rewrite Hx, Hy, Hs. exact Hn.
    + intros k Hk instance'.
      destruct (Hrun k ltac:(lia)) as (Hx & Hy & Hs).
      fold instance' in Hx, Hy, Hs.
      unfold kineticAtRest. rewrite Hx, Hy, Hs.
      split; [apply (Hbefore k Hk)|].
      rewrite !Rabs_decay by lra. repeat split.
Qed.

Lemma kinetic_decay_and_stop_witness :
  0 < Options.friction (options flung) < 1
  /\ exists n : nat, forall times : list R, length times = n ->
       kineticAtRest (kineticRun dom500 times flung) = true.
Proof.
  assert (H : 0 < Options.friction (options flung) < 1) by (cbn; lra).
  split; [exact H|].
  destruct (kinetic_decay_and_stop dom500 flung H) as (_ & _ & _ & n & Hn).
  exists n. intros times Hlen. apply (Hn times Hlen).
Defined.

(** C8 as stated fails for a velocity component that is zero: after a
    horizontal fling ([vx = 10], [vy = 0], [vScale = 0], friction 0.92) the
    tick does not stop, and [|vy|] stays 0 instead of decreasing. *)
Lemma kinetic_strict_decrease_counterexample :
  0 < Options.friction (options flung) < 1
  /\ kineticAtRest flung = false
  /\ Rabs (velocityY (animateKinetic dom500 0 flung)) = Rabs (velocityY flung)
  /\ ~ Rabs (velocityY (animateKinetic dom500 0 flung)) < Rabs (velocityY flung).
Proof.
  assert (Hrest : kineticAtRest flung = false).
  { unfold kineticAtRest, belowStopThreshold.
    change (velocityX flung) with 10.
    rewrite (proj2 (Rltb_false (Rabs 10) 0.5)); [reflexivity|].
    rewrite Rabs_right; lra. }
  destruct (animateKinetic_decay dom500 0 flung Hrest) as (_ & Hy & _).
  assert (Heq : Rabs (velocityY (animateKinetic dom500 0 flung))
                = Rabs (velocityY flung)).
  { rewrite Hy. change (velocityY flung) with 0. f_equal. lra. }
  split; [cbn; lra|]. split; [exact Hrest|]. split; [exact Heq|].
  rewrite Heq. lra.
Qed.

(** The tick of [core.ts] requests no further frame, the tick of
    [animations.ts] requests one. *)
Lemma clampPosition_rafQueue
    (dom : Dom.t) (instance : Instance.t) (nextX nextY : R) (useElastic : bool) :
  Instance.rafQueue (snd (clampPosition dom instance nextX nextY useElastic))
  = Instance.rafQueue instance
  /\ Instance.rafNext (snd (clampPosition dom instance nextX nextY useElastic))
     = Instance.rafNext instance.
Proof.
  unfold clampPosition, calculateBoundaries.
  repeat match goal with
         | |- context [if ?c then _ else _] => destruct c
         end; split; reflexivity.
Qed.

Lemma animateKinetic_requests_no_frame (dom : Dom.t) (now : R) (instance : Instance.t) :
  kineticAtRest instance = false ->
  Instance.rafQueue (animateKinetic dom now instance) = Instance.rafQueue instance.
Proof.
  intros Hrest. unfold animateKinetic. rewrite Hrest. cbv zeta.
  repeat match goal with
         | |- context [if ?c then _ else _] => destruct c
         end;
    match goal with
    | |- context [clampPosition ?d ?i ?a ?b ?u] =>
        destruct (clampPosition_rafQueue d i a b u) as [H _];
        destruct (clampPosition d i a b u) as [clamped moved]
    end;
    rewrite applyTransform_eq; cbn in *; exact H.
Qed.

Lemma Animations_animateKinetic_requests_frame
    (dom : Dom.t) (now : R) (instance : Instance.t) :
  kineticAtRest instance = false ->
  Instance.rafQueue (Animations.animateKinetic dom now instance)
  = Instance.rafQueue instance ++ [(Instance.rafNext instance, KineticTickModule)].
Proof.
  intros Hrest. unfold Animations.animateKinetic. rewrite Hrest. cbv zeta.
  repeat match goal with
         | |- context [if ?c then _ else _] => destruct c
         end;
    match goal with
    | |- context [clampPosition ?d ?i ?a ?b ?u] =>
        destruct (clampPosition_rafQueue d i a b u) as [H H'];
        destruct (clampPosition d i a b u) as [clamped moved]
    end;
    rewrite applyTransform_eq; unfold requestAnimationFrame; cbn in *;
    rewrite H, H'; reflexivity.
Qed.

(** A frame whose oldest callback is the kinetic tick of [core.ts] runs that
    tick on the instance with the callback taken off the queue. *)
Lemma runFrame_kinetic (dom : Dom.t) (now : R) (instance : Instance.t)
    (id : nat) (rest : list (nat * Callback)) :
  Instance.rafQueue instance = (id, KineticTick) :: rest ->
  runFrame dom now instance
  = animateKinetic dom now (Instance.set_rafQueue rest instance).
Proof. intros H. unfold runFrame. rewrite H. reflexivity. Qed.

(** A released drag on the engine of [core.ts]: the pointer handler queues
    the kinetic tick, the next frame runs it once, and no callback is left
    although the velocity is still above the stop threshold. *)
Lemma kinetic_run_of_core_is_one_tick (dom : Dom.t) (now : R) (e : PointerEvent.t) :
  let released :=
    handlePointerUp dom now e
      (Instance.set_didMove true (Instance.set_isPanning true flung)) in
  Instance.rafQueue released = [(0%nat, KineticTick)]
  /\ Instance.rafQueue (runFrame dom now released) = []
  /\ kineticAtRest (runFrame dom now released) = false.
Proof.
  intros released.
  assert (Hgt : (Rabs 10 >? 1) = true).
  { apply Rgtb_true. rewrite Rabs_right; lra. }
  assert (Hq : Instance.rafQueue released = [(0%nat, KineticTick)]
               /\ velocityX released = 10
               /\ Options.friction (options released) = 0.92).
  { unfold released, handlePointerUp.
    change (Instance.isPanning (Instance.set_didMove true
              (Instance.set_isPanning true flung))) with true.
    cbv iota beta zeta. cbn [negb].
    change (Instance.didMove (Instance.set_isPanning false
              (Instance.set_didMove true (Instance.set_isPanning true flung))))
      with true.
    cbv iota.
    change (velocityX (Instance.set_isPanning false
              (Instance.set_didMove true (Instance.set_isPanning true flung))))
      with 10.
    rewrite Hgt. cbn [orb]. repeat split. }
  destruct Hq as (Hq & Hv & Hf).
  remember released as r eqn:Hr. clear Hr released.
  rewrite (runFrame_kinetic dom now r 0%nat [] Hq).
  remember (Instance.set_rafQueue [] r) as taken eqn:Ht.
  assert (Hfacts : velocityX taken = 10 /\ Options.friction (options taken) = 0.92
                   /\ Instance.rafQueue taken = []).
  { rewrite Ht. repeat split; assumption. }
  clear Ht. destruct Hfacts as (Hv' & Hf' & Hq').
  assert (Hrest : kineticAtRest taken = false).
  { unfold kineticAtRest, belowStopThreshold. rewrite Hv'.
    rewrite (proj2 (Rltb_false (Rabs 10) 0.5)); [reflexivity|].
    rewrite Rabs_right; lra. }
  split; [exact Hq|]. split.
  - rewrite animateKinetic_requests_no_frame by exact Hrest. exact Hq'.
  - destruct (animateKinetic_decay dom now taken Hrest) as (Hx & _).
    unfold kineticAtRest, belowStopThreshold. rewrite Hx, Hv', Hf'.
    rewrite (proj2 (Rltb_false (Rabs (10 * 0.92)) 0.5)); [reflexivity|].
    rewrite Rabs_right; lra.
Qed.

(** ** The scale-range invariant *)

Lemma stopAnimation_sameShape (i : Instance.t) : sameShape i (stopAnimation i).
Proof. apply sameMotion_sameShape, stopAnimation_sameMotion. Qed.

Lemma animateElasticReturn_sameShape (dom : Dom.t) (now : R) (i : Instance.t) :
  sameShape i (animateElasticReturn dom now i).
Proof. apply sameMotion_sameShape, animateElasticReturn_sameMotion. Qed.

Lemma clampScale_options (i j : Instance.t) (v : R) :
  options j = options i -> clampScale j v = clampScale i v.
Proof. intros H. unfold clampScale. rewrite H. reflexivity. Qed.

(** Destructure the [clampPosition] call of the goal, keeping what it
    preserves. *)
Ltac through_clamp :=
  match goal with
  | |- context [clampPosition ?d ?i ?a ?b ?u] =>
      let H := fresh "Hc" in
      pose proof (clampPosition_sameButElastic d i a b u) as H;
      destruct (clampPosition d i a b u) as [clamped moved];
      cbn [snd] in H; destruct H as (Hco & Hcs & _)
  end.

Lemma scaleStep_same (i i' : Instance.t) : sameShape i i' -> scaleStep i i'.
Proof. intros (Ho & Hs & _). split; [exact Ho | left; exact Hs]. Qed.

(** The two scale guards of the kinetic tick amount to [clampScale]. *)
Lemma kinetic_scale_guards (lo hi s : R) :
  (let s1 := if s <? lo then lo else s in if s1 >? hi then hi else s1)
  = Rmin hi (Rmax lo s).
Proof.
  cbv zeta. unfold Rgtb.
  destruct (s <? lo) eqn:E1.
  - apply Rltb_true in E1. destruct (hi <? lo) eqn:E2.
    + apply Rltb_true in E2. minmax.
    + apply Rltb_false in E2. minmax.
  - apply Rltb_false in E1. destruct (hi <? s) eqn:E2.
    + apply Rltb_true in E2. minmax.
    + apply Rltb_false in E2. minmax.
Qed.

Lemma kinetic_guards_instance (j : Instance.t) :
  let j1 :=
    if scale j <? Options.minScale (options j)
    then Instance.set_scale (Options.minScale (options j)) j else j in
  let j2 :=
    if scale j1 >? Options.maxScale (options j1)
    then Instance.set_scale (Options.maxScale (options j1)) j1 else j1 in
  options j2 = options j /\ scale j2 = clampScale j (scale j).
Proof.
  cbv zeta. unfold clampScale. rewrite <- kinetic_scale_guards. cbv zeta.
  destruct (scale j <? _); cbn; destruct (_ >? _); split; reflexivity.
Qed.

Lemma handleWheel_scaleStep (dom : Dom.t) (e : WheelEvent.t) (i : Instance.t) :
  scaleStep i (handleWheel dom e i).
Proof.
  unfold handleWheel.
  destruct (stopAnimation_sameShape i) as (Ho & Hs & _).
  remember (stopAnimation i) as s eqn:E. clear E.
  destruct (_ <=? 0).
  - split; [exact Ho | left; exact Hs].
  - rewrite applyTransform_eq. cbn. split; [exact Ho|].
    right; left. eexists. apply clampScale_options. exact Ho.
Qed.

Lemma scaleStep_after_same (i j k : Instance.t) :
  sameShape i j -> scaleStep j k -> scaleStep i k.
Proof.
  intros (Ho & Hs & _) (Ho' & Hcase). split; [congruence|].
  destruct Hcase as [H | [[v H] | [H | H]]].
  - left. congruence.
  - right; left. exists v. rewrite H. apply clampScale_options. exact Ho.
  - right; right; left. rewrite H, Hs, Ho. reflexivity.
  - right; right; right. rewrite H, Ho. reflexivity.
Qed.

(** Close a goal [scaleStep i (...)] whose scale and options are those of
    [i] up to a [clampPosition] call and a final [applyTransform]. *)
Ltac same_scale :=
  try through_clamp; rewrite ?applyTransform_eq; unfold scaleStep; cbn in *;
  split; [congruence | left; congruence].

Lemma handlePointerDown_scaleStep (now : R) (e : PointerEvent.t) (i : Instance.t) :
  scaleStep i (handlePointerDown now e i).
Proof.
  unfold handlePointerDown. destruct (negb _).
  - apply scaleStep_same, sameShape_refl.
  - destruct (stopAnimation_sameShape i) as (Ho & Hs & _).
    remember (stopAnimation i) as s eqn:E. clear E. same_scale.
Qed.

Lemma handlePointerMove_scaleStep
    (dom : Dom.t) (now : R) (e : PointerEvent.t) (i : Instance.t) :
  scaleStep i (handlePointerMove dom now e i).
Proof.
  unfold handlePointerMove.
  destruct (negb (Instance.isPanning i)); [apply scaleStep_same, sameShape_refl|].
  destruct (_ && _); [apply scaleStep_same, sameShape_refl|].
  cbv zeta. through_clamp. destruct (_ >? 0); same_scale.
Qed.

Lemma handlePointerUp_scaleStep
    (dom : Dom.t) (now : R) (e : PointerEvent.t) (i : Instance.t) :
  scaleStep i (handlePointerUp dom now e i).
Proof.
  unfold handlePointerUp.
  destruct (negb (Instance.isPanning i)); [apply scaleStep_same, sameShape_refl|].
  cbv zeta. destruct (Instance.didMove _); [|apply scaleStep_same; repeat split].
  destruct (_ || _).
  - apply scaleStep_same. repeat split.
  - apply scaleStep_same.
    eapply sameShape_trans; [|apply animateElasticReturn_sameShape]. repeat split.
Qed.

Lemma handleDoubleClick_scaleStep (dom : Dom.t) (e : MouseEvent.t) (i : Instance.t) :
  scaleStep i (handleDoubleClick dom e i).
Proof.
  unfold handleDoubleClick.
  destruct (stopAnimation_sameShape i) as (Ho & Hs & _).
  remember (stopAnimation i) as s eqn:E. clear E.
  cbv zeta. through_clamp. rewrite applyTransform_eq. unfold scaleStep. cbn in *.
  split; [congruence|]. right; right; left. rewrite Hcs, Hs, Ho. reflexivity.
Qed.

Lemma handleDoubleTap_scaleStep (dom : Dom.t) (cx cy : R) (i : Instance.t) :
  scaleStep i (handleDoubleTap dom cx cy i).
Proof.
  unfold handleDoubleTap.
  destruct (stopAnimation_sameShape i) as (Ho & Hs & _).
  remember (stopAnimation i) as s eqn:E. clear E.
  cbv zeta. through_clamp. rewrite applyTransform_eq. unfold scaleStep. cbn in *.
  split; [congruence|]. right; right; left. rewrite Hcs, Hs, Ho. reflexivity.
Qed.

Lemma handleTouchStart_scaleStep (now : R) (e : TouchEvent.t) (i : Instance.t) :
  scaleStep i (handleTouchStart now e i).
Proof.
  unfold handleTouchStart.
  destruct (TouchEvent.touches e) as [|t1 [|t2 [|t3 rest]]];
    apply scaleStep_same; repeat split.
Qed.

Lemma handleTouchMove_scaleStep
    (dom : Dom.t) (now : R) (e : TouchEvent.t) (i : Instance.t) :
  scaleStep i (handleTouchMove dom now e i).
Proof.
  destruct (Instance.isPinching i) eqn:Hp.
  - destruct (TouchEvent.touches e) as [|t1 [|t2 [|t3 rest]]] eqn:Ht.
    + unfold handleTouchMove. rewrite Hp, Ht.
      destruct (Instance.isPanning i); apply scaleStep_same, sameShape_refl.
    + unfold handleTouchMove. rewrite Hp, Ht.
      destruct (Instance.isPanning i); [|apply scaleStep_same, sameShape_refl].
      destruct (_ && _); [apply scaleStep_same, sameShape_refl|].
      cbv zeta. through_clamp. destruct (_ >? 0); same_scale.
    + destruct (handleTouchMove_pinch dom now e i t1 t2 Hp Ht)
        as (a & b & Hs & _ & Ho).
      split; [exact Ho|]. right; left. eexists. exact Hs.
    + unfold handleTouchMove. rewrite Hp, Ht.
      destruct (Instance.isPanning i); apply scaleStep_same, sameShape_refl.
  - unfold handleTouchMove. rewrite Hp.
    destruct (Instance.isPanning i); [|apply scaleStep_same, sameShape_refl].
    destruct (TouchEvent.touches e) as [|t1 [|t2 rest]];
      try apply scaleStep_same, sameShape_refl.
    destruct (_ && _); [apply scaleStep_same, sameShape_refl|].
    cbv zeta. through_clamp. destruct (_ >? 0); same_scale.
Qed.

Lemma scaleStep_then_same (i j k : Instance.t) :
  scaleStep i j -> sameShape j k -> scaleStep i k.
Proof.
  intros (Ho & Hcase) (Ho' & Hs' & _). split; [congruence|].
  rewrite Hs'. exact Hcase.
Qed.

Lemma handleDoubleTapCheck_scaleStep
    (dom : Dom.t) (now : R) (e : TouchEvent.t) (i : Instance.t) :
  scaleStep i (handleDoubleTapCheck dom now e i).
Proof.
  unfold handleDoubleTapCheck.
  destruct (TouchEvent.changedTouches e) as [|touch rest];
    [apply scaleStep_same, sameShape_refl|].
  destruct (_ && _); [|apply scaleStep_same; repeat split].
  cbv zeta.
  pose proof (handleDoubleTap_scaleStep dom (Touch.clientX touch)
                (Touch.clientY touch) i) as Htap.
  remember (handleDoubleTap dom (Touch.clientX touch) (Touch.clientY touch) i)
    as tapped eqn:E. clear E.
  eapply scaleStep_then_same; [exact Htap | repeat split].
Qed.

Lemma handleTouchEnd_scaleStep
    (dom : Dom.t) (now : R) (e : TouchEvent.t) (i : Instance.t) :
  scaleStep i (handleTouchEnd dom now e i).
Proof.
  unfold handleTouchEnd.
  eapply scaleStep_after_same; [|apply handleDoubleTapCheck_scaleStep].
  assert (Hrelease : forall j, sameShape i j ->
            sameShape i
              (if Instance.didMove j
                  && ((Rabs (velocityX j) >? 1) || (Rabs (velocityY j) >? 1))
               then let '(id, j') := requestAnimationFrame KineticTick j in
                    Instance.set_animationFrameId (Some id) j'
               else animateElasticReturn dom now j)).
  { intros j Hj. destruct (_ && _).
    - eapply sameShape_trans; [exact Hj|]. repeat split.
    - eapply sameShape_trans; [exact Hj|]. apply animateElasticReturn_sameShape. }
  destruct (TouchEvent.touches e) as [|t1 [|t2 rest]].
  - destruct (Instance.isPinching i).
    + apply Hrelease. repeat split.
    + destruct (Instance.isPanning i); [|apply sameShape_refl].
      apply Hrelease. repeat split.
  - destruct (Instance.isPinching i); repeat split.
  - apply sameShape_refl.
Qed.

Lemma animateKinetic_scaleStep (dom : Dom.t) (now : R) (i : Instance.t) :
  scaleStep i (animateKinetic dom now i).
Proof.
  unfold animateKinetic. destruct (kineticAtRest i).
  - apply scaleStep_same.
    eapply sameShape_trans; [apply stopAnimation_sameShape|].
    eapply sameShape_trans; [apply animateElasticReturn_sameShape|].
    apply applyTransform_sameShape.
  - cbv zeta.
    match goal with |- context [clampPosition dom ?j2 _ _ true] =>
      assert (Hg : options j2 = options i
                   /\ scale j2 = clampScale i (scale i + velocityScale i))
        by exact (kinetic_guards_instance
                    (Instance.set_scale (scale i + velocityScale i)
                       (Instance.set_y (Instance.y i + velocityY i)
                          (Instance.set_x (Instance.x i + velocityX i) i))));
      remember j2 as guarded eqn:E; clear E
    end.
    destruct Hg as (Hgo & Hgs).
    through_clamp. rewrite applyTransform_eq. unfold scaleStep. cbn in *.
    split; [congruence|]. right; left.
    exists (scale i + velocityScale i). congruence.
Qed.

Lemma Animations_animateKinetic_scaleStep (dom : Dom.t) (now : R) (i : Instance.t) :
  scaleStep i (Animations.animateKinetic dom now i).
Proof.
  unfold Animations.animateKinetic. destruct (kineticAtRest i).
  - apply scaleStep_same.
    eapply sameShape_trans; [apply stopAnimation_sameShape|].
    eapply sameShape_trans; [apply animateElasticReturn_sameShape|].
    apply applyTransform_sameShape.
  - cbv zeta.
    match goal with |- context [clampPosition dom ?j2 _ _ true] =>
      assert (Hg : options j2 = options i
                   /\ scale j2 = clampScale i (scale i + velocityScale i))
        by exact (kinetic_guards_instance
                    (Instance.set_scale (scale i + velocityScale i)
                       (Instance.set_y (Instance.y i + velocityY i)
                          (Instance.set_x (Instance.x i + velocityX i) i))));
      remember j2 as guarded eqn:E; clear E
    end.
    destruct Hg as (Hgo & Hgs).
    through_clamp. rewrite applyTransform_eq. unfold scaleStep. cbn in *.
    split; [congruence|]. right; left.
    exists (scale i + velocityScale i). congruence.
Qed.

Lemma animateElastic_scaleStep
    (dom : Dom.t) (now sx sy tx ty t0 : R) (i : Instance.t) :
  scaleStep i (animateElastic dom now sx sy tx ty t0 i).
Proof.
  unfold animateElastic. cbv zeta. rewrite applyTransform_eq.
  destruct (_ <? 1); apply scaleStep_same; repeat split.
Qed.

Lemma runFrame_scaleStep (dom : Dom.t) (now : R) (i : Instance.t) :
  scaleStep i (runFrame dom now i).
Proof.
  unfold runFrame.
  destruct (Instance.rafQueue i) as [|[id cb] rest];
    [apply scaleStep_same, sameShape_refl|].
  eapply (scaleStep_after_same i (Instance.set_rafQueue rest i));
    [repeat split|].
  destruct cb.
  - apply animateKinetic_scaleStep.
  - apply Animations_animateKinetic_scaleStep.
  - apply animateElastic_scaleStep.
Qed.

Lemma zoomToPoint_scaleStep (dom : Dom.t) (cx cy d : R) (i : Instance.t) :
  scaleStep i (zoomToPoint dom cx cy d i).
Proof.
  unfold zoomToPoint. destruct (_ =? _); [apply scaleStep_same, sameShape_refl|].
  cbv zeta. through_clamp. rewrite applyTransform_eq. unfold scaleStep.
  cbn in *. split; [congruence|]. right; left. eexists. exact Hcs.
Qed.

Lemma reset_scaleStep (dom : Dom.t) (i : Instance.t) : scaleStep i (reset dom i).
Proof.
  unfold reset.
  destruct (stopAnimation_sameShape i) as (Ho & Hs & _).
  remember (stopAnimation i) as s eqn:E. clear E.
  rewrite applyTransform_eq. unfold scaleStep. cbn.
  split; [exact Ho|]. right; right; right. rewrite Ho. reflexivity.
Qed.

Lemma rotate_scaleStep (dom : Dom.t) (deg : R) (i : Instance.t) :
  scaleStep i (rotate dom deg i).
Proof.
  unfold rotate.
  destruct (stopAnimation_sameShape i) as (Ho & Hs & _).
  remember (stopAnimation i) as s eqn:E. clear E.
  cbv zeta. same_scale.
Qed.

Lemma setTransform_scaleStep
    (dom : Dom.t) (t : PartialTransform.t) (u : option bool) (i : Instance.t) :
  scaleStep i (setTransform dom t u i).
Proof.
  unfold setTransform.
  destruct (stopAnimation_sameShape i) as (Ho & Hs & _).
  remember (stopAnimation i) as s eqn:E. clear E.
  cbv zeta.
  destruct (PartialTransform.scale t) as [v|];
    destruct (PartialTransform.x t); destruct (PartialTransform.y t);
    destruct (PartialTransform.rotation t);
    through_clamp; rewrite applyTransform_eq; unfold scaleStep; cbn in *;
    (split; [congruence|]);
    first [ left; congruence
          | right; left; exists v; rewrite Hcs; apply clampScale_options; exact Ho ].
Qed.

Lemma moveTo_scaleStep
    (dom : Dom.t) (tx ty : R) (u : option bool) (i : Instance.t) :
  scaleStep i (moveTo dom tx ty u i).
Proof.
  unfold moveTo.
  destruct (stopAnimation_sameShape i) as (Ho & Hs & _).
  remember (stopAnimation i) as s eqn:E. clear E.
  cbv zeta. same_scale.
Qed.

Lemma moveBy_scaleStep
    (dom : Dom.t) (dx dy : R) (u : option bool) (i : Instance.t) :
  scaleStep i (moveBy dom dx dy u i).
Proof.
  unfold moveBy.
  destruct (stopAnimation_sameShape i) as (Ho & Hs & _).
  remember (stopAnimation i) as s eqn:E. clear E.
  cbv zeta. same_scale.
Qed.

Lemma zoomTo_scaleStep
    (dom : Dom.t) (v : R) (px py : option R) (u : option bool) (i : Instance.t) :
  scaleStep i (zoomTo dom v px py u i).
Proof.
  unfold zoomTo.
  destruct (stopAnimation_sameShape i) as (Ho & Hs & _).
  remember (stopAnimation i) as s eqn:E. clear E.
  cbv zeta. destruct (_ =? _).
  - split; [exact Ho | left; exact Hs].
  - through_clamp. rewrite applyTransform_eq. unfold scaleStep. cbn in *.
    split; [congruence|]. right; left. exists v. rewrite Hcs.
    apply clampScale_options. exact Ho.
Qed.

Lemma step_scaleStep (a a' : bool) (i i' : Instance.t) :
  step a i a' i' -> scaleStep i i'.
Proof.
  intros H. destruct H.
  - apply handleWheel_scaleStep.
  - apply handlePointerDown_scaleStep.
  - apply handlePointerMove_scaleStep.
  - apply handlePointerUp_scaleStep.
  - apply handleDoubleClick_scaleStep.
  - apply handleTouchStart_scaleStep.
  - apply handleTouchMove_scaleStep.
  - apply handleTouchEnd_scaleStep.
  - apply runFrame_scaleStep.
  - apply zoomToPoint_scaleStep.
  - apply reset_scaleStep.
  - apply rotate_scaleStep.
  - apply setTransform_scaleStep.
  - apply moveTo_scaleStep.
  - apply moveBy_scaleStep.
  - apply zoomTo_scaleStep.
  - unfold centerOnImagePoint. apply moveTo_scaleStep.
Qed.

Lemma scaleStep_in_range (i i' : Instance.t) :
  0 <= Options.minScale (options i) ->
  Options.minScale (options i) <= Options.initialScale (options i)
    <= Options.maxScale (options i) ->
  scaleInRange i -> scaleStep i i' -> scaleInRange i'.
Proof.
  unfold scaleInRange. intros Hmin Hinit Hin (Ho & Hcase). rewrite Ho.
  destruct Hcase as [H | [[v H] | [H | H]]]; rewrite H.
  - exact Hin.
  - apply clamp_range. lra.
  - unfold Rmin. destruct (Rle_dec _ _); nra.
  - exact Hinit.
Qed.

Lemma constructor_fields (dom : Dom.t) (o : PartialOptions.t) (unset : Instance.t) :
  options (constructor dom o unset) = resolveOptions o
  /\ scale (constructor dom o unset) = Options.initialScale (resolveOptions o)
  /\ rotation (constructor dom o unset) = 0.
Proof. unfold constructor. rewrite applyTransform_eq. repeat split. Qed.

(** C4, as the code has it.  When the options satisfy
    [0 < minScale <= initialScale <= maxScale], every state of a run from
    the constructor by wheel, pointer and touch events, double click or
    tap, animation frames and the public API keeps the options it was built
    with and has [minScale <= scale <= maxScale], so that its scale is
    positive.  A run takes a pinch move only with a start distance that is
    not zero, and a pointer move during a pan only once [lastScale] has been
    assigned. *)
Theorem scale_range_invariant (o : PartialOptions.t) (a : bool) (i : Instance.t) :
  let opts := resolveOptions o in
  0 < Options.minScale opts ->
  Options.minScale opts <= Options.initialScale opts <= Options.maxScale opts ->
  run o a i ->
  options i = opts
  /\ Options.minScale opts <= scale i <= Options.maxScale opts
  /\ 0 < scale i.
Proof.
  intros opts Hmin Hinit Hrun.
  assert (H : options i = opts
              /\ Options.minScale opts <= scale i <= Options.maxScale opts).
  { induction Hrun as [dom unset | a i a' i' Hrun IH Hstep].
    - destruct (constructor_fields dom o unset) as (Ho & Hs & _).
      rewrite Ho, Hs. split; [reflexivity | exact Hinit].
    - destruct IH as (Ho & Hin).
      pose proof (step_scaleStep a a' i i' Hstep) as Hss.
      assert (Hr : scaleInRange i').
      { apply (scaleStep_in_range i i'); unfold scaleInRange; rewrite ?Ho;
          try assumption. apply Rlt_le. exact Hmin. }
      destruct Hss as (Ho' & _). unfold scaleInRange in Hr.
      rewrite Ho', Ho in Hr. split; [congruence | exact Hr]. }
  destruct H as (Ho & Hin). split; [exact Ho|]. split; [exact Hin|]. lra.
Qed.

Lemma scale_range_invariant_witness :
  let opts := resolveOptions noOptions in
  let pressed :=
    handlePointerDown 0 (PointerEvent.mk 0 0 0 1) (constructor dom500 noOptions idle) in
  let i := handlePointerMove dom500 16 pointerAt4030 pressed in
  0 < Options.minScale opts
  /\ Options.minScale opts <= Options.initialScale opts <= Options.maxScale opts
  /\ run noOptions true i
  /\ options i = opts
  /\ Options.minScale opts <= scale i <= Options.maxScale opts
  /\ 0 < scale i.
Proof.
  intros opts pressed i.
  assert (H1 : 0 < Options.minScale opts) by (cbn; lra).
  assert (H2 : Options.minScale opts <= Options.initialScale opts
               <= Options.maxScale opts) by (cbn; lra).
  assert (H3 : run noOptions true i).
  { apply (run_step noOptions true pressed true i).
    - apply (run_step noOptions false (constructor dom500 noOptions idle)
               (false || Z.eqb (PointerEvent.button (PointerEvent.mk 0 0 0 1)) 0)
               pressed).
      + apply run_new.
      + apply step_pointerDown.
    - apply step_pointerMove. intros _. reflexivity. }
  split; [exact H1|]. split; [exact H2|]. split; [exact H3|].
  apply (scale_range_invariant noOptions true i H1 H2 H3).
Defined.

(** C4 as stated fails at construction: with [initialScale = 5] and the
    default [maxScale = 3] the constructor leaves [scale = 5]. *)
Lemma scale_range_constructor_counterexample :
  let i := constructor dom500 oversized idle in
  run oversized false i
  /\ scale i = 5
  /\ Options.maxScale (options i) = 3
  /\ ~ (Options.minScale (options i) <= scale i <= Options.maxScale (options i)).
Proof.
  intros i.
  destruct (constructor_fields dom500 oversized idle) as (Ho & Hs & _).
  fold i in Ho, Hs.
  split; [apply run_new|].
  rewrite Ho, Hs. cbn. repeat split. lra.
Qed.

(** The scale left by a double tap or double click. *)
Lemma handleDoubleTap_scale (dom : Dom.t) (cx cy : R) (i : Instance.t) :
  scale (handleDoubleTap dom cx cy i)
  = Rmin (scale i * 1.5) (Options.maxScale (options i)).
Proof.
  unfold handleDoubleTap.
  destruct (stopAnimation_sameShape i) as (Ho & Hs & _).
  remember (stopAnimation i) as s eqn:E. clear E.
  cbv zeta. through_clamp. rewrite applyTransform_eq. cbn in *.
  rewrite Hcs, Hs, Ho. reflexivity.
Qed.

(** Why [0 <= minScale] is asked for: with [minScale = -2] a double tap at
    scale -1.5 leaves scale -2.25, below the minimum. *)
Lemma double_tap_negative_scale :
  scaleInRange mirrored
  /\ scale (handleDoubleTap dom500 250 250 mirrored) = -2.25
  /\ ~ scaleInRange (handleDoubleTap dom500 250 250 mirrored).
Proof.
  assert (Hs : scale (handleDoubleTap dom500 250 250 mirrored) = -2.25).
  { rewrite handleDoubleTap_scale. cbn. minmax. }
  assert (Ho : options (handleDoubleTap dom500 250 250 mirrored) = options mirrored).
  { apply handleDoubleTap_scaleStep. }
  split; [unfold scaleInRange; cbn; lra|]. split; [exact Hs|].
  unfold scaleInRange. rewrite Hs, Ho. cbn. lra.
Qed.

(** * Further properties of the engine *)

(** ** utils.ts: elastic offset and bounds *)

Lemma exp_neg_le_1 (n : R) : 0 <= n -> 0 < exp (- n) <= 1.
Proof.
  intros Hn. split; [apply exp_pos|].
  destruct (Req_dec n 0) as [-> | Hne].
  - rewrite Ropp_0, exp_0. lra.
  - rewrite <- exp_0. left. apply exp_increasing. lra.
Qed.

(** X1. For a non-negative overshoot and a non-negative resistance the
    elastic offset is non-negative and never more than the linear damping
    [overshoot * elasticResistance]. *)
Theorem calculateElasticOffset_bounds (instance : Instance.t) (overshoot : R) :
  0 <= overshoot ->
  0 <= Options.elasticResistance (options instance) ->
  0 <= calculateElasticOffset instance overshoot
    <= overshoot * Options.elasticResistance (options instance).
Proof.
  intros Ho Hr. unfold calculateElasticOffset.
  destruct (_ <? _).
  - split; [apply Rmult_le_pos; assumption | lra].
  - assert (Hn : 0 <= overshoot / 100) by lra.
    destruct (exp_neg_le_1 _ Hn) as [He1 He2].
    set (t := exp (- (overshoot / 100))) in *.
    assert (Hp : 0 <= overshoot * Options.elasticResistance (options instance))
      by (apply Rmult_le_pos; assumption).
    nra.
Qed.

Lemma calculateElasticOffset_bounds_witness :
  0 <= 200
  /\ 0 <= Options.elasticResistance (options idle)
  /\ 0 <= calculateElasticOffset idle 200
       <= 200 * Options.elasticResistance (options idle).
Proof.
  assert (H1 : 0 <= 200) by lra.
  assert (H2 : 0 <= Options.elasticResistance (options idle)) by (cbn; lra).
  split; [exact H1|]. split; [exact H2|].
  apply (calculateElasticOffset_bounds idle 200 H1 H2).
Defined.

(** X2. The non-elastic [clampPosition] leaves the instance as it is,
    whatever the bounds are.  When the hard bounds are ordered it is a
    projection onto them: its result lies within them, a position within
    them is returned as it is, and clamping twice is clamping once. *)
Theorem clampPosition_hard_projection
    (dom : Dom.t) (instance : Instance.t) (nextX nextY : R) :
  let clamped := fst (clampPosition dom instance nextX nextY false) in
  snd (clampPosition dom instance nextX nextY false) = instance
  /\ (ordered (hardBounds dom instance) ->
      withinBounds (hardBounds dom instance) (Point.x clamped) (Point.y clamped)
      /\ (withinBounds (hardBounds dom instance) nextX nextY ->
          clamped = Point.mk nextX nextY)
      /\ fst (clampPosition dom instance (Point.x clamped) (Point.y clamped) false)
         = clamped).
Proof.
  intros clamped. unfold clamped, clampPosition.
  rewrite calculateBoundaries_hard. cbn [fst snd Point.x Point.y].
  split; [reflexivity|].
  intros [HX HY]. unfold hardBounds in *.
  rewrite calculateBoundaries_hard in *. cbn [fst snd Point.x Point.y] in *.
  cbn [Bounds.minX Bounds.maxX Bounds.minY Bounds.maxY] in *.
  split; [|split].
  - split; apply clamp_range; assumption.
  - intros [Hx Hy]. cbn [Bounds.minX Bounds.maxX Bounds.minY Bounds.maxY] in *.
    rewrite !clamp_fixed by assumption. reflexivity.
  - f_equal; apply clamp_fixed; apply clamp_range; assumption.
Qed.

Lemma clampPosition_hard_projection_witness :
  ordered (hardBounds dom500 idle)
  /\ snd (clampPosition dom500 idle 1000 20 false) = idle
  /\ withinBounds (hardBounds dom500 idle)
       (Point.x (fst (clampPosition dom500 idle 1000 20 false)))
       (Point.y (fst (clampPosition dom500 idle 1000 20 false))).
Proof.
  assert (H : ordered (hardBounds dom500 idle)).
  { apply padding_ordered. rewrite padding_eq. cbn. minmax. }
  split; [exact H|].
  destruct (clampPosition_hard_projection dom500 idle 1000 20) as (H1 & H2).
  split; [exact H1 | exact (proj1 (H2 H))].
Defined.

(** X3. The hard bounds are symmetric about 0 on both axes, whatever the
    scale, rotation, sizes and padding are. *)
Theorem hardBounds_symmetric (dom : Dom.t) (instance : Instance.t) :
  Bounds.minX (hardBounds dom instance) = - Bounds.maxX (hardBounds dom instance)
  /\ Bounds.minY (hardBounds dom instance) = - Bounds.maxY (hardBounds dom instance).
Proof.
  unfold hardBounds. rewrite calculateBoundaries_hard.
  cbn [fst Bounds.minX Bounds.maxX Bounds.minY Bounds.maxY].
  pose proof (getSizes_boundsX dom instance) as HX.
  pose proof (getSizes_boundsY dom instance) as HY.
  cbv zeta in HX, HY.
  destruct (ElementSizes.fitsHorizontally _); injection HX as -> ->;
    destruct (ElementSizes.fitsVertically _); injection HY as -> ->;
    split; lra.
Qed.

(** X4. The rotated footprint: with rotation 0 it is the scaled layout
    size, and with rotation 90 width and height change places. *)
Theorem footprint_quarter_turn (dom : Dom.t) (instance : Instance.t) :
  (rotation instance = 0 ->
   ElementSizes.contentWidth (getSizes dom instance)
     = Dom.offsetWidth dom * scale instance
   /\ ElementSizes.contentHeight (getSizes dom instance)
     = Dom.offsetHeight dom * scale instance)
  /\ (rotation instance = 90 ->
      ElementSizes.contentWidth (getSizes dom instance)
        = Dom.offsetHeight dom * scale instance
      /\ ElementSizes.contentHeight (getSizes dom instance)
        = Dom.offsetWidth dom * scale instance).
Proof.
  split; [apply getSizes_unrotated|].
  intros Hr.
  assert (Hc : ElementSizes.contentWidth (getSizes dom instance)
    = Dom.offsetWidth dom * scale instance * Rabs (cos (rotation instance * PI / 180))
      + Dom.offsetHeight dom * scale instance * Rabs (sin (rotation instance * PI / 180))).
  { unfold getSizes.
    destruct (_ <=? DOMRect.width _); destruct (_ <=? DOMRect.height _); reflexivity. }
  assert (Hh : ElementSizes.contentHeight (getSizes dom instance)
    = Dom.offsetWidth dom * scale instance * Rabs (sin (rotation instance * PI / 180))
      + Dom.offsetHeight dom * scale instance * Rabs (cos (rotation instance * PI / 180))).
  { unfold getSizes.
    destruct (_ <=? DOMRect.width _); destruct (_ <=? DOMRect.height _); reflexivity. }
  rewrite Hc, Hh, Hr.
  replace (90 * PI / 180) with (PI / 2) by lra.
  rewrite cos_PI2, sin_PI2, Rabs_R1, Rabs_R0. split; ring.
Qed.

Lemma footprint_quarter_turn_witness :
  rotation turned = 90
  /\ ElementSizes.contentWidth (getSizes domTall turned)
     = Dom.offsetHeight domTall * scale turned
  /\ ElementSizes.contentHeight (getSizes domTall turned)
     = Dom.offsetWidth domTall * scale turned.
Proof.
  split; [reflexivity|].
  apply (proj2 (footprint_quarter_turn domTall turned) eq_refl).
Defined.

(** X5. The elastic variant only shifts the ranges: each range it returns is
    as wide as the hard range on that axis. *)
Theorem calculateBoundaries_elastic_width
    (dom : Dom.t) (instance : Instance.t) (useElastic : bool) :
  let b := fst (calculateBoundaries dom instance useElastic) in
  let hard := hardBounds dom instance in
  Bounds.maxX b - Bounds.minX b = Bounds.maxX hard - Bounds.minX hard
  /\ Bounds.maxY b - Bounds.minY b = Bounds.maxY hard - Bounds.minY hard.
Proof.
  unfold hardBounds. rewrite calculateBoundaries_hard.
  unfold calculateBoundaries.
  repeat match goal with
         | |- context [if ?c then _ else _] => destruct c
         end; cbn; split; lra.
Qed.

(** ** core.ts: settling a translation into the hard bounds *)

Lemma clamp_idem (lo hi v : R) :
  Rmin hi (Rmax lo (Rmin hi (Rmax lo v))) = Rmin hi (Rmax lo v).
Proof. minmax. Qed.

Lemma clampPosition_hard_eq (dom : Dom.t) (j : Instance.t) (a b : R) :
  clampPosition dom j a b false
  = (Point.mk
       (Rmin (Bounds.maxX (hardBounds dom j)) (Rmax (Bounds.minX (hardBounds dom j)) a))
       (Rmin (Bounds.maxY (hardBounds dom j)) (Rmax (Bounds.minY (hardBounds dom j)) b)),
     j).
Proof. reflexivity. Qed.

(** The tail shared by the API calls: a non-elastic [clampPosition] of the
    current translation followed by [applyTransform].  It leaves the hard
    clamp of the translation and nothing else changed but the elastic
    offsets. *)
Lemma hard_settle (dom : Dom.t) (f : Instance.t -> bool) (j : Instance.t) :
  let r :=
    (let '(clamped, j1) :=
       clampPosition dom j (Instance.x j) (Instance.y j) false in
     applyTransform dom (f (Instance.set_y (Point.y clamped)
                              (Instance.set_x (Point.x clamped) j1)))
       (Instance.set_y (Point.y clamped) (Instance.set_x (Point.x clamped) j1))) in
  let b := hardBounds dom j in
  Instance.x r = Rmin (Bounds.maxX b) (Rmax (Bounds.minX b) (Instance.x j))
  /\ Instance.y r = Rmin (Bounds.maxY b) (Rmax (Bounds.minY b) (Instance.y j))
  /\ sameShape j r
  /\ velocityX r = velocityX j /\ velocityY r = velocityY j
  /\ velocityScale r = velocityScale j
  /\ Instance.rafQueue r = Instance.rafQueue j.
Proof.
  cbv zeta. rewrite clampPosition_hard_eq. cbv iota beta.
  cbn [Point.x Point.y].
  remember (hardBounds dom j) as b eqn:Hb.
  match goal with |- context [applyTransform dom ?u ?s] =>
    remember u as u' eqn:Hu; clear Hu;
    assert (Hs : sameShape j s /\ Instance.x s
                   = Rmin (Bounds.maxX b) (Rmax (Bounds.minX b) (Instance.x j))
                 /\ Instance.y s
                   = Rmin (Bounds.maxY b) (Rmax (Bounds.minY b) (Instance.y j))
                 /\ velocityX s = velocityX j /\ velocityY s = velocityY j
                 /\ velocityScale s = velocityScale j
                 /\ Instance.rafQueue s = Instance.rafQueue j)
      by (repeat split);
    remember s as s' eqn:E; clear E
  end.
  destruct Hs as (Hsh & Hx & Hy & Hvx & Hvy & Hvs & Hq).
  destruct (applyTransform_fields dom u' s') as (Ex & Ey & Es & Er & Eo).
  cbv zeta in Ex, Ey.
  rewrite (sameShape_hardBounds dom j s' Hsh), <- Hb in Ex, Ey.
  rewrite Ex, Ey, Hx, Hy, !clamp_idem.
  repeat split; try assumption.
  - destruct Hsh as (H1 & _). rewrite Eo. exact H1.
  - destruct Hsh as (_ & H1 & _). rewrite Es. exact H1.
  - destruct Hsh as (_ & _ & H1). rewrite Er. exact H1.
Qed.

(** ** events.ts: pivot math and the wheel *)

Lemma applyAroundPivot_same (dom : Dom.t) (instance : Instance.t) (Px Py : R) :
  scale instance <> 0 ->
  let instance' :=
    applyAroundPivot dom Px Py (scale instance) (rotation instance) instance in
  Instance.x instance' = Instance.x instance
  /\ Instance.y instance' = Instance.y instance
  /\ scale instance' = scale instance
  /\ rotation instance' = rotation instance.
Proof.
  intros Hs instance'. unfold instance', applyAroundPivot. cbn.
  pose proof (sin2_cos2 (rotation instance * PI / 180)) as Hu.
  unfold Rsqr in Hu.
  set (c := cos (rotation instance * PI / 180)) in *.
  set (s := sin (rotation instance * PI / 180)) in *.
  assert (Hs2 : s ^ 2 = 1 - c ^ 2) by (simpl; lra).
  repeat split; field_simplify_eq; trivial; rewrite ?Hs2; ring.
Qed.

(** X6. [applyAroundPivot] at the current scale and rotation is the
    identity on the transform, whatever the pivot, when the scale is not
    zero. *)
Theorem applyAroundPivot_identity
    (dom : Dom.t) (instance : Instance.t) (Px Py : R) :
  scale instance <> 0 ->
  let instance' :=
    applyAroundPivot dom Px Py (scale instance) (rotation instance) instance in
  Instance.x instance' = Instance.x instance
  /\ Instance.y instance' = Instance.y instance
  /\ scale instance' = scale instance
  /\ rotation instance' = rotation instance.
Proof.
  intros Hs instance'. unfold instance', applyAroundPivot. cbn.
  pose proof (sin2_cos2 (rotation instance * PI / 180)) as Hu.
  unfold Rsqr in Hu.
  set (c := cos (rotation instance * PI / 180)) in *.
  set (s := sin (rotation instance * PI / 180)) in *.
  assert (Hs2 : s ^ 2 = 1 - c ^ 2) by (simpl; lra).
  repeat split; field_simplify_eq; trivial; rewrite ?Hs2; ring.
Qed.

Lemma applyAroundPivot_identity_witness :
  scale turned <> 0
  /\ Instance.x (applyAroundPivot dom500 100 200 (scale turned) (rotation turned) turned)
     = Instance.x turned
  /\ Instance.y (applyAroundPivot dom500 100 200 (scale turned) (rotation turned) turned)
     = Instance.y turned.
Proof.
  assert (H : scale turned <> 0) by (simpl; lra).
  split; [exact H|].
  destruct (applyAroundPivot_identity dom500 turned 100 200 H) as (Hx & Hy & _).
  split; [exact Hx | exact Hy].
Defined.

Lemma applyAroundPivot_fields
    (dom : Dom.t) (Px Py newScale newRotation : R) (i : Instance.t) :
  scale (applyAroundPivot dom Px Py newScale newRotation i) = newScale
  /\ rotation (applyAroundPivot dom Px Py newScale newRotation i) = newRotation
  /\ options (applyAroundPivot dom Px Py newScale newRotation i) = options i.
Proof. repeat split. Qed.

(** X7. A wheel event leaves rotation and options alone.  With
    [factor = 1 - deltaY * wheelZoomSpeed]: if [factor <= 0] the event is
    rejected and the transform stays as it is; otherwise the new scale is
    [clampScale (scale * factor)]. *)
Theorem handleWheel_zoom (dom : Dom.t) (e : WheelEvent.t) (i : Instance.t) :
  let factor :=
    1 + - WheelEvent.deltaY e * Options.wheelZoomSpeed (options i) in
  rotation (handleWheel dom e i) = rotation i
  /\ options (handleWheel dom e i) = options i
  /\ (factor <= 0 ->
      scale (handleWheel dom e i) = scale i
      /\ Instance.x (handleWheel dom e i) = Instance.x i
      /\ Instance.y (handleWheel dom e i) = Instance.y i)
  /\ (0 < factor ->
      scale (handleWheel dom e i) = clampScale i (scale i * factor)).
Proof.
  intros factor. unfold handleWheel.
  destruct (stopAnimation_sameMotion i) as (Ho & Hs & Hr & Hx & Hy & _).
  remember (stopAnimation i) as s eqn:E. clear E.
  cbv zeta. rewrite Ho, Hs, Hr. fold factor.
  destruct (factor <=? 0) eqn:Ef.
  - apply Rleb_true in Ef. repeat split; try assumption. intros; lra.
  - apply Rleb_false in Ef.
    match goal with |- context [applyTransform dom false ?p] =>
      destruct (applyTransform_fields dom false p) as (_ & _ & Es & Er & Eo);
      destruct (applyAroundPivot_fields dom (WheelEvent.clientX e)
                  (WheelEvent.clientY e) (clampScale s (scale i * factor))
                  (rotation i) s) as (Ps & Pr & Po)
    end.
    rewrite Es, Er, Eo, Ps, Pr, Po.
    repeat split; try assumption; try (intros; lra).
    intros _. apply clampScale_options. exact Ho.
Qed.

Lemma handleWheel_zoom_witness :
  0 < 1 + - WheelEvent.deltaY wheelUp * Options.wheelZoomSpeed (options idle)
  /\ scale (handleWheel dom500 wheelUp idle) = 1.15.
Proof.
  assert (H : 0 < 1 + - WheelEvent.deltaY wheelUp
                      * Options.wheelZoomSpeed (options idle)) by (cbn; lra).
  split; [exact H|].
  destruct (handleWheel_zoom dom500 wheelUp idle) as (_ & _ & _ & Hs).
  rewrite (Hs H). unfold clampScale. cbn. minmax.
Defined.

(** ** core.ts: the public transform API *)

Lemma moveTo_fields
    (dom : Dom.t) (tx ty : R) (u : option bool) (i : Instance.t) :
  let b := hardBounds dom i in
  let centerX := DOMRect.width (Dom.containerRect dom) / 2 in
  let centerY := DOMRect.height (Dom.containerRect dom) / 2 in
  Instance.x (moveTo dom tx ty u i)
    = Rmin (Bounds.maxX b) (Rmax (Bounds.minX b) (tx - centerX))
  /\ Instance.y (moveTo dom tx ty u i)
    = Rmin (Bounds.maxY b) (Rmax (Bounds.minY b) (ty - centerY))
  /\ sameShape i (moveTo dom tx ty u i).
Proof.
  cbv zeta. unfold moveTo.
  pose proof (stopAnimation_sameShape i) as Hsh.
  remember (stopAnimation i) as s eqn:E. clear E.
  cbv zeta.
  match goal with |- context [clampPosition dom ?j _ _ false] =>
    pose proof (hard_settle dom
                  (fun k => orDefault u true && Options.transition (options k)) j)
      as Hset;
    assert (Hj : sameShape s j) by (repeat split)
  end.
  cbv beta zeta in Hset.
  destruct Hset as (Hx & Hy & Hshape & _).
  rewrite Hx, Hy.
  rewrite (sameShape_hardBounds dom i _ (sameShape_trans _ _ _ Hsh Hj)).
  repeat split;
    apply (sameShape_trans _ _ _ Hsh (sameShape_trans _ _ _ Hj Hshape)).
Qed.

Lemma moveBy_fields
    (dom : Dom.t) (dx dy : R) (u : option bool) (i : Instance.t) :
  let b := hardBounds dom i in
  Instance.x (moveBy dom dx dy u i)
    = Rmin (Bounds.maxX b) (Rmax (Bounds.minX b) (Instance.x i + dx))
  /\ Instance.y (moveBy dom dx dy u i)
    = Rmin (Bounds.maxY b) (Rmax (Bounds.minY b) (Instance.y i + dy))
  /\ sameShape i (moveBy dom dx dy u i).
Proof.
  cbv zeta. unfold moveBy.
  destruct (stopAnimation_sameMotion i) as (Ho & Hs & Hr & Hx0 & Hy0 & _).
  assert (Hsh : sameShape i (stopAnimation i)) by (repeat split; assumption).
  remember (stopAnimation i) as s eqn:E. clear E.
  cbv zeta.
  match goal with |- context [clampPosition dom ?j _ _ false] =>
    pose proof (hard_settle dom
                  (fun k => orDefault u true && Options.transition (options k)) j)
      as Hset;
    assert (Hj : sameShape s j) by (repeat split)
  end.
  cbv beta zeta in Hset.
  destruct Hset as (Hx & Hy & Hshape & _).
  rewrite Hx, Hy.
  rewrite (sameShape_hardBounds dom i _ (sameShape_trans _ _ _ Hsh Hj)).
  cbn [Instance.x Instance.y Instance.set_x Instance.set_y].
  rewrite Hx0, Hy0.
  repeat split;
    apply (sameShape_trans _ _ _ Hsh (sameShape_trans _ _ _ Hj Hshape)).
Qed.



(** X9. [moveBy (dx, dy)] ends where [moveTo] ends when aimed at the
    current translation plus the delta, seen from the container centre. *)
Theorem moveBy_is_relative_moveTo
    (dom : Dom.t) (dx dy : R) (u u' : option bool) (i : Instance.t) :
  let centerX := DOMRect.width (Dom.containerRect dom) / 2 in
  let centerY := DOMRect.height (Dom.containerRect dom) / 2 in
  getTransform (moveBy dom dx dy u i)
  = getTransform
      (moveTo dom (Instance.x i + dx + centerX) (Instance.y i + dy + centerY) u' i).
Proof.
  cbv zeta.
  destruct (moveBy_fields dom dx dy u i) as (Hx & Hy & _ & Hs & Hr).
  destruct (moveTo_fields dom
              (Instance.x i + dx + DOMRect.width (Dom.containerRect dom) / 2)
              (Instance.y i + dy + DOMRect.height (Dom.containerRect dom) / 2) u' i)
    as (Hx' & Hy' & _ & Hs' & Hr').
  cbv zeta in Hx, Hy, Hx', Hy'.
  unfold getTransform. rewrite Hx, Hy, Hs, Hr, Hx', Hy', Hs', Hr'.
  f_equal; f_equal; f_equal; lra.
Qed.

Lemma rotate_fields (dom : Dom.t) (deg : R) (i : Instance.t) :
  let r := rotate dom deg i in
  rotation r = js_rem (rotation i + deg) 360
  /\ scale r = scale i
  /\ options r = options i
  /\ Instance.x r
     = Rmin (Bounds.maxX (hardBounds dom r))
         (Rmax (Bounds.minX (hardBounds dom r)) (Instance.x i))
  /\ Instance.y r
     = Rmin (Bounds.maxY (hardBounds dom r))
         (Rmax (Bounds.minY (hardBounds dom r)) (Instance.y i)).
Proof.
  cbv zeta. unfold rotate.
  destruct (stopAnimation_sameMotion i) as (Ho & Hs & Hr & Hx0 & Hy0 & _).
  remember (stopAnimation i) as s eqn:E. clear E.
  cbv zeta.
  match goal with |- context [clampPosition dom ?j _ _ false] =>
    pose proof (hard_settle dom (fun _ => true) j) as Hset;
    assert (Hj : options j = options s /\ scale j = scale s
                 /\ rotation j = js_rem (rotation s + deg) 360
                 /\ Instance.x j = Instance.x s /\ Instance.y j = Instance.y s)
      by (repeat split);
    remember j as j' eqn:Ej; clear Ej
  end.
  cbv beta zeta in Hset.
  destruct Hset as (Hx & Hy & Hshape & _).
  destruct Hj as (Jo & Js & Jr & Jx & Jy).
  match type of Hx with Instance.x ?z = _ => remember z as r eqn:Er; clear Er end.
  rewrite (sameShape_hardBounds dom j' r Hshape).
  destruct Hshape as (So & Ss & Sr).
  rewrite Hx, Hy, So, Ss, Sr, Jo, Js, Jr, Jx, Jy, Ho, Hs, Hr, Hx0, Hy0.
  repeat split.
Qed.

(** X10. [rotate deg] sets the rotation to the truncating remainder of
    [rotation + deg] by 360: it stays strictly between -360 and 360 and
    takes the sign of [rotation + deg]; the scale is unchanged, and the
    translation is re-clamped into the hard bounds of the new rotation. *)
Theorem rotate_remainder (dom : Dom.t) (deg : R) (i : Instance.t) :
  let r := rotate dom deg i in
  rotation r = js_rem (rotation i + deg) 360
  /\ -360 < rotation r < 360
  /\ (0 <= rotation i + deg -> 0 <= rotation r)
  /\ (rotation i + deg < 0 -> rotation r <= 0)
  /\ scale r = scale i
  /\ (ordered (hardBounds dom r) ->
      withinBounds (hardBounds dom r) (Instance.x r) (Instance.y r)).
Proof.
  cbv zeta. destruct (rotate_fields dom deg i) as (Hr & Hs & _ & Hx & Hy).
  cbv zeta in Hr, Hs, Hx, Hy.
  split; [exact Hr|]. rewrite Hr.
  assert (H360 : 0 < 360) by lra.
  split; [|split; [|split; [|split]]].
  - destruct (Rle_lt_dec 0 (rotation i + deg)) as [Hge | Hlt].
    + pose proof (js_rem_nonneg _ 360 H360 Hge). lra.
    + pose proof (js_rem_neg _ 360 H360 Hlt). lra.
  - intros Hge. apply (js_rem_nonneg _ 360 H360 Hge).
  - intros Hlt. apply (js_rem_neg _ 360 H360 Hlt).
  - exact Hs.
  - intros [HX HY]. rewrite Hx, Hy. split; apply clamp_range; assumption.
Qed.




Lemma Reqb_false (a b : R) : (a =? b) = false <-> a <> b.
Proof. unfold Reqb. destruct (Req_dec_T a b); split; intros; try easy. Qed.




(** ** events.ts: double click and double tap *)

Lemma handleDoubleClick_fields (dom : Dom.t) (e : MouseEvent.t) (i : Instance.t) :
  scale (handleDoubleClick dom e i)
  = Rmin (scale i * 1.5) (Options.maxScale (options i))
  /\ rotation (handleDoubleClick dom e i) = rotation i.
Proof.
  unfold handleDoubleClick.
  destruct (stopAnimation_sameShape i) as (Ho & Hs & Hr).
  remember (stopAnimation i) as s eqn:E. clear E.
  cbv zeta.
  match goal with |- context [clampPosition dom ?j _ _ false] =>
    pose proof (hard_settle dom (fun _ => true) j) as Hset;
    assert (Hj : scale j = Rmin (scale s * 1.5) (Options.maxScale (options s))
                 /\ rotation j = rotation s) by (repeat split);
    remember j as j' eqn:Ej; clear Ej
  end.
  cbv beta zeta in Hset. destruct Hset as (_ & _ & (_ & Ss & Sr) & _).
  destruct Hj as (Js & Jr).
  rewrite Ss, Sr, Js, Jr, Hs, Hr, Ho. split; reflexivity.
Qed.

Lemma handleDoubleTap_fields (dom : Dom.t) (cx cy : R) (i : Instance.t) :
  scale (handleDoubleTap dom cx cy i)
  = Rmin (scale i * 1.5) (Options.maxScale (options i))
  /\ rotation (handleDoubleTap dom cx cy i) = rotation i.
Proof.
  unfold handleDoubleTap.
  destruct (stopAnimation_sameShape i) as (Ho & Hs & Hr).
  remember (stopAnimation i) as s eqn:E. clear E.
  cbv zeta.
  match goal with |- context [clampPosition dom ?j _ _ false] =>
    pose proof (hard_settle dom (fun _ => true) j) as Hset;
    assert (Hj : scale j = Rmin (scale s * 1.5) (Options.maxScale (options s))
                 /\ rotation j = rotation s) by (repeat split);
    remember j as j' eqn:Ej; clear Ej
  end.
  cbv beta zeta in Hset. destruct Hset as (_ & _ & (_ & Ss & Sr) & _).
  destruct Hj as (Js & Jr).
  rewrite Ss, Sr, Js, Jr, Hs, Hr, Ho. split; reflexivity.
Qed.

(** X13. A double click and a double tap set the scale to
    [min (scale * 1.5) maxScale] and keep the rotation, from every state.
    From a scale between 0 and [maxScale] the scale does not decrease and
    does not pass [maxScale], and at [maxScale] it stays. *)
Theorem double_tap_zoom
    (dom : Dom.t) (e : MouseEvent.t) (cx cy : R) (i : Instance.t) :
  let target := Rmin (scale i * 1.5) (Options.maxScale (options i)) in
  scale (handleDoubleClick dom e i) = target
  /\ scale (handleDoubleTap dom cx cy i) = target
  /\ rotation (handleDoubleClick dom e i) = rotation i
  /\ rotation (handleDoubleTap dom cx cy i) = rotation i
  /\ (0 <= scale i <= Options.maxScale (options i) ->
      scale i <= target <= Options.maxScale (options i)
      /\ (scale i = Options.maxScale (options i) -> target = scale i)).
Proof.
  intros target.
  destruct (handleDoubleClick_fields dom e i) as (Hs1 & Hr1).
  destruct (handleDoubleTap_fields dom cx cy i) as (Hs2 & Hr2).
  split; [exact Hs1|]. split; [exact Hs2|].
  split; [exact Hr1|]. split; [exact Hr2|].
  intros Hin. unfold target. split; [split|].
  - unfold Rmin. destruct (Rle_dec _ _); lra.
  - apply Rmin_r.
  - intros Heq. unfold Rmin. destruct (Rle_dec _ _); lra.
Qed.

Lemma double_tap_zoom_witness :
  0 <= scale idle <= Options.maxScale (options idle)
  /\ scale (handleDoubleTap dom500 100 100 idle) = 1.5
  /\ scale (handleDoubleClick dom500 (MouseEvent.mk 100 100) idle) = 1.5
  /\ scale idle <= 1.5 <= Options.maxScale (options idle).
Proof.
  assert (H : 0 <= scale idle <= Options.maxScale (options idle)) by (cbn; lra).
  split; [exact H|].
  destruct (double_tap_zoom dom500 (MouseEvent.mk 100 100) 100 100 idle)
    as (H1 & H2 & _ & _ & H3).
  destruct (H3 H) as (H4 & _).
  assert (Ht : Rmin (scale idle * 1.5) (Options.maxScale (options idle)) = 1.5)
    by (cbn; minmax).
  rewrite Ht in H1, H2, H4.
  split; [exact H2|]. split; [exact H1 | exact H4].
Defined.

(** ** events.ts: two-finger tracking *)

Lemma handleTouchMove_tracked
    (dom : Dom.t) (now : R) (a b : Touch.t) (ch : list Touch.t) (i : Instance.t) :
  Instance.isPinching i = true ->
  Instance.touchIds i = (Some (Touch.identifier a), Some (Touch.identifier b)) ->
  Touch.identifier a <> Touch.identifier b ->
  handleTouchMove dom now (TouchEvent.mk [a; b] ch) i = pinchResult dom a b i
  /\ handleTouchMove dom now (TouchEvent.mk [b; a] ch) i = pinchResult dom a b i.
Proof.
  intros Hp Hids Hne.
  destruct (findTouch_pair a b Hne) as (F1 & F2 & F3 & F4).
  unfold handleTouchMove. rewrite Hp. cbn [TouchEvent.touches].
  rewrite Hids. cbn [fst snd]. rewrite F1, F2, F3, F4.
  split; reflexivity.
Qed.

(** X14. Finger tracking: once both fingers of a pinch are tracked by their
    identifiers, the order in which a move event lists them does not matter. *)
Theorem handleTouchMove_finger_order
    (dom : Dom.t) (now : R) (a b : Touch.t) (ch ch' : list Touch.t)
    (i : Instance.t) :
  Instance.isPinching i = true ->
  Instance.touchIds i = (Some (Touch.identifier a), Some (Touch.identifier b)) ->
  Touch.identifier a <> Touch.identifier b ->
  handleTouchMove dom now (TouchEvent.mk [a; b] ch) i
  = handleTouchMove dom now (TouchEvent.mk [b; a] ch') i.
Proof.
  intros Hp Hids Hne.
  rewrite (proj1 (handleTouchMove_tracked dom now a b ch i Hp Hids Hne)).
  rewrite (proj2 (handleTouchMove_tracked dom now a b ch' i Hp Hids Hne)).
  reflexivity.
Qed.

Lemma handleTouchMove_finger_order_witness :
  Instance.isPinching (pinching 30) = true
  /\ Instance.touchIds (pinching 30)
     = (Some (Touch.identifier fingerA), Some (Touch.identifier fingerB))
  /\ Touch.identifier fingerA <> Touch.identifier fingerB
  /\ handleTouchMove dom500 0 (TouchEvent.mk [fingerA; fingerB] []) (pinching 30)
     = handleTouchMove dom500 0 (TouchEvent.mk [fingerB; fingerA] []) (pinching 30).
Proof.
  assert (H : Touch.identifier fingerA <> Touch.identifier fingerB)
    by (cbn; discriminate).
  split; [reflexivity|]. split; [reflexivity|]. split; [exact H|].
  apply (handleTouchMove_finger_order dom500 0 fingerA fingerB [] [] (pinching 30)
           eq_refl eq_refl H).
Defined.

Lemma js_rem_small (a b : R) : 0 <= a < b -> js_rem a b = a.
Proof.
  intros [Ha Hb]. unfold js_rem.
  assert (Hq : 0 <= a / b < 1).
  { split.
    - unfold Rdiv. apply Rmult_le_pos; [lra | left; apply Rinv_0_lt_compat; lra].
    - apply (Rmult_lt_reg_r b); [lra|]. unfold Rdiv.
      rewrite Rmult_assoc, Rinv_l by lra. lra. }
  destruct (Rtrunc_nonneg _ (proj1 Hq)) as [Hlo Hhi].
  assert (Hk : Rtrunc (a / b) = 0%Z).
  { assert (H1 : (Rtrunc (a / b) < 1)%Z) by (apply lt_IZR; lra).
    assert (H2 : (-1 < Rtrunc (a / b))%Z) by (apply lt_IZR; lra).
    lia. }
  rewrite Hk. lra.
Qed.

Lemma handleTouchStart_pinch_fields (now : R) (a b : Touch.t) (ch : list Touch.t)
    (i : Instance.t) :
  let i0 := handleTouchStart now (TouchEvent.mk [a; b] ch) i in
  Instance.isPinching i0 = true
  /\ Instance.isPanning i0 = false
  /\ Instance.touchIds i0 = (Some (Touch.identifier a), Some (Touch.identifier b))
  /\ Instance.touchStartDistance i0
     = getDistance (Touch.clientX a) (Touch.clientY a)
         (Touch.clientX b) (Touch.clientY b)
  /\ Instance.touchStartAngle i0
     = getAngle (Touch.clientX a) (Touch.clientY a)
         (Touch.clientX b) (Touch.clientY b)
  /\ Instance.touchStartScale i0 = scale i
  /\ Instance.initialRotation i0 = rotation i
  /\ sameMotion i i0.
Proof. cbv zeta. unfold handleTouchStart. cbn. repeat split. Qed.

Lemma pinchResult_fields (dom : Dom.t) (a b : Touch.t) (i : Instance.t)
    (newScale newRotation : R) :
  clampScale i
    (Instance.touchStartScale i
     * (getDistance (Touch.clientX a) (Touch.clientY a)
          (Touch.clientX b) (Touch.clientY b) / Instance.touchStartDistance i)
     * Options.pinchSpeed (options i)) = newScale ->
  (if Options.enableRotation (options i)
   then js_rem (Instance.initialRotation i
                + (getAngle (Touch.clientX a) (Touch.clientY a)
                     (Touch.clientX b) (Touch.clientY b)
                   - Instance.touchStartAngle i) * (180 / PI) + 180) 360 - 180
   else rotation i) = newRotation ->
  exists i1 : Instance.t,
    sameMotion i i1
    /\ pinchResult dom a b i
       = applyTransform dom false
           (applyAroundPivot dom
              (Point.x (getCenter (Touch.clientX a) (Touch.clientY a)
                          (Touch.clientX b) (Touch.clientY b)))
              (Point.y (getCenter (Touch.clientX a) (Touch.clientY a)
                          (Touch.clientX b) (Touch.clientY b)))
              newScale newRotation i1).
Proof.
  intros Hs Hr. exists (setTouchPoint b (setTouchPoint a i)).
  split; [repeat split|]. unfold pinchResult. cbv zeta. rewrite Hs, Hr. reflexivity.
Qed.

Lemma pinchResult_stationary (dom : Dom.t) (a b : Touch.t) (i : Instance.t) :
  Instance.touchStartDistance i
    = getDistance (Touch.clientX a) (Touch.clientY a)
        (Touch.clientX b) (Touch.clientY b) ->
  Instance.touchStartAngle i
    = getAngle (Touch.clientX a) (Touch.clientY a)
        (Touch.clientX b) (Touch.clientY b) ->
  Instance.touchStartScale i = scale i ->
  Instance.initialRotation i = rotation i ->
  Instance.touchStartDistance i <> 0 ->
  Options.pinchSpeed (options i) = 1 ->
  Options.minScale (options i) <= scale i <= Options.maxScale (options i) ->
  scale i <> 0 ->
  Options.enableRotation (options i) = false \/ -180 <= rotation i < 180 ->
  withinBounds (hardBounds dom i) (Instance.x i) (Instance.y i) ->
  getTransform (pinchResult dom a b i) = getTransform i.
Proof.
  intros Hdist Hang Hss Hir Hd Hspeed Hin Hs0 Hrot [HX HY].
  destruct (pinchResult_fields dom a b i (scale i) (rotation i))
    as (i1 & Hm & Heq).
  - rewrite Hss, <- Hdist, Hspeed.
    replace (scale i * (Instance.touchStartDistance i / Instance.touchStartDistance i)
             * 1) with (scale i) by (field; exact Hd).
    unfold clampScale. apply clamp_fixed. exact Hin.
  - destruct (Options.enableRotation (options i)); [|reflexivity].
    destruct Hrot as [Hf | Hrange]; [discriminate|].
    rewrite Hir, Hang.
    match goal with |- js_rem ?t 360 - 180 = _ =>
      replace t with (rotation i + 180) by ring
    end.
    rewrite js_rem_small by lra. lra.
  - rewrite Heq. clear Heq.
    destruct Hm as (Ho & Hs & Hr & Hx & Hy & _).
    rewrite <- Hs, <- Hr.
    destruct (applyAroundPivot_same dom i1
                (Point.x (getCenter (Touch.clientX a) (Touch.clientY a)
                            (Touch.clientX b) (Touch.clientY b)))
                (Point.y (getCenter (Touch.clientX a) (Touch.clientY a)
                            (Touch.clientX b) (Touch.clientY b))))
      as (Px & Py & Ps & Pr); [rewrite Hs; exact Hs0|].
    cbv zeta in Px, Py, Ps, Pr.
    match type of Px with Instance.x ?p = _ =>
      assert (Po : options p = options i1) by reflexivity;
      remember p as p' eqn:Ep; clear Ep
    end.
    destruct (applyTransform_fields dom false p') as (Ex & Ey & Es & Er & _).
    cbv zeta in Ex, Ey.
    assert (Hb : hardBounds dom p' = hardBounds dom i).
    { apply sameShape_hardBounds. repeat split; congruence. }
    rewrite Hb in Ex, Ey.
    unfold getTransform. rewrite Ex, Ey, Es, Er, Px, Py, Ps, Pr, Hx, Hy.
    rewrite !clamp_fixed by assumption. rewrite Hs, Hr. reflexivity.
Qed.

(** X15. A pinch whose fingers have not moved changes nothing: after a
    two-finger touch start, a move event that reports both fingers where
    they went down leaves scale, translation and rotation as they were, when
    the fingers are apart, [pinchSpeed] is 1, the scale is in range and not
    zero, the translation is within the hard bounds, and the rotation
    gesture is off or the rotation already lies in [[-180, 180)]. *)
Theorem stationary_pinch_keeps_transform
    (dom : Dom.t) (now0 now : R) (a b : Touch.t) (ch0 ch : list Touch.t)
    (i : Instance.t) :
  Touch.identifier a <> Touch.identifier b ->
  getDistance (Touch.clientX a) (Touch.clientY a) (Touch.clientX b) (Touch.clientY b)
    <> 0 ->
  Options.pinchSpeed (options i) = 1 ->
  Options.minScale (options i) <= scale i <= Options.maxScale (options i) ->
  scale i <> 0 ->
  Options.enableRotation (options i) = false \/ -180 <= rotation i < 180 ->
  withinBounds (hardBounds dom i) (Instance.x i) (Instance.y i) ->
  getTransform
    (handleTouchMove dom now (TouchEvent.mk [a; b] ch)
       (handleTouchStart now0 (TouchEvent.mk [a; b] ch0) i))
  = getTransform i.
Proof.
  intros Hne Hd Hspeed Hin Hs0 Hrot Hwithin.
  destruct (handleTouchStart_pinch_fields now0 a b ch0 i)
    as (Hp & _ & Hids & Hdist & Hang & Hss & Hir & Hm).
  cbv zeta in Hp, Hids, Hdist, Hang, Hss, Hir, Hm.
  remember (handleTouchStart now0 (TouchEvent.mk [a; b] ch0) i) as i0 eqn:E.
  clear E.
  destruct Hm as (Ho & Hs & Hr & Hx & Hy & _).
  rewrite (proj1 (handleTouchMove_tracked dom now a b ch i0 Hp Hids Hne)).
  assert (Hb : hardBounds dom i0 = hardBounds dom i).
  { apply sameShape_hardBounds. repeat split; assumption. }
  rewrite (pinchResult_stationary dom a b i0).
  - unfold getTransform. rewrite Hs, Hr, Hx, Hy. reflexivity.
  - exact Hdist.
  - exact Hang.
  - rewrite Hss, Hs. reflexivity.
  - rewrite Hir, Hr. reflexivity.
  - rewrite Hdist. exact Hd.
  - rewrite Ho. exact Hspeed.
  - rewrite Ho, Hs. exact Hin.
  - rewrite Hs. exact Hs0.
  - rewrite Ho, Hr. exact Hrot.
  - rewrite Hb, Hx, Hy. exact Hwithin.
Qed.

(** X16. The inter-finger distance is never negative, does not depend on
    the order of the fingers, and is zero exactly when both fingers are at
    the same point. *)
Theorem getDistance_zero_iff_coincident (x1 y1 x2 y2 : R) :
  0 <= getDistance x1 y1 x2 y2
  /\ getDistance x1 y1 x2 y2 = getDistance x2 y2 x1 y1
  /\ (getDistance x1 y1 x2 y2 = 0 <-> x1 = x2 /\ y1 = y2).
Proof.
  unfold getDistance, Math_hypot.
  split; [apply sqrt_pos|]. split.
  - f_equal. ring.
  - pose proof (Rle_0_sqr (x2 - x1)) as Hx. pose proof (Rle_0_sqr (y2 - y1)) as Hy.
    unfold Rsqr in Hx, Hy.
    assert (Hsq : 0 <= (x2 - x1) * (x2 - x1) + (y2 - y1) * (y2 - y1)) by lra.
    split.
    + intros H0. apply sqrt_eq_0 in H0; [|exact Hsq].
      assert (Hx0 : (x2 - x1) * (x2 - x1) = 0) by lra.
      assert (Hy0 : (y2 - y1) * (y2 - y1) = 0) by lra.
      apply Rmult_integral in Hx0. apply Rmult_integral in Hy0.
      split; [destruct Hx0 | destruct Hy0]; lra.
    + intros [-> ->].
      replace ((x2 - x2) * (x2 - x2) + (y2 - y2) * (y2 - y2)) with 0 by ring.
      apply sqrt_0.
Qed.

Lemma fingers_apart :
  getDistance (Touch.clientX fingerA) (Touch.clientY fingerA)
    (Touch.clientX fingerB) (Touch.clientY fingerB) <> 0.
Proof.
  unfold getDistance, Math_hypot. cbn. intros H0.
  apply sqrt_eq_0 in H0; lra.
Qed.

Lemma idle_within_dom500 :
  withinBounds (hardBounds dom500 idle) (Instance.x idle) (Instance.y idle).
Proof.
  rewrite (dom500_hardBounds idle eq_refl eq_refl), padding_eq.
  unfold withinBounds. cbn. minmax.
Qed.

Lemma stationary_pinch_keeps_transform_witness :
  Touch.identifier fingerA <> Touch.identifier fingerB
  /\ Options.pinchSpeed (options idle) = 1
  /\ Options.minScale (options idle) <= scale idle <= Options.maxScale (options idle)
  /\ scale idle <> 0
  /\ Options.enableRotation (options idle) = false
  /\ getTransform
       (handleTouchMove dom500 16 (TouchEvent.mk [fingerA; fingerB] [])
          (handleTouchStart 0 (TouchEvent.mk [fingerA; fingerB] []) idle))
     = getTransform idle.
Proof.
  assert (H1 : Touch.identifier fingerA <> Touch.identifier fingerB)
    by (cbn; discriminate).
  assert (H2 : Options.pinchSpeed (options idle) = 1) by reflexivity.
  assert (H3 : Options.minScale (options idle) <= scale idle
               <= Options.maxScale (options idle)) by (cbn; lra).
  assert (H4 : scale idle <> 0) by (cbn; lra).
  assert (H5 : Options.enableRotation (options idle) = false) by reflexivity.
  split; [exact H1|]. split; [exact H2|]. split; [exact H3|].
  split; [exact H4|]. split; [exact H5|].
  apply (stationary_pinch_keeps_transform dom500 0 16 fingerA fingerB [] [] idle
           H1 fingers_apart H2 H3 H4 (or_introl H5) idle_within_dom500).
Defined.

(** ** events.ts: panning with the pointer *)

Lemma cap_abs (m v : R) : 0 <= m -> Rabs (Rmax (- m) (Rmin m v)) <= m.
Proof.
  intros Hm. apply Rabs_le. unfold Rmax, Rmin.
  destruct (Rle_dec m v); destruct (Rle_dec (- m) _); lra.
Qed.

(** [clampPosition] writes the two elastic offsets and nothing else. *)
Lemma calculateBoundaries_only_elastic
    (dom : Dom.t) (i : Instance.t) (useElastic : bool) :
  exists ex ey : R,
    snd (calculateBoundaries dom i useElastic)
    = Instance.set_elasticY ey (Instance.set_elasticX ex i).
Proof.
  assert (Hid : i = Instance.set_elasticY (elasticY i)
                      (Instance.set_elasticX (elasticX i) i))
    by (destruct i; reflexivity).
  unfold calculateBoundaries.
  destruct (negb useElastic || negb (Options.elastic (options i)));
    [exists (elasticX i), (elasticY i); exact Hid|].
  destruct (ElementSizes.fitsHorizontally (getSizes dom i)
            && ElementSizes.fitsVertically (getSizes dom i));
    [exists (elasticX i), (elasticY i); exact Hid|].
  cbv zeta.
  destruct (negb (ElementSizes.fitsHorizontally (getSizes dom i)));
    destruct (negb (ElementSizes.fitsVertically (getSizes dom i)));
    repeat match goal with
           | |- context [if ?c then _ else _] => destruct c
           end;
    cbn [snd]; eexists; eexists;
    first [ exact Hid
          | reflexivity
          | destruct i; reflexivity ].
Qed.

Lemma clampPosition_only_elastic
    (dom : Dom.t) (i : Instance.t) (a b : R) (useElastic : bool) :
  exists ex ey : R,
    snd (clampPosition dom i a b useElastic)
    = Instance.set_elasticY ey (Instance.set_elasticX ex i).
Proof.
  destruct (calculateBoundaries_only_elastic dom i useElastic) as (ex & ey & H).
  exists ex, ey. unfold clampPosition.
  destruct (calculateBoundaries dom i useElastic) as [bd j]. exact H.
Qed.

(** X17. A pointer move does nothing unless a pan is in progress, and it
    does nothing while the pointer has stayed within the drag threshold of
    the press.  A move that counts, with time elapsed since the last sample,
    marks the drag as moved, keeps the scale, and samples velocities capped
    at [maxSpeed] on each axis and at 0.01 for the scale. *)
Theorem handlePointerMove_pan
    (dom : Dom.t) (now : R) (e : PointerEvent.t) (i : Instance.t) :
  let dx := PointerEvent.clientX e - Instance.startClientX i in
  let dy := PointerEvent.clientY e - Instance.startClientY i in
  let r := handlePointerMove dom now e i in
  (Instance.isPanning i = false -> r = i)
  /\ (Instance.didMove i = false ->
      Math_hypot dx dy < Instance.DRAG_THRESHOLD i -> r = i)
  /\ (Instance.isPanning i = true ->
      Instance.didMove i = true \/ Instance.DRAG_THRESHOLD i <= Math_hypot dx dy ->
      0 < now - Instance.lastMoveTime i ->
      0 <= Options.maxSpeed (options i) ->
      Instance.didMove r = true
      /\ scale r = scale i
      /\ Rabs (velocityX r) <= Options.maxSpeed (options i)
      /\ Rabs (velocityY r) <= Options.maxSpeed (options i)
      /\ Rabs (velocityScale r) <= 0.01).
Proof.
  cbv zeta. unfold handlePointerMove. split; [|split].
  - intros ->. reflexivity.
  - intros Hd Hlt. destruct (Instance.isPanning i); [|reflexivity].
    rewrite Hd. cbn [negb andb].
    rewrite (proj2 (Rltb_true _ _) Hlt). reflexivity.
  - intros Hp Hmoved Hdt Hmax. rewrite Hp. cbn [negb].
    assert (Hgate : negb (Instance.didMove i)
                    && (Math_hypot (PointerEvent.clientX e - Instance.startClientX i)
                          (PointerEvent.clientY e - Instance.startClientY i)
                        <? Instance.DRAG_THRESHOLD i) = false).
    { destruct Hmoved as [-> | Hge]; [reflexivity|].
      rewrite (proj2 (Rltb_false _ _) Hge). apply andb_false_r. }
    rewrite Hgate. cbv zeta.
    match goal with |- context [clampPosition ?d ?j ?a ?b true] =>
      destruct (clampPosition_only_elastic d j a b true) as (ex & ey & Hsnd);
      destruct (clampPosition d j a b true) as [clamped moved];
      cbn [snd] in Hsnd; subst moved
    end.
    cbn [Instance.lastMoveTime Instance.set_x Instance.set_y Instance.set_elasticX
         Instance.set_elasticY Instance.set_didMove].
    rewrite (proj2 (Rgtb_true _ _) Hdt).
    rewrite applyTransform_eq. cbn.
    repeat split; try (apply cap_abs; lra).
    apply Rabs_le. minmax.
Qed.

Lemma handlePointerMove_pan_witness :
  Instance.isPanning dragging = true
  /\ Instance.didMove dragging = true
  /\ 0 < 16 - Instance.lastMoveTime dragging
  /\ 0 <= Options.maxSpeed (options dragging)
  /\ Rabs (velocityX (handlePointerMove dom500 16 pointerAt4030 dragging))
     <= Options.maxSpeed (options dragging).
Proof.
  assert (H1 : 0 < 16 - Instance.lastMoveTime dragging) by (cbn; lra).
  assert (H2 : 0 <= Options.maxSpeed (options dragging)) by (cbn; lra).
  split; [reflexivity|]. split; [reflexivity|]. split; [exact H1|].
  split; [exact H2|].
  destruct (handlePointerMove_pan dom500 16 pointerAt4030 dragging) as (_ & _ & H).
  destruct (H eq_refl (or_introl eq_refl) H1 H2) as (_ & _ & Hv & _).
  exact Hv.
Defined.

(** X18. Releasing the pointer: without a pan in progress nothing happens;
    a press that never moved ends the pan and schedules nothing; a drag
    released with a velocity above 1 on an axis (or a scale velocity above
    0.001) queues exactly the kinetic tick and records its handle, leaving
    the transform as it is. *)
Theorem handlePointerUp_release
    (dom : Dom.t) (now : R) (e : PointerEvent.t) (i : Instance.t) :
  let r := handlePointerUp dom now e i in
  (Instance.isPanning i = false -> r = i)
  /\ (Instance.isPanning i = true -> Instance.didMove i = false ->
      r = Instance.set_isPanning false i)
  /\ (Instance.isPanning i = true -> Instance.didMove i = true ->
      1 < Rabs (velocityX i) \/ 1 < Rabs (velocityY i)
        \/ 0.001 < Rabs (velocityScale i) ->
      Instance.rafQueue r
        = Instance.rafQueue i ++ [(Instance.rafNext i, KineticTick)]
      /\ Instance.animationFrameId r = Some (Instance.rafNext i)
      /\ Instance.isPanning r = false
      /\ getTransform r = getTransform i).
Proof.
  cbv zeta. unfold handlePointerUp. split; [|split].
  - intros ->. reflexivity.
  - intros -> Hd. cbn [negb]. cbv zeta.
    change (Instance.didMove (Instance.set_isPanning false i))
      with (Instance.didMove i).
    rewrite Hd. reflexivity.
  - intros -> Hd Hfast. cbn [negb]. cbv zeta.
    change (Instance.didMove (Instance.set_isPanning false i))
      with (Instance.didMove i).
    rewrite Hd.
    change (velocityX (Instance.set_isPanning false i)) with (velocityX i).
    change (velocityY (Instance.set_isPanning false i)) with (velocityY i).
    change (velocityScale (Instance.set_isPanning false i)) with (velocityScale i).
    assert (Hcond : (Rabs (velocityX i) >? 1) || (Rabs (velocityY i) >? 1)
                    || (Rabs (velocityScale i) >? 0.001) = true).
    { destruct Hfast as [H | [H | H]]; apply Rgtb_true in H; rewrite H;
        rewrite ?orb_true_r; reflexivity. }
    rewrite Hcond. repeat split.
Qed.

Lemma handlePointerUp_release_witness :
  let released := Instance.set_velocityX 10 dragging in
  Instance.isPanning released = true
  /\ Instance.didMove released = true
  /\ 1 < Rabs (velocityX released)
  /\ Instance.rafQueue (handlePointerUp dom500 20 pointerAt4030 released)
     = [(0%nat, KineticTick)].
Proof.
  intros released.
  assert (H : 1 < Rabs (velocityX released)).
  { change (velocityX released) with 10. rewrite Rabs_right; lra. }
  split; [reflexivity|]. split; [reflexivity|]. split; [exact H|].
  destruct (handlePointerUp_release dom500 20 pointerAt4030 released) as (_ & _ & Hr).
  destruct (Hr eq_refl eq_refl (or_introl H)) as (Hq & _).
  exact Hq.
Defined.

(** ** animations.ts: cancelling *)

(** X19. [stopAnimation] clears both frame handles, takes the callbacks
    they name out of the frame queue and adds none, leaves the transform and
    the velocities alone, and stopping twice is stopping once. *)
Theorem stopAnimation_cancels (i : Instance.t) :
  let s := stopAnimation i in
  Instance.animationFrameId s = None
  /\ Instance.elasticAnimationId s = None
  /\ (forall id cb, In (id, cb) (Instance.rafQueue s) ->
        In (id, cb) (Instance.rafQueue i)
        /\ Instance.animationFrameId i <> Some id
        /\ Instance.elasticAnimationId i <> Some id)
  /\ getTransform s = getTransform i
  /\ stopAnimation s = s.
Proof.
  cbv zeta.
  destruct (stopAnimation_handles i) as (H1 & H2).
  destruct (stopAnimation_sameMotion i) as (_ & Hs & Hr & Hx & Hy & _).
  split; [exact H1|]. split; [exact H2|]. split; [|split].
  - intros id cb. unfold stopAnimation, cancelAnimationFrame.
    destruct (Instance.animationFrameId i) as [k|] eqn:E1;
      destruct (Instance.elasticAnimationId i) as [k'|] eqn:E2; cbn;
      rewrite ?E2; cbn; rewrite ?filter_In; cbn;
      rewrite ?negb_true_iff, ?Nat.eqb_neq; intros Hin.
    + destruct Hin as ((Hin & Hk) & Hk'). repeat split; congruence.
    + destruct Hin as (Hin & Hk). repeat split; congruence.
    + destruct Hin as (Hin & Hk). repeat split; congruence.
    + repeat split; congruence.
  - unfold getTransform. rewrite Hs, Hr, Hx, Hy. reflexivity.
  - unfold stopAnimation at 1. rewrite H1, H2. reflexivity.
Qed.

(** ** animations.ts: the elastic return *)

(** X20. One tick of the elastic return.  Before the 300 ms have passed it
    asks for the next frame with the same captured values; from 300 ms on it
    puts the translation at the hard clamp of the target, ends the run and
    asks for no frame.  The scale and the rotation are never touched. *)
Theorem animateElastic_tick
    (dom : Dom.t) (now sx sy tx ty t0 : R) (i : Instance.t) :
  let r := animateElastic dom now sx sy tx ty t0 i in
  let b := hardBounds dom i in
  scale r = scale i /\ rotation r = rotation i
  /\ (now - t0 < 300 ->
      Instance.rafQueue r
        = Instance.rafQueue i ++ [(Instance.rafNext i, ElasticTick sx sy tx ty t0)]
      /\ Instance.elasticAnimationId r = Some (Instance.rafNext i))
  /\ (300 <= now - t0 ->
      Instance.x r = Rmin (Bounds.maxX b) (Rmax (Bounds.minX b) tx)
      /\ Instance.y r = Rmin (Bounds.maxY b) (Rmax (Bounds.minY b) ty)
      /\ Instance.isAnimatingElastic r = false
      /\ Instance.elasticAnimationId r = None
      /\ Instance.rafQueue r = Instance.rafQueue i).
Proof.
  cbv zeta. unfold animateElastic. cbv zeta. rewrite applyTransform_eq.
  assert (Hb : forall vx vy,
            hardBounds dom (Instance.set_y vy (Instance.set_x vx i))
            = hardBounds dom i).
  { intros vx vy. apply sameShape_hardBounds. repeat split. }
  rewrite Hb.
  destruct (Rmin ((now - t0) / 300) 1 <? 1) eqn:Ep.
  - apply Rltb_true in Ep.
    assert (Hlt : now - t0 < 300 <-> True).
    { split; [trivial|]. intros _.
      unfold Rmin in Ep. destruct (Rle_dec _ _); lra. }
    repeat split; intros; exfalso; unfold Rmin in Ep;
      destruct (Rle_dec _ _); lra.
  - apply Rltb_false in Ep.
    assert (Hge : 300 <= now - t0).
    { unfold Rmin in Ep. destruct (Rle_dec _ _); lra. }
    assert (Hp : Rmin ((now - t0) / 300) 1 = 1).
    { unfold Rmin. destruct (Rle_dec _ _); lra. }
    rewrite Hp.
    replace (1 - (1 - 1) ^ 3) with 1 by ring.
    replace (sx + (tx - sx) * 1) with tx by ring.
    replace (sy + (ty - sy) * 1) with ty by ring.
    repeat split; intros; try lra.
Qed.

Lemma animateElastic_tick_witness :
  300 <= 400 - 0
  /\ Instance.x (animateElastic dom500 400 400 0 300 0 0 dragged) = 300
  /\ Instance.isAnimatingElastic (animateElastic dom500 400 400 0 300 0 0 dragged)
     = false.
Proof.
  assert (H : 300 <= 400 - 0) by lra.
  split; [exact H|].
  destruct (animateElastic_tick dom500 400 400 0 300 0 0 dragged)
    as (_ & _ & _ & Hend).
  destruct (Hend H) as (Hx & _ & Ha & _).
  split; [|exact Ha]. rewrite Hx.
  rewrite (dom500_hardBounds dragged eq_refl eq_refl), padding_eq. cbn. minmax.
Defined.

(** X21. [animateElasticReturn] starts nothing, and leaves the instance as
    it is, when an elastic run is already under way, when the elastic option
    is off, or when the translation lies within the hard bounds. *)
Theorem animateElasticReturn_idle
    (dom : Dom.t) (now : R) (i : Instance.t) :
  (Instance.isAnimatingElastic i = true -> animateElasticReturn dom now i = i)
  /\ (Options.elastic (options i) = false -> animateElasticReturn dom now i = i)
  /\ (withinBounds (hardBounds dom i) (Instance.x i) (Instance.y i) ->
      animateElasticReturn dom now i = i).
Proof.
  unfold animateElasticReturn. split; [|split].
  - intros ->. reflexivity.
  - intros ->. rewrite orb_true_r. reflexivity.
  - intros [[HX1 HX2] [HY1 HY2]].
    destruct (_ || _); [reflexivity|].
    rewrite calculateBoundaries_hard. unfold hardBounds in *.
    rewrite calculateBoundaries_hard in *.
    cbn [fst Bounds.minX Bounds.maxX Bounds.minY Bounds.maxY] in *.
    rewrite (proj2 (Rltb_false _ _) HX1), (proj2 (Rgtb_false _ _) HX2).
    rewrite (proj2 (Rltb_false _ _) HY1), (proj2 (Rgtb_false _ _) HY2).
    cbn [orb]. rewrite !andb_false_r. reflexivity.
Qed.

Lemma animateElasticReturn_idle_witness :
  withinBounds (hardBounds dom500 idle) (Instance.x idle) (Instance.y idle)
  /\ animateElasticReturn dom500 0 idle = idle.
Proof.
  split; [exact idle_within_dom500|].
  apply (proj2 (proj2 (animateElasticReturn_idle dom500 0 idle)) idle_within_dom500).
Defined.

(** ** events.ts: double-tap detection *)

Lemma handleDoubleTapCheck_eq
    (dom : Dom.t) (now : R) (touch : Touch.t) (rest touches : list Touch.t)
    (i : Instance.t) :
  handleDoubleTapCheck dom now (TouchEvent.mk touches (touch :: rest)) i
  = if (now - Instance.lastTouchEndTime i <? Instance.DOUBLE_TAP_DELAY i)
       && (Rabs (Touch.clientX touch - Instance.lastTouchX i)
           <? Instance.DOUBLE_TAP_THRESHOLD i)
       && (Rabs (Touch.clientY touch - Instance.lastTouchY i)
           <? Instance.DOUBLE_TAP_THRESHOLD i)
    then
      Instance.set_lastTouchY 0
        (Instance.set_lastTouchX 0
           (Instance.set_lastTouchEndTime 0
              (handleDoubleTap dom (Touch.clientX touch) (Touch.clientY touch) i)))
    else
      Instance.set_lastTouchY (Touch.clientY touch)
        (Instance.set_lastTouchX (Touch.clientX touch)
           (Instance.set_lastTouchEndTime now i)).
Proof. reflexivity. Qed.

Lemma handleDoubleTapCheck_detected
    (dom : Dom.t) (now : R) (touch : Touch.t) (rest touches : list Touch.t)
    (i : Instance.t) :
  now - Instance.lastTouchEndTime i < Instance.DOUBLE_TAP_DELAY i
  /\ Rabs (Touch.clientX touch - Instance.lastTouchX i)
     < Instance.DOUBLE_TAP_THRESHOLD i
  /\ Rabs (Touch.clientY touch - Instance.lastTouchY i)
     < Instance.DOUBLE_TAP_THRESHOLD i ->
  handleDoubleTapCheck dom now (TouchEvent.mk touches (touch :: rest)) i
  = Instance.set_lastTouchY 0
      (Instance.set_lastTouchX 0
         (Instance.set_lastTouchEndTime 0
            (handleDoubleTap dom (Touch.clientX touch) (Touch.clientY touch) i))).
Proof.
  intros (H1 & H2 & H3). rewrite handleDoubleTapCheck_eq.
  rewrite (proj2 (Rltb_true _ _) H1), (proj2 (Rltb_true _ _) H2),
    (proj2 (Rltb_true _ _) H3).
  reflexivity.
Qed.

Lemma handleDoubleTapCheck_missed
    (dom : Dom.t) (now : R) (touch : Touch.t) (rest touches : list Touch.t)
    (i : Instance.t) :
  ~ (now - Instance.lastTouchEndTime i < Instance.DOUBLE_TAP_DELAY i
     /\ Rabs (Touch.clientX touch - Instance.lastTouchX i)
        < Instance.DOUBLE_TAP_THRESHOLD i
     /\ Rabs (Touch.clientY touch - Instance.lastTouchY i)
        < Instance.DOUBLE_TAP_THRESHOLD i) ->
  handleDoubleTapCheck dom now (TouchEvent.mk touches (touch :: rest)) i
  = Instance.set_lastTouchY (Touch.clientY touch)
      (Instance.set_lastTouchX (Touch.clientX touch)
         (Instance.set_lastTouchEndTime now i)).
Proof.
  intros Hn. rewrite handleDoubleTapCheck_eq.
  destruct (now - Instance.lastTouchEndTime i <? Instance.DOUBLE_TAP_DELAY i) eqn:E1;
    [|reflexivity].
  destruct (Rabs (Touch.clientX touch - Instance.lastTouchX i)
            <? Instance.DOUBLE_TAP_THRESHOLD i) eqn:E2; [|reflexivity].
  destruct (Rabs (Touch.clientY touch - Instance.lastTouchY i)
            <? Instance.DOUBLE_TAP_THRESHOLD i) eqn:E3; [|reflexivity].
  exfalso. apply Hn. apply Rltb_true in E1, E2, E3. repeat split; assumption.
Qed.

(** Writing the tap record touches nothing else. *)
Lemma tap_record_fields (t tx ty : R) (j : Instance.t) :
  let r :=
    Instance.set_lastTouchY ty
      (Instance.set_lastTouchX tx (Instance.set_lastTouchEndTime t j)) in
  scale r = scale j
  /\ getTransform r = getTransform j
  /\ Instance.lastTouchEndTime r = t
  /\ Instance.lastTouchX r = tx
  /\ Instance.lastTouchY r = ty.
Proof. repeat split. Qed.

(** X22. [handleDoubleTapCheck] does nothing without a changed touch.  A
    touch that ends less than [DOUBLE_TAP_DELAY] after the recorded one and
    less than [DOUBLE_TAP_THRESHOLD] from it on both axes zooms like a
    double tap and wipes the record, so that the next tap starts afresh;
    any other touch only records its time and position and leaves the
    transform as it is. *)
Theorem handleDoubleTapCheck_detection
    (dom : Dom.t) (now : R) (touch : Touch.t) (rest touches : list Touch.t)
    (i : Instance.t) :
  let e := TouchEvent.mk touches (touch :: rest) in
  let r := handleDoubleTapCheck dom now e i in
  let near :=
    now - Instance.lastTouchEndTime i < Instance.DOUBLE_TAP_DELAY i
    /\ Rabs (Touch.clientX touch - Instance.lastTouchX i)
       < Instance.DOUBLE_TAP_THRESHOLD i
    /\ Rabs (Touch.clientY touch - Instance.lastTouchY i)
       < Instance.DOUBLE_TAP_THRESHOLD i in
  handleDoubleTapCheck dom now (TouchEvent.mk touches []) i = i
  /\ (near ->
      scale r = Rmin (scale i * 1.5) (Options.maxScale (options i))
      /\ Instance.lastTouchEndTime r = 0
      /\ Instance.lastTouchX r = 0 /\ Instance.lastTouchY r = 0)
  /\ (~ near ->
      getTransform r = getTransform i
      /\ Instance.lastTouchEndTime r = now
      /\ Instance.lastTouchX r = Touch.clientX touch
      /\ Instance.lastTouchY r = Touch.clientY touch).
Proof.
  cbv zeta. split; [reflexivity|]. split.
  - intros (H1 & H2 & H3).
    rewrite (handleDoubleTapCheck_detected dom now touch rest touches i)
      by (repeat split; assumption).
    destruct (tap_record_fields 0 0 0
                (handleDoubleTap dom (Touch.clientX touch) (Touch.clientY touch) i))
      as (Fs & _ & Ft & Fx & Fy).
    rewrite Fs, Ft, Fx, Fy.
    destruct (handleDoubleTap_fields dom (Touch.clientX touch) (Touch.clientY touch) i)
      as (Hs & _).
    rewrite Hs. repeat split.
  - intros Hn.
    rewrite (handleDoubleTapCheck_missed dom now touch rest touches i Hn).
    destruct (tap_record_fields now (Touch.clientX touch) (Touch.clientY touch) i)
      as (_ & Fg & Ft & Fx & Fy).
    rewrite Fg, Ft, Fx, Fy. repeat split.
Qed.

Lemma handleDoubleTapCheck_detection_witness :
  let tapped :=
    Instance.set_lastTouchY 100
      (Instance.set_lastTouchX 100 (Instance.set_lastTouchEndTime 1000 idle)) in
  (1200 - Instance.lastTouchEndTime tapped < Instance.DOUBLE_TAP_DELAY tapped
   /\ Rabs (103 - Instance.lastTouchX tapped) < Instance.DOUBLE_TAP_THRESHOLD tapped
   /\ Rabs (98 - Instance.lastTouchY tapped) < Instance.DOUBLE_TAP_THRESHOLD tapped)
  /\ scale (handleDoubleTapCheck dom500 1200
              (TouchEvent.mk [] [Touch.mk 1 103 98]) tapped) = 1.5.
Proof.
  intros tapped.
  assert (H : 1200 - Instance.lastTouchEndTime tapped < Instance.DOUBLE_TAP_DELAY tapped
              /\ Rabs (103 - Instance.lastTouchX tapped)
                 < Instance.DOUBLE_TAP_THRESHOLD tapped
              /\ Rabs (98 - Instance.lastTouchY tapped)
                 < Instance.DOUBLE_TAP_THRESHOLD tapped).
  { cbn. repeat split; try lra; apply Rabs_def1; lra. }
  split; [exact H|].
  destruct (handleDoubleTapCheck_detection dom500 1200 (Touch.mk 1 103 98) [] []
              tapped) as (_ & Hnear & _).
  destruct (Hnear H) as (Hs & _). rewrite Hs. cbn. minmax.
Defined.

(** ** The kinetic tick and the frame queue *)

(** X23. While the velocities are above the stop thresholds, the kinetic
    tick of [core.ts] leaves the frame queue as it found it: it asks for no
    further frame.  The tick of [animations.ts] appends its own callback
    under the next handle. *)
Theorem kinetic_tick_frame_requests (dom : Dom.t) (now : R) (i : Instance.t) :
  kineticAtRest i = false ->
  Instance.rafQueue (animateKinetic dom now i) = Instance.rafQueue i
  /\ Instance.rafQueue (Animations.animateKinetic dom now i)
     = Instance.rafQueue i ++ [(Instance.rafNext i, KineticTickModule)].
Proof.
  intros Hrest. split.
  - apply animateKinetic_requests_no_frame. exact Hrest.
  - apply Animations_animateKinetic_requests_frame. exact Hrest.
Qed.

Lemma flung_not_at_rest : kineticAtRest flung = false.
Proof.
  unfold kineticAtRest, belowStopThreshold. change (velocityX flung) with 10.
  rewrite (proj2 (Rltb_false (Rabs 10) 0.5)); [reflexivity|].
  rewrite Rabs_right; lra.
Qed.

Lemma kinetic_tick_frame_requests_witness :
  kineticAtRest flung = false
  /\ Instance.rafQueue (animateKinetic dom500 16 flung) = []
  /\ Instance.rafQueue (Animations.animateKinetic dom500 16 flung)
     = [(0%nat, KineticTickModule)].
Proof.
  split; [exact flung_not_at_rest|].
  apply (kinetic_tick_frame_requests dom500 16 flung flung_not_at_rest).
Defined.

(** X24. A kinetic tick above the stop thresholds leaves the scale at
    [clampScale (scale + velocityScale)], whatever [minScale] and [maxScale]
    are, keeps the rotation, clears both elastic offsets, and publishes a
    translation within the hard bounds of the new scale when those are
    ordered. *)
Theorem animateKinetic_moving (dom : Dom.t) (now : R) (i : Instance.t) :
  kineticAtRest i = false ->
  let r := animateKinetic dom now i in
  scale r = clampScale i (scale i + velocityScale i)
  /\ rotation r = rotation i
  /\ elasticX r = 0 /\ elasticY r = 0
  /\ (ordered (hardBounds dom r) ->
      withinBounds (hardBounds dom r) (Instance.x r) (Instance.y r)).
Proof.
  intros Hrest. cbv zeta. unfold animateKinetic. rewrite Hrest. cbv zeta.
  match goal with |- context [clampPosition dom ?j2 _ _ true] =>
    assert (Hg : options j2 = options i
                 /\ scale j2 = clampScale i (scale i + velocityScale i))
      by exact (kinetic_guards_instance
                  (Instance.set_scale (scale i + velocityScale i)
                     (Instance.set_y (Instance.y i + velocityY i)
                        (Instance.set_x (Instance.x i + velocityX i) i))));
    assert (Hgr : rotation j2 = rotation i)
      by (repeat match goal with
                 | |- context [if ?c then _ else _] => destruct c
                 end; reflexivity);
    remember j2 as guarded eqn:E; clear E
  end.
  destruct Hg as (Hgo & Hgs).
  match goal with |- context [clampPosition ?d ?j ?a ?b true] =>
    pose proof (clampPosition_sameButElastic d j a b true) as Hc;
    destruct (clampPosition d j a b true) as [clamped moved];
    cbn [snd] in Hc; destruct Hc as (Hco & Hcs & Hcr & _)
  end.
  match goal with |- context [applyTransform dom false ?p] =>
    assert (Hp : scale p = scale moved /\ rotation p = rotation moved)
      by (split; reflexivity);
    remember p as p' eqn:E; clear E
  end.
  destruct Hp as (Hps & Hpr).
  destruct (applyTransform_fields dom false p') as (Ex & Ey & Es & Er & _).
  cbv zeta in Ex, Ey.
  assert (Hel : elasticX (applyTransform dom false p') = 0
                /\ elasticY (applyTransform dom false p') = 0)
    by (rewrite applyTransform_eq; split; reflexivity).
  assert (Hb : hardBounds dom (applyTransform dom false p') = hardBounds dom p')
    by (apply sameShape_hardBounds, applyTransform_sameShape).
  destruct Hel as (He1 & He2).
  rewrite Hb, Ex, Ey, Es, Er, Hps, Hpr, Hcs, Hcr, Hgs, Hgr.
  repeat split; try assumption;
    destruct H as [HX HY]; apply clamp_range; assumption.
Qed.

Lemma animateKinetic_moving_witness :
  kineticAtRest flung = false
  /\ scale (animateKinetic dom500 16 flung) = 1
  /\ elasticX (animateKinetic dom500 16 flung) = 0.
Proof.
  split; [exact flung_not_at_rest|].
  destruct (animateKinetic_moving dom500 16 flung flung_not_at_rest)
    as (Hs & _ & He & _).
  split; [|exact He]. rewrite Hs. unfold clampScale. cbn. minmax.
Defined.

(** ** core.ts: construction *)

Lemma constructor_start (dom : Dom.t) (o : PartialOptions.t) (unset : Instance.t) :
  exists p, constructor dom o unset = applyTransform dom false p
    /\ options p = resolveOptions o
    /\ scale p = orDefault (PartialOptions.initialScale o) 1
    /\ rotation p = 0
    /\ velocityX p = 0 /\ velocityY p = 0 /\ velocityScale p = 0
    /\ Instance.isPanning p = false /\ Instance.isPinching p = false
    /\ Instance.rafQueue p = []
    /\ Instance.x p = 0 /\ Instance.y p = 0.
Proof.
  eexists. split; [unfold constructor; reflexivity|].
  cbv zeta. repeat split.
Qed.

(** X25. A new instance has the resolved options, scale [initialScale]
    (1 unless given), rotation 0, zero velocities and elastic offsets, no
    gesture in progress and an empty frame queue; its translation is (0, 0)
    when the bounds padding is not negative.  The constructor does not copy
    [enableRotation], so for a new instance the pinch rotation is off
    whatever the caller passed. *)
Theorem constructor_initial_state
    (dom : Dom.t) (o : PartialOptions.t) (unset : Instance.t) :
  let i := constructor dom o unset in
  options i = resolveOptions o
  /\ scale i = orDefault (PartialOptions.initialScale o) 1
  /\ rotation i = 0
  /\ velocityX i = 0 /\ velocityY i = 0 /\ velocityScale i = 0
  /\ elasticX i = 0 /\ elasticY i = 0
  /\ Instance.isPanning i = false /\ Instance.isPinching i = false
  /\ Instance.rafQueue i = []
  /\ Options.enableRotation (options i) = false
  /\ (0 <= padding dom i -> Instance.x i = 0 /\ Instance.y i = 0).
Proof.
  cbv zeta.
  destruct (constructor_start dom o unset) as (p' & E & Hp).
  rewrite E. clear E.
  destruct Hp as (Po & Ps & Pr & Pvx & Pvy & Pvs & Ppan & Ppin & Pq & Px & Py).
  destruct (applyTransform_fields dom false p') as (Ex & Ey & Es & Er & Eo).
  cbv zeta in Ex, Ey.
  assert (Hrest : velocityX (applyTransform dom false p') = velocityX p'
                  /\ velocityY (applyTransform dom false p') = velocityY p'
                  /\ velocityScale (applyTransform dom false p') = velocityScale p'
                  /\ elasticX (applyTransform dom false p') = 0
                  /\ elasticY (applyTransform dom false p') = 0
                  /\ Instance.isPanning (applyTransform dom false p')
                     = Instance.isPanning p'
                  /\ Instance.isPinching (applyTransform dom false p')
                     = Instance.isPinching p'
                  /\ Instance.rafQueue (applyTransform dom false p')
                     = Instance.rafQueue p')
    by (rewrite applyTransform_eq; repeat split).
  destruct Hrest as (Rvx & Rvy & Rvs & Rex & Rey & Rpan & Rpin & Rq).
  rewrite Eo, Es, Er, Rvx, Rvy, Rvs, Rex, Rey, Rpan, Rpin, Rq.
  rewrite Po, Ps, Pr, Pvx, Pvy, Pvs, Ppan, Ppin, Pq.
  repeat split.
  - rewrite Ex, Px. apply clamp_fixed.
    apply (hardBounds_padding dom p').
    rewrite padding_eq in *. rewrite Eo in H. exact H.
  - rewrite Ey, Py. apply clamp_fixed.
    apply (hardBounds_padding dom p').
    rewrite padding_eq in *. rewrite Eo in H. exact H.
Qed.

Lemma constructor_initial_state_witness :
  0 <= padding dom500 (constructor dom500 noOptions idle)
  /\ Instance.x (constructor dom500 noOptions idle) = 0
  /\ Instance.y (constructor dom500 noOptions idle) = 0.
Proof.
  assert (H : 0 <= padding dom500 (constructor dom500 noOptions idle)).
  { rewrite padding_eq.
    destruct (constructor_fields dom500 noOptions idle) as (Ho & _).
    rewrite Ho. cbn. minmax. }
  split; [exact H|].
  destruct (constructor_initial_state dom500 noOptions idle)
    as (_ & _ & _ & _ & _ & _ & _ & _ & _ & _ & _ & _ & Hx).
  exact (Hx H).
Defined.

(** ** events.ts: the wheel zoom and the point under the cursor *)

Lemma worldToLocal_ext (dom : Dom.t) (i j : Instance.t) (Px Py : R) :
  Instance.x j = Instance.x i -> Instance.y j = Instance.y i ->
  scale j = scale i -> rotation j = rotation i ->
  worldToLocal dom j Px Py = worldToLocal dom i Px Py.
Proof.
  intros Hx Hy Hs Hr. unfold worldToLocal. rewrite Hx, Hy, Hs, Hr. reflexivity.
Qed.

Lemma applyAroundPivot_ext
    (dom : Dom.t) (Px Py newScale newRotation : R) (i j : Instance.t) :
  Instance.x j = Instance.x i -> Instance.y j = Instance.y i ->
  scale j = scale i -> rotation j = rotation i ->
  Instance.x (applyAroundPivot dom Px Py newScale newRotation j)
    = Instance.x (applyAroundPivot dom Px Py newScale newRotation i)
  /\ Instance.y (applyAroundPivot dom Px Py newScale newRotation j)
    = Instance.y (applyAroundPivot dom Px Py newScale newRotation i).
Proof.
  intros Hx Hy Hs Hr. unfold applyAroundPivot. cbn.
  rewrite Hx, Hy, Hs, Hr. split; reflexivity.
Qed.

Lemma applyAroundPivot_local_point
    (dom : Dom.t) (Px Py newScale newRotation : R) (i : Instance.t) :
  scale i <> 0 -> newScale <> 0 ->
  worldToLocal dom (applyAroundPivot dom Px Py newScale newRotation i) Px Py
  = worldToLocal dom i Px Py.
Proof.
  intros Hs Hn. unfold worldToLocal, applyAroundPivot. cbn.
  rewrite !neg_angle, !cos_neg, !sin_neg.
  pose proof (sin2_cos2 (newRotation * PI / 180)) as Ht.
  unfold Rsqr in Ht.
  set (c := cos (newRotation * PI / 180)) in *.
  set (s := sin (newRotation * PI / 180)) in *.
  set (c0 := cos (rotation i * PI / 180)).
  set (s0 := sin (rotation i * PI / 180)).
  f_equal;
    match goal with |- _ = ?rhs =>
      transitivity (rhs * (s * s + c * c));
        [field; split; assumption | rewrite Ht; ring]
    end.
Qed.

(** X26. A wheel event keeps the image point under the cursor where it is:
    when the scales before and after are positive and the translation that
    [applyAroundPivot] computes lies within the hard bounds of the new
    scale, the cursor position maps to the same local point after the
    event as before it. *)
Theorem handleWheel_keeps_cursor_point
    (dom : Dom.t) (e : WheelEvent.t) (i : Instance.t) :
  let cx := WheelEvent.clientX e in
  let cy := WheelEvent.clientY e in
  let factor :=
    1 + - WheelEvent.deltaY e * Options.wheelZoomSpeed (options i) in
  let target := clampScale i (scale i * factor) in
  let p := applyAroundPivot dom cx cy target (rotation i) i in
  0 < scale i -> 0 < target ->
  withinBounds (hardBounds dom p) (Instance.x p) (Instance.y p) ->
  worldToLocal dom (handleWheel dom e i) cx cy = worldToLocal dom i cx cy.
Proof.
  intros cx cy factor target p Hs Ht [HX HY]. unfold handleWheel.
  destruct (stopAnimation_sameMotion i) as (Ho & Hss & Hr & Hx & Hy & _).
  remember (stopAnimation i) as s eqn:E. clear E.
  cbv zeta. rewrite Ho, Hss, Hr. fold factor.
  rewrite (clampScale_options i s _ Ho). fold target. fold cx cy.
  destruct (factor <=? 0).
  - apply worldToLocal_ext; assumption.
  - destruct (applyAroundPivot_ext dom cx cy target (rotation i) i s
                Hx Hy Hss Hr) as (Qx & Qy).
    destruct (applyAroundPivot_fields dom cx cy target (rotation i) s)
      as (Qs & Qr & Qo).
    destruct (applyAroundPivot_fields dom cx cy target (rotation i) i)
      as (Ps & Pr & Po).
    fold p in Qx, Qy, Ps, Pr, Po.
    remember (applyAroundPivot dom cx cy target (rotation i) s) as q eqn:E.
    clear E.
    assert (Hb : hardBounds dom q = hardBounds dom p).
    { apply sameShape_hardBounds. repeat split.
      - rewrite Qo, Po. exact Ho.
      - rewrite Qs, Ps. reflexivity.
      - rewrite Qr, Pr. reflexivity. }
    destruct (applyTransform_fields dom false q) as (Ex & Ey & Es & Er & _).
    cbv zeta in Ex, Ey. rewrite Hb, Qx, (clamp_fixed _ _ _ HX) in Ex.
    rewrite Hb, Qy, (clamp_fixed _ _ _ HY) in Ey.
    rewrite (worldToLocal_ext dom p (applyTransform dom false q) cx cy);
      [| assumption | assumption
       | rewrite Es, Qs, Ps; reflexivity | rewrite Er, Qr, Pr; reflexivity].
    unfold p. apply applyAroundPivot_local_point; lra.
Qed.

Lemma handleWheel_keeps_cursor_point_witness :
  worldToLocal dom500 (handleWheel dom500 wheelUp idle)
    (WheelEvent.clientX wheelUp) (WheelEvent.clientY wheelUp)
  = worldToLocal dom500 idle
      (WheelEvent.clientX wheelUp) (WheelEvent.clientY wheelUp).
Proof.
  apply (handleWheel_keeps_cursor_point dom500 wheelUp idle).
  - cbn. lra.
  - unfold clampScale. cbn. minmax.
  - match goal with |- withinBounds (hardBounds dom500 ?p) _ _ =>
      assert (Hp : rotation p = 0 /\ scale p = 1.15
                   /\ Instance.x p = 0 /\ Instance.y p = 0
                   /\ options p = defaultOptions);
      [| remember p as q eqn:E; clear E]
    end.
    { unfold applyAroundPivot, clampScale. cbn.
      repeat split; try minmax; field. }
    destruct Hp as (Hr & Hs & Hx & Hy & Ho).
    rewrite (hardBounds_unrotated_overflow dom500 q Hr)
      by (rewrite Hs; cbn; lra).
    rewrite padding_eq, Hs, Hx, Hy, Ho. unfold withinBounds. cbn.
    split; minmax.
Defined.

(** ** core.ts: zoomToPoint and centerOnImagePoint *)

(** X27. [zoomToPoint] always leaves the scale at
    [clampScale (scale * deltaScale)] and keeps rotation and options.  When
    that clamped scale equals the current one the call changes nothing at
    all; otherwise it clears both elastic offsets and publishes a
    translation within the hard bounds of the new scale when those are
    ordered. *)
Theorem zoomToPoint_scale (dom : Dom.t) (cx cy d : R) (i : Instance.t) :
  let next := clampScale i (scale i * d) in
  let r := zoomToPoint dom cx cy d i in
  scale r = next /\ rotation r = rotation i /\ options r = options i
  /\ (next = scale i -> r = i)
  /\ (next <> scale i ->
      elasticX r = 0 /\ elasticY r = 0
      /\ (ordered (hardBounds dom r) ->
          withinBounds (hardBounds dom r) (Instance.x r) (Instance.y r))).
Proof.
  intros next. cbv zeta. unfold zoomToPoint. cbv zeta. fold next.
  destruct (next =? scale i) eqn:Eq.
  - apply Reqb_true in Eq. repeat split; congruence.
  - apply Reqb_false in Eq.
    match goal with |- context [clampPosition ?d ?j ?a ?b true] =>
      assert (Hj : options j = options i /\ scale j = next
                   /\ rotation j = rotation i) by (repeat split);
      remember j as zoomed eqn:E; clear E
    end.
    match goal with |- context [clampPosition ?d ?j ?a ?b true] =>
      pose proof (clampPosition_sameButElastic d j a b true) as Hc;
      destruct (clampPosition d j a b true) as [clamped moved];
      cbn [snd] in Hc; destruct Hc as (Hco & Hcs & Hcr & _)
    end.
    destruct Hj as (Jo & Js & Jr).
    match goal with |- context [applyTransform dom false ?p] =>
      assert (Hp : options p = options moved /\ scale p = scale moved
                   /\ rotation p = rotation moved) by (repeat split);
      remember p as p' eqn:E; clear E
    end.
    destruct Hp as (Po & Ps & Pr).
    destruct (applyTransform_fields dom false p') as (Ex & Ey & Es & Er & Eo).
    cbv zeta in Ex, Ey.
    assert (Hel : elasticX (applyTransform dom false p') = 0
                  /\ elasticY (applyTransform dom false p') = 0)
      by (rewrite applyTransform_eq; split; reflexivity).
    assert (Hb : hardBounds dom (applyTransform dom false p') = hardBounds dom p')
      by (apply sameShape_hardBounds, applyTransform_sameShape).
    destruct Hel as (He1 & He2).
    rewrite Hb, Ex, Ey, Es, Er, Eo, Ps, Pr, Po, Hcs, Hcr, Hco, Js, Jr, Jo.
    split; [reflexivity|]. split; [reflexivity|]. split; [reflexivity|].
    split; [intros Heq; contradiction|].
    intros _. split; [exact He1|]. split; [exact He2|].
    intros [HX HY]. split; apply clamp_range; assumption.
Qed.

(** X28. [centerOnImagePoint] ends where [moveBy] ends when given the
    offset of the image point from the content centre,
    [(image - contentSize / 2 / scale) * scale] on each axis: it moves the
    translation by that offset.  When the moved translation lies within the
    hard bounds, the image point is afterwards at the container centre plus
    the old translation plus twice the offset. *)
Theorem centerOnImagePoint_moves_by_offset
    (dom : Dom.t) (ix iy : R) (u : option bool) (i : Instance.t) :
  let dx := (ix - DOMRect.width (Dom.contentRect dom) / 2 / scale i) * scale i in
  let dy := (iy - DOMRect.height (Dom.contentRect dom) / 2 / scale i) * scale i in
  let centerX := DOMRect.width (Dom.containerRect dom) / 2 in
  let centerY := DOMRect.height (Dom.containerRect dom) / 2 in
  let r := centerOnImagePoint dom ix iy u i in
  withinBounds (hardBounds dom i) (Instance.x i + dx) (Instance.y i + dy) ->
  getTransform r = getTransform (moveBy dom dx dy u i)
  /\ Instance.x r = Instance.x i + dx
  /\ Instance.y r = Instance.y i + dy
  /\ imageToContainer dom r ix iy
     = Point.mk (centerX + Instance.x i + 2 * dx) (centerY + Instance.y i + 2 * dy).
Proof.
  intros dx dy centerX centerY r [HX HY].
  destruct (moveBy_fields dom dx dy u i) as (Bx & By & _ & Bs & Br).
  cbv zeta in Bx, By.
  assert (Hr : Instance.x r = Instance.x i + dx /\ Instance.y r = Instance.y i + dy
               /\ scale r = scale i /\ rotation r = rotation i).
  { unfold r, centerOnImagePoint. cbv zeta.
    match goal with |- context [moveTo dom ?tx ?ty u i] =>
      destruct (moveTo_fields dom tx ty u i) as (Mx & My & _ & Ms & Mr);
      assert (Ht : tx - centerX = Instance.x i + dx
                   /\ ty - centerY = Instance.y i + dy)
        by (unfold imageToContainer, dx, dy, centerX, centerY; cbn; split; lra);
      cbv zeta in Mx, My; fold centerX in Mx; fold centerY in My;
      remember tx as tx' eqn:E1; remember ty as ty' eqn:E2; clear E1 E2
    end.
    destruct Ht as (Htx & Hty).
    rewrite Mx, My, Ms, Mr, Htx, Hty.
    rewrite (clamp_fixed _ _ _ HX), (clamp_fixed _ _ _ HY).
    repeat split. }
  destruct Hr as (Rx & Ry & Rs & Rr).
  repeat split; try assumption.
  - unfold getTransform. rewrite Rx, Ry, Rs, Rr, Bx, By, Bs, Br.
    rewrite (clamp_fixed _ _ _ HX), (clamp_fixed _ _ _ HY). reflexivity.
  - unfold imageToContainer. rewrite Rx, Ry, Rs.
    unfold dx, dy, centerX, centerY. f_equal; lra.
Qed.

Lemma centerOnImagePoint_moves_by_offset_witness :
  imageToContainer dom500 (centerOnImagePoint dom500 600 500 None idle) 600 500
  = Point.mk 450 250.
Proof.
  assert (H : withinBounds (hardBounds dom500 idle)
                (Instance.x idle
                 + (600 - DOMRect.width (Dom.contentRect dom500) / 2 / scale idle)
                   * scale idle)
                (Instance.y idle
                 + (500 - DOMRect.height (Dom.contentRect dom500) / 2 / scale idle)
                   * scale idle)).
  { rewrite (dom500_hardBounds idle eq_refl eq_refl), padding_eq.
    unfold withinBounds. cbn. split; minmax. }
  destruct (centerOnImagePoint_moves_by_offset dom500 600 500 None idle H)
    as (_ & _ & _ & Hp).
  rewrite Hp. cbn. f_equal; lra.
Defined.

(** ** events.ts: the end of a touch *)

Lemma sameGesture_trans (i j k : Instance.t) :
  sameGesture i j -> sameGesture j k -> sameGesture i k.
Proof. unfold sameGesture. intuition congruence. Qed.

Lemma stopAnimation_sameGesture (i : Instance.t) : sameGesture i (stopAnimation i).
Proof.
  unfold stopAnimation.
  destruct (Instance.animationFrameId i);
    match goal with |- context [match ?o with _ => _ end] => destruct o end;
    repeat split.
Qed.

Lemma settle_sameGesture (dom : Dom.t) (u : bool) (x y ex ey : R) (j : Instance.t) :
  sameGesture j
    (applyTransform dom u
       (Instance.set_y y
          (Instance.set_x x (Instance.set_elasticY ey (Instance.set_elasticX ex j))))).
Proof. rewrite applyTransform_eq. repeat split. Qed.

Lemma handleDoubleTap_sameGesture (dom : Dom.t) (cx cy : R) (i : Instance.t) :
  sameGesture i (handleDoubleTap dom cx cy i).
Proof.
  unfold handleDoubleTap.
  pose proof (stopAnimation_sameGesture i) as Hs.
  remember (stopAnimation i) as s eqn:E. clear E.
  cbv zeta.
  match goal with |- context [clampPosition ?d ?j ?a ?b false] =>
    assert (Hj : sameGesture s j) by (repeat split);
    remember j as j' eqn:E; clear E
  end.
  match goal with |- context [clampPosition ?d ?j ?a ?b false] =>
    destruct (clampPosition_only_elastic d j a b false) as (ex & ey & Hsnd);
    destruct (clampPosition d j a b false) as [clamped moved];
    cbn [snd] in Hsnd; subst moved
  end.
  apply (sameGesture_trans _ _ _ Hs), (sameGesture_trans _ _ _ Hj).
  apply settle_sameGesture.
Qed.

Lemma tap_record_sameGesture (t tx ty : R) (j : Instance.t) :
  sameGesture j
    (Instance.set_lastTouchY ty
       (Instance.set_lastTouchX tx (Instance.set_lastTouchEndTime t j))).
Proof. repeat split. Qed.

Lemma handleDoubleTapCheck_sameGesture
    (dom : Dom.t) (now : R) (e : TouchEvent.t) (i : Instance.t) :
  sameGesture i (handleDoubleTapCheck dom now e i).
Proof.
  destruct e as [touches [|touch rest]].
  - repeat split.
  - rewrite handleDoubleTapCheck_eq.
    destruct (_ && _).
    + pose proof (handleDoubleTap_sameGesture dom (Touch.clientX touch)
                    (Touch.clientY touch) i) as Hd.
      remember (handleDoubleTap dom (Touch.clientX touch) (Touch.clientY touch) i)
        as z eqn:E. clear E.
      apply (sameGesture_trans _ _ _ Hd), tap_record_sameGesture.
    + apply tap_record_sameGesture.
Qed.

(** X29. When a pinch ends with one finger still down, the gesture goes on
    as a pan anchored at that finger: the pinch flag is cleared, the pan
    flag set, the drag marked as not moved, the press anchor and the last
    sample put at the finger and the current time, and the start
    translation at the translation the pinch left. *)
Theorem handleTouchEnd_pinch_to_pan
    (dom : Dom.t) (now : R) (touch : Touch.t) (changed : list Touch.t)
    (i : Instance.t) :
  Instance.isPinching i = true ->
  let r := handleTouchEnd dom now (TouchEvent.mk [touch] changed) i in
  Instance.isPinching r = false
  /\ Instance.isPanning r = true
  /\ Instance.didMove r = false
  /\ Instance.startClientX r = Touch.clientX touch
  /\ Instance.startClientY r = Touch.clientY touch
  /\ Instance.startX r = Instance.x i
  /\ Instance.startY r = Instance.y i
  /\ Instance.lastClientX r = Touch.clientX touch
  /\ Instance.lastClientY r = Touch.clientY touch
  /\ Instance.lastMoveTime r = now.
Proof.
  intros Hp. cbv zeta. unfold handleTouchEnd.
  cbn [TouchEvent.touches]. rewrite Hp. cbv zeta.
  match goal with |- context [handleDoubleTapCheck dom now ?e ?j] =>
    pose proof (handleDoubleTapCheck_sameGesture dom now e j) as G;
    assert (Hj : Instance.isPinching j = false
                 /\ Instance.isPanning j = true
                 /\ Instance.didMove j = false
                 /\ Instance.startClientX j = Touch.clientX touch
                 /\ Instance.startClientY j = Touch.clientY touch
                 /\ Instance.startX j = Instance.x i
                 /\ Instance.startY j = Instance.y i
                 /\ Instance.lastClientX j = Touch.clientX touch
                 /\ Instance.lastClientY j = Touch.clientY touch
                 /\ Instance.lastMoveTime j = now) by (repeat split);
    remember j as j' eqn:Ej; clear Ej;
    remember (handleDoubleTapCheck dom now e j') as r eqn:Er; clear Er
  end.
  unfold sameGesture in G.
  destruct G as (G1 & G2 & G3 & G4 & G5 & G6 & G7 & G8 & G9 & G10).
  rewrite G1, G2, G3, G4, G5, G6, G7, G8, G9, G10. exact Hj.
Qed.

Lemma handleTouchEnd_pinch_to_pan_witness :
  Instance.isPinching (pinching 0) = true
  /\ Instance.isPanning
       (handleTouchEnd dom500 100 (TouchEvent.mk [fingerA] [fingerB]) (pinching 0))
     = true.
Proof.
  split; [reflexivity|].
  destruct (handleTouchEnd_pinch_to_pan dom500 100 fingerA [fingerB] (pinching 0)
              eq_refl) as (_ & H & _).
  exact H.
Defined.

(** ** The thresholds that are assigned nowhere

    [core.ts] assigns [DRAG_THRESHOLD], [DOUBLE_TAP_DELAY] and
    [DOUBLE_TAP_THRESHOLD] nowhere, and a comparison with [undefined] is
    false.  The model compares in the same way at every value of the
    thresholds that is not positive: the drag gate never holds a move back
    and no touch end counts as a double tap. *)

Lemma drag_threshold_unassigned (dx dy : R) (i : Instance.t) :
  Instance.DRAG_THRESHOLD i <= 0 ->
  (Math_hypot dx dy <? Instance.DRAG_THRESHOLD i) = false.
Proof.
  intros H. apply Rltb_false. unfold Math_hypot.
  pose proof (sqrt_pos (dx * dx + dy * dy)). lra.
Qed.

Lemma double_tap_threshold_unassigned
    (dom : Dom.t) (now : R) (e : TouchEvent.t) (i : Instance.t) :
  Instance.DOUBLE_TAP_THRESHOLD i <= 0 ->
  getTransform (handleDoubleTapCheck dom now e i) = getTransform i.
Proof.
  intros H. destruct e as [touches [|touch rest]]; [reflexivity|].
  rewrite handleDoubleTapCheck_missed.
  - destruct (tap_record_fields now (Touch.clientX touch) (Touch.clientY touch) i)
      as (_ & Hg & _).
    exact Hg.
  - intros (_ & Hx & _).
    pose proof (Rabs_pos (Touch.clientX touch - Instance.lastTouchX i)). lra.
Qed.
